(** * chuk-virtual-shell-pyodide-host: a shallow embedding of the host bridge

    The development follows the three source modules that carry the claims:
    - [src/pyodideShell.js]  : package resolution ([locateVirtualShellDirectory],
      [isValidPythonModule], the package name of [loadVirtualShell]);
    - [src/scriptManager.js] : script selection and placeholder substitution;
    - [src/pyodideFs.js]     : staging of host files into the runtime's
      filesystem ([processDirectory], [copyFileToPyodide], [loadFolder]).
    Around them it follows the callers and the neighbours of that code:
    - [index.js]             : the command line ([parseArgs]);
    - [src/pyodideShell.js]  : [loadVirtualShell], [loadPythonScript] and
      the choice of the configuration folder in [loadConfiguration];
    - [src/ioHandlers.js]    : the line editor behind [nodepy.input].

    How the program is modelled:
    - a JavaScript string is the sequence of its code points ([list Z]);
      what [readFileSync(p, "utf8")] returns is a sequence of Unicode
      scalar values ([Utf8.isText]);
    - Node's [path] functions are the POSIX ones, written out
      ([Path.normalize], [Path.join], [Path.basename]);
    - the host filesystem is a tree of [Node]s in which a read can fail,
      reached from path strings through [resolve];
    - a JavaScript function that can throw returns a [result] (when the
      error message matters) or an [option], and the functions of
      [pyodideFs.js] thread the state of the runtime through their calls;
      console output is left out;
    - [pyodide.runPython] receives the script text built by the source and
      runs it: the literals of the script are read by Python's rules for
      string literals, the calls are [os.makedirs], [os.path.dirname],
      [base64.b64decode], [bytes.decode] and a text-mode [write], and the
      state of the runtime is the list of what was done to its filesystem;
    - [Buffer]'s UTF-8 and base64 encoders and [JSON.stringify] are written
      out as functions on code points and bytes;
    - the [options] object is the list of its own properties and values;
      a property it does not have reads as what [Object.prototype] holds,
      and as [undefined] when that holds nothing;
    - the terminal of a prompt is the record of what [onData] reads and
      changes, its strings being sequences of UTF-16 code units.

    Definitions come first, properties after them. *)

From Stdlib Require Import ZArith List String Ascii Bool Lia.
Import ListNotations.
Open Scope Z_scope.

(* ================================================================= *)
(** ** JavaScript strings *)

Module Js.

Definition jsstring := list Z.

(** A string literal of the source, as a sequence of code points. *)
Definition js (s : string) : jsstring :=
  map (fun a => Z.of_N (N_of_ascii a)) (list_ascii_of_string s).

Fixpoint eqb (a b : jsstring) : bool :=
  match a, b with
  | [], [] => true
  | x :: a', y :: b' => Z.eqb x y && eqb a' b'
  | _, _ => false
  end.

(** [s.startsWith(p)] *)
Fixpoint startsWith (s p : jsstring) {struct p} : bool :=
  match p with
  | [] => true
  | y :: p' =>
      match s with
      | x :: s' => Z.eqb x y && startsWith s' p'
      | [] => false
      end
  end.

(** [s.endsWith(p)] *)
Definition endsWith (s p : jsstring) : bool := startsWith (rev s) (rev p).

(** [s.includes(p)] *)
Fixpoint includes (s p : jsstring) : bool :=
  startsWith s p ||
  match s with
  | [] => false
  | _ :: s' => includes s' p
  end.

(** [s.replace(/c/g, d)] for a single character [c]. *)
Definition replaceChar (c d : Z) (s : jsstring) : jsstring :=
  map (fun x => if Z.eqb x c then d else x) s.

(** JavaScript truthiness of a string-valued option: [undefined] and the
    empty string are falsy. *)
Definition truthy (o : option jsstring) : bool :=
  match o with
  | Some (_ :: _) => true
  | _ => false
  end.

(** [a || b] on string-valued options. *)
Definition orElse (o : option jsstring) (d : jsstring) : jsstring :=
  match o with
  | Some (c :: s) => c :: s
  | _ => d
  end.

Definition SLASH : Z := 47.
Definition BACKSLASH : Z := 92.
Definition DOT : Z := 46.
Definition HYPHEN : Z := 45.
Definition UNDERSCORE : Z := 95.
Definition DOLLAR : Z := 36.
Definition LBRACE : Z := 123.
Definition RBRACE : Z := 125.
Definition QUOTE : Z := 39.
Definition DQUOTE : Z := 34.
Definition NEWLINE : Z := 10.

(** Errors are [new Error(message)]. *)
Record JsError := Error { message : jsstring }.

Inductive result (A : Type) :=
| Ok (a : A)
| Throw (e : JsError).
Arguments Ok {A} a.
Arguments Throw {A} e.

End Js.
Import Js.

(* ================================================================= *)
(** ** Node's [path] module (POSIX flavour) *)

Module Path.

(** Split at every ['/']; [split "a//b" = ["a"; ""; "b"]]. *)
Fixpoint split (p : jsstring) : list jsstring :=
  match p with
  | [] => [[]]
  | c :: p' =>
      if Z.eqb c SLASH then [] :: split p'
      else match split p' with
           | [] => [[c]]
           | seg :: segs => (c :: seg) :: segs
           end
  end.

Fixpoint joinWith (sep : jsstring) (segs : list jsstring) : jsstring :=
  match segs with
  | [] => []
  | [s] => s
  | s :: rest => s ++ sep ++ joinWith sep rest
  end.

Definition isDotDot (s : jsstring) : bool := Js.eqb s [DOT; DOT].
Definition isDot (s : jsstring) : bool := Js.eqb s [DOT].

(** [normalizeString]: the stack of kept segments, most recent first. *)
Fixpoint normalizeSegments (allowAboveRoot : bool)
         (stack : list jsstring) (segs : list jsstring) : list jsstring :=
  match segs with
  | [] => stack
  | seg :: rest =>
      match seg with
      | [] => normalizeSegments allowAboveRoot stack rest
      | _ =>
          if isDot seg then normalizeSegments allowAboveRoot stack rest
          else if isDotDot seg then
            match stack with
            | top :: below =>
                if isDotDot top
                then normalizeSegments allowAboveRoot
                       (if allowAboveRoot then seg :: stack else stack) rest
                else normalizeSegments allowAboveRoot below rest
            | [] =>
                normalizeSegments allowAboveRoot
                  (if allowAboveRoot then [seg] else []) rest
            end
          else normalizeSegments allowAboveRoot (seg :: stack) rest
      end
  end.

(** [path.normalize] *)
Definition normalize (p : jsstring) : jsstring :=
  match p with
  | [] => [DOT]
  | c :: _ =>
      let isAbsolute := Z.eqb c SLASH in
      let trailingSeparator := Z.eqb (last p 0) SLASH in
      let body :=
        joinWith [SLASH]
          (rev (normalizeSegments (negb isAbsolute) [] (split p))) in
      match body with
      | [] => if isAbsolute then [SLASH]
              else if trailingSeparator then [DOT; SLASH] else [DOT]
      | _ =>
          let body' := if trailingSeparator then body ++ [SLASH] else body in
          if isAbsolute then SLASH :: body' else body'
      end
  end.

(** [path.join(...args)]: empty arguments are dropped, the rest joined by
    ['/'] and normalized. *)
Definition join (args : list jsstring) : jsstring :=
  match filter (fun a => negb (Js.eqb a [])) args with
  | [] => [DOT]
  | kept => normalize (joinWith [SLASH] kept)
  end.

Fixpoint dropWhile {A} (f : A -> bool) (l : list A) : list A :=
  match l with
  | [] => []
  | x :: l' => if f x then dropWhile f l' else l
  end.

Fixpoint takeWhile {A} (f : A -> bool) (l : list A) : list A :=
  match l with
  | [] => []
  | x :: l' => if f x then x :: takeWhile f l' else []
  end.

Definition isSep (c : Z) : bool := Z.eqb c SLASH.

(** [path.basename(p)]: trailing separators are ignored, the result is the
    text after the last remaining separator. *)
Definition basename (p : jsstring) : jsstring :=
  rev (takeWhile (fun c => negb (isSep c)) (dropWhile isSep (rev p))).

End Path.

(* ================================================================= *)
(** ** The host filesystem as seen through [fs] *)

(** What a host path resolves to.  [File None] is a file whose content
    cannot be read, [Dir None] a directory whose listing cannot be read
    ([readFileSync], [readdirSync] throw); [Broken] is an entry on which
    [statSync] throws (a dangling link, a directory entry that may not be
    searched).  File contents are what [readFileSync(p, "utf8")] returns. *)
Unset Elimination Schemes.
Inductive Node :=
| File (content : option jsstring)
| Dir (listing : option (list (jsstring * Node)))
| Broken.
Set Elimination Schemes.

(** [resolve p]: the node a host path leads to, [None] when there is none. *)
Record HostFs := { resolve : jsstring -> option Node }.

(** [fs.existsSync(p)]; the empty path never exists. *)
Definition existsSync (fs : HostFs) (p : jsstring) : bool :=
  match p with
  | [] => false
  | _ => match resolve fs p with
         | Some (File _) | Some (Dir _) => true
         | _ => false
         end
  end.

(** [fs.statSync(p).isDirectory()], used by the source only behind an
    [existsSync] guard. *)
Definition statIsDirectory (fs : HostFs) (p : jsstring) : bool :=
  match resolve fs p with Some (Dir _) => true | _ => false end.

(** [fs.readdirSync(p)]; [None] when it throws. *)
Definition readdirSync (fs : HostFs) (p : jsstring) : option (list jsstring) :=
  match resolve fs p with
  | Some (Dir (Some entries)) => Some (map fst entries)
  | _ => None
  end.

(** [__dirname], [process.cwd()] and the environment variable read by the
    resolver. *)
Record Process := {
  dirname__ : jsstring;
  cwd : jsstring;
  env_CHUK_VIRTUAL_SHELL_PATH : option jsstring
}.

(** The fields of [options] read by the modelled functions. *)
Record Options := {
  pythonModulePath : option jsstring;
  customScriptPath : option jsstring;
  defaultSandbox : option jsstring
}.

(* ================================================================= *)
(** ** src/pyodideShell.js: package resolution *)

Module PyodideShell.

Section Resolver.
Variable fs : HostFs.
Variable proc : Process.

(** [isValidPythonModule(dirPath)] *)
Definition isValidPythonModule (dirPath : jsstring) : bool :=
  if negb (existsSync fs dirPath) || negb (statIsDirectory fs dirPath)
  then false
  else if existsSync fs (Path.join [dirPath; js "__init__.py"]) then true
  else match readdirSync fs dirPath with
       | Some files => existsb (fun file => endsWith file (js ".py")) files
       | None => false
       end.

Definition NOT_FOUND_MESSAGE : jsstring :=
  Eval cbv in
    js "Error: could not find 'chuk_virtual_shell' Python module. Please specify a valid path.".

(** The array literal followed by [.filter(Boolean)]. *)
Definition possibleLocations : list jsstring :=
  flat_map (fun o => if truthy o then [orElse o []] else [])
    [ Some (js "./chuk_virtual_shell");
      Some (js "../chuk_virtual_shell");
      Some (Path.join [dirname__ proc; js ".."; js "node_modules";
                       js "chuk-virtual-shell"]);
      env_CHUK_VIRTUAL_SHELL_PATH proc ].

(** The [for] loop over [possibleLocations] and the final [throw]. *)
Definition searchFallbacks : result jsstring :=
  match find (fun location =>
                existsSync fs location && isValidPythonModule location)
             possibleLocations with
  | Some location => Ok location
  | None => Throw (Error NOT_FOUND_MESSAGE)
  end.

(** [const baseName = path.basename(outerPath).replace(/-/g, '_')] *)
Definition foldedBaseName (outerPath : jsstring) : jsstring :=
  replaceChar HYPHEN UNDERSCORE (Path.basename outerPath).

(** [locateVirtualShellDirectory(options)] *)
Definition locateVirtualShellDirectory (options : Options)
  : result jsstring :=
  if truthy (pythonModulePath options) then
    let outerPath := orElse (pythonModulePath options) [] in
    if existsSync fs outerPath then
      let baseName := foldedBaseName outerPath in
      let innerPath := Path.join [outerPath; baseName] in
      if existsSync fs innerPath && statIsDirectory fs innerPath
      then Ok innerPath
      else Ok outerPath
    else searchFallbacks
  else searchFallbacks.

(** [loadVirtualShell], up to the computation of the package name:
    [const packageName = path.basename(moduleDir)]. *)
Definition resolvePackage (options : Options)
  : result (jsstring * jsstring) :=
  match locateVirtualShellDirectory options with
  | Ok moduleDir => Ok (moduleDir, Path.basename moduleDir)
  | Throw e => Throw e
  end.

(** Every location the resolver looks at, in order. *)
Definition attemptedLocations (options : Options) : list jsstring :=
  (if truthy (pythonModulePath options)
   then [orElse (pythonModulePath options) []] else [])
  ++ possibleLocations.

End Resolver.

(** The candidate of [options] is of no use: none is given, it is the
    empty string, or it does not exist. *)
Definition noUsableCandidate (fs : HostFs) (options : Options) : Prop :=
  truthy (pythonModulePath options) = false
  \/ existsSync fs (orElse (pythonModulePath options) []) = false.

End PyodideShell.

(* ================================================================= *)
(** ** src/scriptManager.js *)

Module ScriptManager.

Definition ENHANCED_MAIN : jsstring := Eval cbv in js "pyodide_enhanced_main.py".
Definition BASIC_MAIN : jsstring := Eval cbv in js "pyodide_basic_main.py".
Definition AI_SANDBOX : jsstring := Eval cbv in js "ai_sandbox".
Definition KEY_OPTIONS_DEFAULT_SANDBOX : jsstring :=
  Eval cbv in js "options.defaultSandbox".
Definition KEY_DEFAULT_SANDBOX : jsstring := Eval cbv in js "defaultSandbox".
Definition NO_SCRIPTS_MESSAGE : jsstring :=
  Eval cbv in
    js "Could not find any Python scripts. Make sure the python_scripts directory exists and contains the required files.".

Section Manager.
Variable fs : HostFs.
Variable proc : Process.
Variable options : Options.

(** [this.scriptBasePath = path.join(__dirname, '..', 'python_scripts')] *)
Definition scriptBasePath : jsstring :=
  Path.join [dirname__ proc; js ".."; js "python_scripts"].

Definition scriptFileNameOf (scriptType : jsstring) : jsstring :=
  if Js.eqb scriptType (js "enhanced") then ENHANCED_MAIN else BASIC_MAIN.

Definition alternateLocations (scriptFileName : jsstring) : list jsstring :=
  [ Path.join [cwd proc; js "python_scripts"; scriptFileName];
    Path.join [cwd proc; scriptFileName];
    Path.join [dirname__ proc; scriptFileName] ].

(** [getScriptPath(scriptType)] *)
Definition getScriptPath (scriptType : jsstring) : result jsstring :=
  if truthy (customScriptPath options)
     && existsSync fs (orElse (customScriptPath options) [])
  then Ok (orElse (customScriptPath options) [])
  else
    let scriptFileName := scriptFileNameOf scriptType in
    let scriptPath := Path.join [scriptBasePath; scriptFileName] in
    if existsSync fs scriptPath then Ok scriptPath
    else
      match find (existsSync fs) (alternateLocations scriptFileName) with
      | Some location => Ok location
      | None =>
          let basicScriptPath := Path.join [scriptBasePath; BASIC_MAIN] in
          if existsSync fs basicScriptPath then Ok basicScriptPath
          else Throw (Error NO_SCRIPTS_MESSAGE)
      end.

Definition notRBrace (c : Z) : bool := negb (Z.eqb c RBRACE).

(** The regular expression [\$\{([^}]+)\}] tried at the head of [s]: the
    captured [varName] when it matches.  The greedy class [[^}]+] takes
    every character up to the next ['}']; it must take at least one, and a
    ['}'] must follow. *)
Definition matchPlaceholder (s : jsstring) : option jsstring :=
  match s with
  | d :: b :: rest =>
      if Z.eqb d DOLLAR && Z.eqb b LBRACE then
        match Path.takeWhile notRBrace rest,
              Path.dropWhile notRBrace rest with
        | c :: name, _ :: _ => Some (c :: name)
        | _, _ => None
        end
      else None
  | _ => None
  end.

(** The text matched for a captured name: [${] name [}]. *)
Definition placeholder (varName : jsstring) : jsstring :=
  [DOLLAR; LBRACE] ++ varName ++ [RBRACE].

(** [content.replace(re, replacer)] for the global regular expression above:
    the text is scanned from left to right; at a match the replacer's value
    is emitted and the scan resumes after the match ([skip] counts the
    characters of the current match still to pass), elsewhere the character
    is copied. *)
Fixpoint replacePlaceholders (replacer : jsstring -> jsstring -> jsstring)
         (skip : nat) (s : jsstring) : jsstring :=
  match s with
  | [] => []
  | c :: rest =>
      match skip with
      | S k => replacePlaceholders replacer k rest
      | O =>
          match matchPlaceholder (c :: rest) with
          | Some varName =>
              replacer (placeholder varName) varName
              ++ replacePlaceholders replacer (List.length varName + 2) rest
          | None => c :: replacePlaceholders replacer 0 rest
          end
      end
  end.

(** The arrow function passed to [replace]. *)
Definition replacer (match_ varName : jsstring) : jsstring :=
  if Js.eqb varName KEY_OPTIONS_DEFAULT_SANDBOX
     || Js.eqb varName KEY_DEFAULT_SANDBOX
  then orElse (defaultSandbox options) AI_SANDBOX
  else match_.

(** [processScriptContent(content)] *)
Definition processScriptContent (content : jsstring) : jsstring :=
  replacePlaceholders replacer 0 content.

End Manager.

(** No custom script can be used: none is configured, or the configured
    one is not on the host. *)
Definition noUsableCustom (fs : HostFs) (options : Options) : Prop :=
  truthy (customScriptPath options) = false
  \/ existsSync fs (orElse (customScriptPath options) []) = false.

(** The place of a built-in script in the primary scripts directory. *)
Definition primaryPath (proc : Process) (scriptFileName : jsstring)
  : jsstring :=
  Path.join [scriptBasePath proc; scriptFileName].

(** A [${] in [s] with no ['}'] anywhere after it. *)
Fixpoint unterminated (s : jsstring) : bool :=
  match s with
  | [] => false
  | c :: rest =>
      (startsWith s [DOLLAR; LBRACE] && forallb notRBrace rest)
      || unterminated rest
  end.

End ScriptManager.

(* ================================================================= *)
(** ** UTF-8: [Buffer.from(content)] and Python's [bytes.decode('utf-8')] *)

Module Utf8.

Definition isSurrogate (c : Z) : bool := (0xD800 <=? c) && (c <=? 0xDFFF).

(** A Unicode scalar value: what [readFileSync(p, "utf8")] produces. *)
Definition isScalar (c : Z) : bool :=
  (0 <=? c) && (c <=? 0x10FFFF) && negb (isSurrogate c).

Definition isText (s : jsstring) : bool := forallb isScalar s.

(** One code point as Node's encoder writes it; an unpaired surrogate is
    written as U+FFFD. *)
Definition encodeChar (c : Z) : list Z :=
  if isSurrogate c then [0xEF; 0xBF; 0xBD]
  else if c <? 0x80 then [c]
  else if c <? 0x800 then [0xC0 + c / 64; 0x80 + c mod 64]
  else if c <? 0x10000 then
    [0xE0 + c / 4096; 0x80 + (c / 64) mod 64; 0x80 + c mod 64]
  else
    [0xF0 + c / 262144; 0x80 + (c / 4096) mod 64;
     0x80 + (c / 64) mod 64; 0x80 + c mod 64].

(** [Buffer.from(s)] (UTF-8 is the default encoding). *)
Definition encode (s : jsstring) : list Z := flat_map encodeChar s.

Definition isContinuation (b : Z) : bool := (0x80 <=? b) && (b <=? 0xBF).

Definition consTo (c : Z) (r : option (list Z)) : option (list Z) :=
  match r with Some l => Some (c :: l) | None => None end.

(** Python's strict decoder: truncated, overlong and surrogate sequences
    and values above U+10FFFF raise ([None]). *)
Fixpoint decode (bs : list Z) : option (list Z) :=
  match bs with
  | [] => Some []
  | b0 :: r0 =>
      if (0 <=? b0) && (b0 <? 0x80) then consTo b0 (decode r0)
      else if (0xC2 <=? b0) && (b0 <=? 0xDF) then
        match r0 with
        | b1 :: r1 =>
            if isContinuation b1
            then consTo ((b0 - 0xC0) * 64 + (b1 - 0x80)) (decode r1)
            else None
        | _ => None
        end
      else if (0xE0 <=? b0) && (b0 <=? 0xEF) then
        match r0 with
        | b1 :: b2 :: r2 =>
            let c := (b0 - 0xE0) * 4096 + (b1 - 0x80) * 64 + (b2 - 0x80) in
            if isContinuation b1 && isContinuation b2
               && (0x800 <=? c) && negb (isSurrogate c)
            then consTo c (decode r2)
            else None
        | _ => None
        end
      else if (0xF0 <=? b0) && (b0 <=? 0xF4) then
        match r0 with
        | b1 :: b2 :: b3 :: r3 =>
            let c := (b0 - 0xF0) * 262144 + (b1 - 0x80) * 4096
                     + (b2 - 0x80) * 64 + (b3 - 0x80) in
            if isContinuation b1 && isContinuation b2 && isContinuation b3
               && (0x10000 <=? c) && (c <=? 0x10FFFF)
            then consTo c (decode r3)
            else None
        | _ => None
        end
      else None
  end.

(** Python's [str.encode('utf-8')], used by a text-mode [write]: a
    surrogate raises. *)
Definition pyEncode (s : list Z) : option (list Z) :=
  if isText s then Some (encode s) else None.

End Utf8.

(* ================================================================= *)
(** ** Base64: [buf.toString("base64")] and Python's [base64.b64decode] *)

Module Base64.

Definition PAD : Z := 61.

(** The alphabet [A-Za-z0-9+/]. *)
Definition digitChar (d : Z) : Z :=
  if d <? 26 then 65 + d
  else if d <? 52 then 97 + (d - 26)
  else if d <? 62 then 48 + (d - 52)
  else if d =? 62 then 43
  else 47.

Definition charDigit (c : Z) : option Z :=
  if (65 <=? c) && (c <=? 90) then Some (c - 65)
  else if (97 <=? c) && (c <=? 122) then Some (c - 97 + 26)
  else if (48 <=? c) && (c <=? 57) then Some (c - 48 + 52)
  else if c =? 43 then Some 62
  else if c =? 47 then Some 63
  else None.

(** Node's encoder: three bytes give four characters, the tail is padded. *)
Fixpoint encode (bs : list Z) : list Z :=
  match bs with
  | [] => []
  | [a] => [digitChar (a / 4); digitChar ((a mod 4) * 16); PAD; PAD]
  | [a; b] =>
      [digitChar (a / 4); digitChar ((a mod 4) * 16 + b / 16);
       digitChar ((b mod 16) * 4); PAD]
  | a :: b :: c :: rest =>
      [digitChar (a / 4); digitChar ((a mod 4) * 16 + b / 16);
       digitChar ((b mod 16) * 4 + c / 64); digitChar (c mod 64)]
      ++ encode rest
  end.

(** [binascii.a2b_base64] in its default mode: characters outside the
    alphabet are passed over, a sufficient run of pad characters ends the
    data, and data that stops inside a quad raises. *)
Fixpoint a2b (quad_pos : nat) (leftchar : Z) (pads : nat) (s : list Z)
  : option (list Z) :=
  match s with
  | [] => match quad_pos with O => Some [] | _ => None end
  | this_ch :: rest =>
      if this_ch =? PAD then
        if (2 <=? quad_pos)%nat && (4 <=? quad_pos + S pads)%nat
        then Some []
        else a2b quad_pos leftchar
                 (if (2 <=? quad_pos)%nat then S pads else pads) rest
      else
        match charDigit this_ch with
        | None => a2b quad_pos leftchar pads rest
        | Some v =>
            match quad_pos with
            | 0%nat => a2b 1 v 0 rest
            | 1%nat => Utf8.consTo (leftchar * 4 + v / 16)
                                   (a2b 2 (v mod 16) 0 rest)
            | 2%nat => Utf8.consTo (leftchar * 16 + v / 4)
                                   (a2b 3 (v mod 4) 0 rest)
            | _ => Utf8.consTo (leftchar * 64 + v) (a2b 0 0 0 rest)
            end
        end
  end.

(** [base64.b64decode(s)] for a [str] argument: it must be ASCII. *)
Definition b64decode (s : list Z) : option (list Z) :=
  if forallb (fun c => (0 <=? c) && (c <? 128)) s then a2b 0 0 0 s else None.

(** A byte. *)
Definition isByte (b : Z) : Prop := 0 <= b < 256.

(** The characters of an encoding: ASCII, and none that ends or escapes
    inside a single-quoted literal. *)
Definition base64Char (c : Z) : Prop :=
  43 <= c <= 122 /\ c <> 92.

End Base64.

(* ================================================================= *)
(** ** [JSON.stringify] on a string *)

Module Json.

Definition hexDigit (d : Z) : Z := if d <? 10 then 48 + d else 97 + (d - 10).

(** [\uXXXX] with lower-case digits. *)
Definition unicodeEscape (c : Z) : list Z :=
  [92; 117; hexDigit (c / 4096); hexDigit ((c / 256) mod 16);
   hexDigit ((c / 16) mod 16); hexDigit (c mod 16)].

(** QuoteJSONString, one code point. *)
Definition quoteChar (c : Z) : list Z :=
  if c =? 8 then [92; 98]
  else if c =? 9 then [92; 116]
  else if c =? 10 then [92; 110]
  else if c =? 12 then [92; 102]
  else if c =? 13 then [92; 114]
  else if c =? 34 then [92; 34]
  else if c =? 92 then [92; 92]
  else if (c <? 32) || Utf8.isSurrogate c then unicodeEscape c
  else [c].

Definition stringify (s : jsstring) : jsstring :=
  [DQUOTE] ++ flat_map quoteChar s ++ [DQUOTE].

End Json.

(* ================================================================= *)
(** ** The embedded runtime: the Python that [pyodide.runPython] is given *)

Module Python.

Definition hexVal (c : Z) : option Z :=
  if (48 <=? c) && (c <=? 57) then Some (c - 48)
  else if (97 <=? c) && (c <=? 102) then Some (c - 87)
  else if (65 <=? c) && (c <=? 70) then Some (c - 55)
  else None.

Definition octVal (c : Z) : option Z :=
  if (48 <=? c) && (c <=? 55) then Some (c - 48) else None.

Fixpoint hexNumber (acc : Z) (digits : list Z) : option Z :=
  match digits with
  | [] => Some acc
  | d :: rest =>
      match hexVal d with
      | Some v => hexNumber (acc * 16 + v) rest
      | None => None
      end
  end.

Definition push (c : Z) (r : option (jsstring * jsstring))
  : option (jsstring * jsstring) :=
  match r with
  | Some (value, rest) => Some (c :: value, rest)
  | None => None
  end.

Definition pushHex (digits : list Z) (limit : Z)
           (r : option (jsstring * jsstring)) : option (jsstring * jsstring) :=
  match hexNumber 0 digits with
  | Some v => if v <=? limit then push v r else None
  | None => None
  end.

(** The one-character escapes of the language reference. *)
Definition simpleEscape (e : Z) : option Z :=
  if e =? 92 then Some 92
  else if e =? 39 then Some 39
  else if e =? 34 then Some 34
  else if e =? 97 then Some 7
  else if e =? 98 then Some 8
  else if e =? 102 then Some 12
  else if e =? 110 then Some 10
  else if e =? 114 then Some 13
  else if e =? 116 then Some 9
  else if e =? 118 then Some 11
  else None.

(** A short (single-line) [str] literal whose opening quote [q] has been
    read: its value and the source text after the closing quote.  [None]
    is a syntax error: the line or the text ends inside the literal, a
    NUL, a malformed [\x], [\u] or [\U] escape ([\N{...}] is not modelled
    and counts as one). *)
Fixpoint stringLiteral (q : Z) (s : jsstring) {struct s}
  : option (jsstring * jsstring) :=
  match s with
  | [] => None
  | c :: rest =>
      if c =? q then Some ([], rest)
      else if (c =? 10) || (c =? 13) || (c =? 0) then None
      else if c =? BACKSLASH then
        match rest with
        | [] => None
        | e :: rest1 =>
            if e =? 10 then stringLiteral q rest1
            else if e =? 13 then
              match rest1 with
              | e2 :: rest2 =>
                  if e2 =? 10 then stringLiteral q rest2
                  else stringLiteral q rest1
              | [] => None
              end
            else
              match simpleEscape e with
              | Some v => push v (stringLiteral q rest1)
              | None =>
                  match octVal e with
                  | Some d1 =>
                      match rest1 with
                      | e2 :: rest2 =>
                          match octVal e2 with
                          | Some d2 =>
                              match rest2 with
                              | e3 :: rest3 =>
                                  match octVal e3 with
                                  | Some d3 =>
                                      push (d1 * 64 + d2 * 8 + d3)
                                           (stringLiteral q rest3)
                                  | None =>
                                      push (d1 * 8 + d2) (stringLiteral q rest2)
                                  end
                              | [] => None
                              end
                          | None => push d1 (stringLiteral q rest1)
                          end
                      | [] => None
                      end
                  | None =>
                      if e =? 120 then
                        match rest1 with
                        | h1 :: h2 :: rest3 =>
                            pushHex [h1; h2] 255 (stringLiteral q rest3)
                        | _ => None
                        end
                      else if e =? 117 then
                        match rest1 with
                        | h1 :: h2 :: h3 :: h4 :: rest5 =>
                            pushHex [h1; h2; h3; h4] 0xFFFF
                                    (stringLiteral q rest5)
                        | _ => None
                        end
                      else if e =? 85 then
                        match rest1 with
                        | h1 :: h2 :: h3 :: h4 :: h5 :: h6 :: h7 :: h8 :: rest9 =>
                            pushHex [h1; h2; h3; h4; h5; h6; h7; h8] 0x10FFFF
                                    (stringLiteral q rest9)
                        | _ => None
                        end
                      else if e =? 78 then None
                      else push 92 (stringLiteral q rest)
                  end
              end
        end
      else push c (stringLiteral q rest)
  end.

(** Text that a literal quoted by [q] holds as it stands: no closing
    quote, backslash, line end or NUL. *)
Definition literalSafe (q : Z) (s : jsstring) : bool :=
  forallb (fun c => negb ((c =? q) || (c =? BACKSLASH) || (c =? 10)
                          || (c =? 13) || (c =? 0))) s.

(** [os.path.dirname(p)] *)
Definition dirname (p : jsstring) : jsstring :=
  let head := rev (Path.dropWhile (fun c => negb (Path.isSep c)) (rev p)) in
  if forallb Path.isSep head then head
  else rev (Path.dropWhile Path.isSep (rev head)).

(** The runtime's filesystem is the chronological list of what was done
    to it. *)
Inductive VfsOp :=
| Makedirs (path : jsstring)
| WriteFile (path : jsstring) (data : list Z).

Definition Pyodide := list VfsOp.

(** [os.makedirs(path, exist_ok=True)]; the empty path raises. *)
Definition makedirs (path : jsstring) (st : Pyodide) : option Pyodide :=
  match path with
  | [] => None
  | _ => Some (st ++ [Makedirs path])
  end.

(** [with open(path, 'w') as f: f.write(text)].  The runtime is a POSIX
    platform: [os.linesep] is the line feed, so the text is encoded as it
    is, carriage returns included. *)
Definition writeText (path text : jsstring) (st : Pyodide) : option Pyodide :=
  match path, Utf8.pyEncode text with
  | _ :: _, Some data => Some (st ++ [WriteFile path data])
  | _, _ => None
  end.

(** The bytes of the file at [path]: those of its latest write. *)
Fixpoint readFile (st : Pyodide) (path : jsstring) : option (list Z) :=
  match st with
  | [] => None
  | op :: later =>
      match readFile later path with
      | Some data => Some data
      | None =>
          match op with
          | WriteFile p data => if Js.eqb p path then Some data else None
          | Makedirs _ => None
          end
      end
  end.

Definition CARRIAGE_RETURN : Z := 13.

(** The universal newlines of a text-mode read: the pair of a carriage
    return and a line feed, and a carriage return alone, become one line
    feed. *)
Fixpoint universalNewlines (text : jsstring) : jsstring :=
  match text with
  | [] => []
  | c :: rest =>
      if c =? CARRIAGE_RETURN then
        NEWLINE :: match rest with
                   | d :: rest' =>
                       if d =? NEWLINE then universalNewlines rest'
                       else universalNewlines rest
                   | [] => []
                   end
      else c :: universalNewlines rest
  end.

(** [open(path).read()]: the bytes are decoded and the line ends
    translated. *)
Definition readText (st : Pyodide) (path : jsstring) : option jsstring :=
  match readFile st path with
  | Some data =>
      match Utf8.decode data with
      | Some text => Some (universalNewlines text)
      | None => None
      end
  | None => None
  end.

(** [expect lit s]: [s] begins with the fixed text [lit]; what follows. *)
Definition expect (lit s : jsstring) : option jsstring :=
  if startsWith s lit then Some (skipn (List.length lit) s) else None.

Definition nl : jsstring := [NEWLINE].

(** The fixed text of the three scripts of [pyodideFs.js], between the
    interpolated values. *)
Definition MKDIR_HEAD : jsstring :=
  Eval cbv in nl ++ js "    import os" ++ nl ++ js "    os.makedirs('".
Definition MKDIR_TAIL : jsstring :=
  Eval cbv in js ", exist_ok=True)" ++ nl ++ js "  ".

Definition COPY_HEAD : jsstring :=
  Eval cbv in
    nl ++ js "    import os, base64" ++ nl
       ++ js "    os.makedirs(os.path.dirname('".
Definition COPY_OPEN : jsstring :=
  Eval cbv in js "), exist_ok=True)" ++ nl ++ js "    with open('".
Definition COPY_WRITE : jsstring :=
  Eval cbv in
    js ", 'w') as f:" ++ nl ++ js "        f.write(base64.b64decode('".
Definition COPY_TAIL : jsstring :=
  Eval cbv in js ").decode('utf-8'))" ++ nl ++ js "  ".

Definition FOLDER_HEAD : jsstring :=
  Eval cbv in
    nl ++ js "        import os" ++ nl
       ++ js "        os.makedirs(os.path.dirname('".
Definition FOLDER_OPEN : jsstring :=
  Eval cbv in js "), exist_ok=True)" ++ nl ++ js "        with open('".
Definition FOLDER_WRITE : jsstring :=
  Eval cbv in js ", 'w') as f:" ++ nl ++ js "            f.write(".
Definition FOLDER_TAIL : jsstring :=
  Eval cbv in js ")" ++ nl ++ js "      ".

Notation "' p <- e ;; k" :=
  (match e with Some p => k | None => None end)
    (at level 60, p pattern, e at next level, right associativity).

(** [import os; os.makedirs('<path>', exist_ok=True)] *)
Definition execMakedirs (code : jsstring) (st : Pyodide) : option Pyodide :=
  ' s1 <- expect MKDIR_HEAD code ;;
  ' (path, s2) <- stringLiteral QUOTE s1 ;;
  ' s3 <- expect MKDIR_TAIL s2 ;;
  match s3 with [] => makedirs path st | _ => None end.

(** The script of [copyFileToPyodide]. *)
Definition execCopy (code : jsstring) (st : Pyodide) : option Pyodide :=
  ' s1 <- expect COPY_HEAD code ;;
  ' (dirArg, s2) <- stringLiteral QUOTE s1 ;;
  ' s3 <- expect COPY_OPEN s2 ;;
  ' (target, s4) <- stringLiteral QUOTE s3 ;;
  ' s5 <- expect COPY_WRITE s4 ;;
  ' (encoded, s6) <- stringLiteral QUOTE s5 ;;
  ' s7 <- expect COPY_TAIL s6 ;;
  match s7 with
  | [] =>
      ' st1 <- makedirs (dirname dirArg) st ;;
      ' data <- Base64.b64decode encoded ;;
      ' text <- Utf8.decode data ;;
      writeText target text st1
  | _ => None
  end.

(** The script of [loadFolder]; the written value is a double-quoted
    literal. *)
Definition execFolderWrite (code : jsstring) (st : Pyodide)
  : option Pyodide :=
  ' s1 <- expect FOLDER_HEAD code ;;
  ' (dirArg, s2) <- stringLiteral QUOTE s1 ;;
  ' s3 <- expect FOLDER_OPEN s2 ;;
  ' (target, s4) <- stringLiteral QUOTE s3 ;;
  ' s5 <- expect FOLDER_WRITE s4 ;;
  match s5 with
  | c :: s6 =>
      if c =? DQUOTE then
        ' (text, s7) <- stringLiteral DQUOTE s6 ;;
        ' s8 <- expect FOLDER_TAIL s7 ;;
        match s8 with
        | [] =>
            ' st1 <- makedirs (dirname dirArg) st ;;
            writeText target text st1
        | _ => None
        end
      else None
  | [] => None
  end.

(** [pyodide.runPython(code)] on the scripts of [pyodideFs.js]: the new
    state of the runtime, [None] when the script raises.  Text that is
    none of the three scripts is not run. *)
Definition runPython (code : jsstring) (st : Pyodide) : option Pyodide :=
  match execMakedirs code st with
  | Some st' => Some st'
  | None =>
      match execCopy code st with
      | Some st' => Some st'
      | None => execFolderWrite code st
      end
  end.

End Python.

(* ================================================================= *)
(** ** src/pyodideFs.js *)

Module PyodideFs.

Import Python.

(** The functions below return the runtime with what the call has done to
    it and the value returned; [None] stands for an exception leaving the
    call.  A host path is represented by the [Node] it resolves to. *)

Definition DOT_PY : jsstring := Eval cbv in js ".py".

(** [createPyodideDirectory(pyodide, pyodidePath)] *)
Definition createPyodideDirectory (pyodide : Pyodide) (pyodidePath : jsstring)
  : Pyodide * option unit :=
  match runPython (MKDIR_HEAD ++ pyodidePath ++ [QUOTE] ++ MKDIR_TAIL)
                  pyodide with
  | Some pyodide' => (pyodide', Some tt)
  | None => (pyodide, None)
  end.

(** [copyFileToPyodide(pyodide, sourcePath, targetPath)] *)
Definition copyFileToPyodide (pyodide : Pyodide) (source : Node)
           (targetPath : jsstring) : Pyodide * option unit :=
  match source with
  | File (Some content) =>
      let base64Content := Base64.encode (Utf8.encode content) in
      match runPython
              (COPY_HEAD ++ targetPath ++ [QUOTE] ++ COPY_OPEN
               ++ targetPath ++ [QUOTE] ++ COPY_WRITE
               ++ base64Content ++ [QUOTE] ++ COPY_TAIL)
              pyodide with
      | Some pyodide' => (pyodide', Some tt)
      | None => (pyodide, None)
      end
  | _ => (pyodide, None)
  end.

(** [path.join(dir, file).replace(/\\/g, "/")] *)
Definition targetOf (dir file : jsstring) : jsstring :=
  replaceChar BACKSLASH SLASH (Path.join [dir; file]).

Section Entries.
(** The recursive call of [processDirectory] on a subdirectory. *)
Variable recurse : Pyodide -> Node -> jsstring -> Pyodide * option nat.

(** The [for (const file of files)] loop of [processDirectory], inside its
    [try]: the runtime and [pythonFileCount] when the loop is left, by its
    end or by an exception. *)
Fixpoint processEntries (pyodidePath : jsstring) (pyodide : Pyodide)
         (pythonFileCount : nat) (files : list (jsstring * Node))
  : Pyodide * nat :=
  match files with
  | [] => (pyodide, pythonFileCount)
  | (file, entry) :: rest =>
      if startsWith file [DOT]
      then processEntries pyodidePath pyodide pythonFileCount rest
      else
        let pyodideFilePath := targetOf pyodidePath file in
        match entry with
        | Broken => (pyodide, pythonFileCount)
        | Dir _ =>
            match recurse pyodide entry pyodideFilePath with
            | (pyodide', Some n) =>
                processEntries pyodidePath pyodide' (pythonFileCount + n) rest
            | (pyodide', None) => (pyodide', pythonFileCount)
            end
        | File _ =>
            if endsWith file DOT_PY then
              match copyFileToPyodide pyodide entry pyodideFilePath with
              | (pyodide', Some _) =>
                  processEntries pyodidePath pyodide' (S pythonFileCount) rest
              | (pyodide', None) => (pyodide', pythonFileCount)
              end
            else processEntries pyodidePath pyodide pythonFileCount rest
        end
  end.
End Entries.

(** [processDirectory(pyodide, currentDir, pyodidePath)] *)
Fixpoint processDirectory (pyodide : Pyodide) (currentDir : Node)
         (pyodidePath : jsstring) {struct currentDir} : Pyodide * option nat :=
  match createPyodideDirectory pyodide pyodidePath with
  | (pyodide1, None) => (pyodide1, None)
  | (pyodide1, Some _) =>
      match currentDir with
      | Dir (Some files) =>
          let (pyodide2, pythonFileCount) :=
            processEntries processDirectory pyodidePath pyodide1 0%nat files in
          (pyodide2, Some pythonFileCount)
      | _ => (pyodide1, Some 0%nat)
      end
  end.

(** [locateDirectory(dir)]: the located path and what it resolves to. *)
Definition locateDirectory (fs : HostFs) (dir : jsstring)
  : option (jsstring * Node) :=
  if existsSync fs dir then
    match resolve fs dir with
    | Some node => Some (dir, node)
    | None => None
    end
  else
    let parentDir := Path.join [js ".."; dir] in
    if existsSync fs parentDir then
      match resolve fs parentDir with
      | Some node => Some (parentDir, node)
      | None => None
      end
    else None.

(** [loadPythonModules(pyodide, dir, targetDirName)] *)
Definition loadPythonModules (fs : HostFs) (pyodide : Pyodide)
           (dir : jsstring) (targetDirName : option jsstring)
  : Pyodide * option nat :=
  match locateDirectory fs dir with
  | None => (pyodide, None)
  | Some (moduleDir, node) =>
      let dirBaseName := orElse targetDirName (Path.basename moduleDir) in
      match createPyodideDirectory pyodide (js "./" ++ dirBaseName) with
      | (pyodide1, None) => (pyodide1, None)
      | (pyodide1, Some _) =>
          processDirectory pyodide1 node (js "./" ++ dirBaseName)
      end
  end.

Section FolderEntries.
Variable recurse : Pyodide -> Node -> jsstring -> Pyodide * option unit.

(** The loop of [loadFolder]; nothing catches an exception here. *)
Fixpoint loadEntries (destPath : jsstring) (pyodide : Pyodide)
         (files : list (jsstring * Node)) : Pyodide * option unit :=
  match files with
  | [] => (pyodide, Some tt)
  | (file, entry) :: rest =>
      let destFilePath := targetOf destPath file in
      match entry with
      | Broken => (pyodide, None)
      | Dir _ =>
          match recurse pyodide entry destFilePath with
          | (pyodide', Some _) => loadEntries destPath pyodide' rest
          | (pyodide', None) => (pyodide', None)
          end
      | File None => (pyodide, None)
      | File (Some content) =>
          let escapedContent := Json.stringify content in
          match runPython
                  (FOLDER_HEAD ++ destFilePath ++ [QUOTE] ++ FOLDER_OPEN
                   ++ destFilePath ++ [QUOTE] ++ FOLDER_WRITE
                   ++ escapedContent ++ FOLDER_TAIL)
                  pyodide with
          | Some pyodide' => loadEntries destPath pyodide' rest
          | None => (pyodide, None)
          end
      end
  end.
End FolderEntries.

(** [loadFolder(pyodide, folderPath, destPath)]; [folder] is what
    [folderPath] resolves to, [None] when it does not exist. *)
Fixpoint loadFolderNode (pyodide : Pyodide) (folder : Node)
         (destPath : jsstring) {struct folder} : Pyodide * option unit :=
  match createPyodideDirectory pyodide destPath with
  | (pyodide1, None) => (pyodide1, None)
  | (pyodide1, Some _) =>
      match folder with
      | Dir (Some files) => loadEntries loadFolderNode destPath pyodide1 files
      | _ => (pyodide1, None)
      end
  end.

Definition loadFolder (fs : HostFs) (pyodide : Pyodide)
           (folderPath destPath : jsstring) : Pyodide * option unit :=
  if existsSync fs folderPath then
    match resolve fs folderPath with
    | Some folder => loadFolderNode pyodide folder destPath
    | None => (pyodide, None)
    end
  else (pyodide, None).

(** *** What the claims speak about *)

Definition hidden (name : jsstring) : bool := startsWith name [DOT].

(** The host tree without its hidden entries. *)
Fixpoint prune (n : Node) : Node :=
  match n with
  | Dir (Some files) =>
      Dir (Some
        (flat_map (fun e => if hidden (fst e) then []
                            else [(fst e, prune (snd e))]) files))
  | _ => n
  end.

(** Every regular file below a node, in listing order, with the names
    that lead to it. *)
Fixpoint filesBelow (n : Node) : list (list jsstring * option jsstring) :=
  match n with
  | Dir (Some files) =>
      flat_map (fun e =>
                  match snd e with
                  | File content => [([fst e], content)]
                  | _ => map (fun f => (fst e :: fst f, snd f))
                               (filesBelow (snd e))
                  end) files
  | _ => []
  end.

(** The filter of the claim: the file's name ends in [.py] and no name on
    the way to it begins with ['.']. *)
Definition staged (path : list jsstring) : bool :=
  endsWith (last path []) DOT_PY && forallb (fun c => negb (hidden c)) path.

(** The writes in a run of the runtime. *)
Definition writesOf (ops : Pyodide) : list (jsstring * list Z) :=
  flat_map (fun op => match op with
                      | WriteFile p data => [(p, data)]
                      | Makedirs _ => []
                      end) ops.

(** A name the scripts can carry: not empty, one path segment, and safe
    between single quotes. *)
Definition plainName (name : jsstring) : bool :=
  match name with
  | [] => false
  | _ => forallb (fun c => negb (c =? SLASH)) name && literalSafe QUOTE name
  end.

(** A plain name other than [.] and [..]. *)
Definition properName (name : jsstring) : bool :=
  plainName name && negb (Path.isDot name) && negb (Path.isDotDot name).

Definition isSome {A} (o : option A) : bool :=
  match o with Some _ => true | None => false end.

(** Nothing that the walk looks at fails: outside hidden entries there is
    no broken entry, no directory without a listing and no [.py] file
    without content. *)
Fixpoint readable (n : Node) : bool :=
  match n with
  | Dir (Some files) =>
      forallb (fun e =>
                 hidden (fst e)
                 || match snd e with
                    | File content =>
                        negb (endsWith (fst e) DOT_PY) || isSome content
                    | Dir None => false
                    | Dir (Some _) => readable (snd e)
                    | Broken => false
                    end) files
  | Dir None => false
  | File _ => true
  | Broken => false
  end.

(** Outside hidden entries, names are plain and file contents are text. *)
Fixpoint wellNamed (n : Node) : bool :=
  match n with
  | Dir (Some files) =>
      forallb (fun e =>
                 hidden (fst e) || (plainName (fst e) && wellNamed (snd e)))
              files
  | File (Some content) => Utf8.isText content
  | _ => true
  end.

(** The files of the claim, with the names that lead to them. *)
Definition stagedBelow (n : Node) : list (list jsstring * option jsstring) :=
  filter (fun f => staged (fst f)) (filesBelow n).

(** The writes that mirror the files [found] below the virtual directory
    named by [segments]: the path is the segments and the names joined by
    ['/'], the data the UTF-8 bytes of the content. *)
Definition writesFor (segments : list jsstring)
           (found : list (list jsstring * option jsstring))
  : list (jsstring * list Z) :=
  flat_map (fun f =>
              match snd f with
              | Some content =>
                  [(Path.joinWith [SLASH] (segments ++ fst f),
                    Utf8.encode content)]
              | None => []
              end) found.

(** The writes the claim expects. *)
Definition expectedWrites (segments : list jsstring) (n : Node)
  : list (jsstring * list Z) :=
  writesFor segments (stagedBelow n).


(** *** Auxiliary notions of the proofs *)

(** A name without a separator. *)
Definition slashFree (s : jsstring) : Prop :=
  forallb (fun c => negb (c =? SLASH)) s = true.

(** A segment that [path.normalize] keeps. *)
Definition kept (s : jsstring) : Prop :=
  s <> [] /\ slashFree s /\ Path.isDot s = false /\ Path.isDotDot s = false.

Definition DOT_SLASH : jsstring := Eval cbv in js "./".

(** [path] is the virtual directory made of the names [segments]: a file
    name joined to it gives the segments and the name joined by ['/']. *)
Definition vdir (path : jsstring) (segments : list jsstring) : Prop :=
  segments <> []
  /\ Forall (fun s => properName s = true) segments
  /\ forall file, properName file = true ->
       targetOf path file = Path.joinWith [SLASH] (segments ++ [file]).

(** The files of the claim that one entry of a listing brings. *)
Definition entryStaged (name : jsstring) (entry : Node)
  : list (list jsstring * option jsstring) :=
  match entry with
  | File content =>
      if endsWith name DOT_PY && negb (hidden name)
      then [([name], content)] else []
  | _ =>
      if hidden name then []
      else map (fun f => (name :: fst f, snd f)) (stagedBelow entry)
  end.

(** What the walk of [D] into the virtual directory [path] does: the
    runtime is extended, the count is the number of files of the claim
    and the writes are the expected ones. *)
Definition walkSpec (D : Node) : Prop :=
  forall pyodide path segments,
    literalSafe QUOTE path = true -> path <> [] -> vdir path segments ->
    readable D = true -> wellNamed D = true ->
    exists ops,
      processDirectory pyodide D path
      = (pyodide ++ ops, Some (List.length (stagedBelow D)))
      /\ writesOf ops = expectedWrites segments D
      /\ List.length (expectedWrites segments D) = List.length (stagedBelow D).


End PyodideFs.

(* ================================================================= *)
(** ** Sample hosts *)

Module Samples.

(** A host given by the paths that resolve. *)
Definition hostOf (table : list (jsstring * Node)) : HostFs :=
  {| resolve := fun p =>
       match find (fun e => Js.eqb (fst e) p) table with
       | Some e => Some (snd e)
       | None => None
       end |}.

Definition file (content : string) : Node := File (Some (js content)).

Definition named (name : string) (n : Node) : jsstring * Node := (js name, n).

Definition dir (entries : list (jsstring * Node)) : Node := Dir (Some entries).

Definition proc0 : Process :=
  {| dirname__ := js "/app/src"; cwd := js "/app";
     env_CHUK_VIRTUAL_SHELL_PATH := None |}.

Definition withModulePath (p : string) : Options :=
  {| pythonModulePath := Some (js p); customScriptPath := None;
     defaultSandbox := None |}.

Definition withSandbox (s : option jsstring) : Options :=
  {| pythonModulePath := None; customScriptPath := None;
     defaultSandbox := s |}.

Definition withScript (p : string) : Options :=
  {| pythonModulePath := None; customScriptPath := Some (js p);
     defaultSandbox := None |}.

Definition noOptions : Options := withSandbox None.

(** [proj-x/proj_x] is a package nested in its wrapper directory. *)
Definition nestedHost : HostFs :=
  hostOf [ (js "proj-x", dir [named "proj_x" (dir [named "a.py" (file "A")])]);
           (js "proj-x/proj_x", dir [named "a.py" (file "A")]) ].

(** [my-pkg] holds its modules directly. *)
Definition flatHost : HostFs :=
  hostOf [ (js "my-pkg", dir [named "shell_interpreter.py" (file "S")]) ].

Definition emptyHost : HostFs := hostOf [].

(** Only a custom script exists. *)
Definition customOnlyHost : HostFs :=
  hostOf [ (js "/opt/my_main.py", file "M") ].

(** Only the basic built-in script exists. *)
Definition basicOnlyHost : HostFs :=
  hostOf [ (js "/app/python_scripts/pyodide_basic_main.py", file "B") ].

(** The package of the end-to-end scenario: [a.py], a subdirectory and a
    hidden [.cache/x.py]. *)
Definition projTree : Node :=
  dir [ named "a.py" (file "print('a')");
        named ".cache" (dir [named "x.py" (file "x = 1")]);
        named "sub" (dir [named "b.py" (file "b = 2");
                          named "notes.txt" (file "n")]) ].

Definition projHost : HostFs := hostOf [ (js "proj", projTree) ].

(** [bad] is a dangling link between two modules. *)
Definition danglingTree : Node :=
  dir [ named "a.py" (file "A"); named "bad" Broken;
        named "b.py" (file "B") ].

(** A text with both quotes, a backslash, a line end, a placeholder and
    code points of two, three and four bytes. *)
Definition trickyText : jsstring :=
  js "s = '" ++ [DQUOTE; BACKSLASH; NEWLINE; 0xE9; 0x20AC; 0x1F600]
     ++ js "${x}' # end".

End Samples.

(* ================================================================= *)
(** ** src/scriptManager.js: a script in two pieces *)

Module ScriptPieces.

Import ScriptManager.

(** The last character of [s] is a dollar. *)
Definition endsWithDollar (s : jsstring) : bool := endsWith s [DOLLAR].

(** The pieces [a] and [b] do not make a [${] between them. *)
Definition seamless (a b : jsstring) : bool :=
  negb (endsWithDollar a && startsWith b [LBRACE]).

End ScriptPieces.

(* ================================================================= *)
(** ** src/pyodideFs.js: what [loadFolder] is to write *)

Module FolderModel.

Import Python PyodideFs.

(** Every entry below the node can be read, hidden ones included. *)
Fixpoint intact (n : Node) : bool :=
  match n with
  | File content => isSome content
  | Dir (Some files) => forallb (fun e => intact (snd e)) files
  | Dir None => false
  | Broken => false
  end.

(** Names are proper and file contents are text, hidden entries
    included. *)
Fixpoint folderNamed (n : Node) : bool :=
  match n with
  | Dir (Some files) =>
      forallb (fun e => properName (fst e) && folderNamed (snd e)) files
  | File (Some content) => Utf8.isText content
  | _ => true
  end.

(** The start of an absolute path, nothing for a relative one. *)
Definition rootOf (absolute : bool) : jsstring :=
  if absolute then [SLASH] else [].

(** [path] is the directory of the runtime made of the names [segments],
    below the root when [absolute]. *)
Definition mirrors (absolute : bool) (path : jsstring)
           (segments : list jsstring) : Prop :=
  segments <> []
  /\ Forall (fun s => properName s = true) segments
  /\ forall file, properName file = true ->
       targetOf path file
       = rootOf absolute ++ Path.joinWith [SLASH] (segments ++ [file]).

(** One write for every file below the folder, in listing order. *)
Definition folderWrites (absolute : bool) (segments : list jsstring)
           (n : Node) : list (jsstring * list Z) :=
  map (fun w => (rootOf absolute ++ fst w, snd w))
      (writesFor segments (filesBelow n)).

(** What [loadFolder] does with a folder [D] that can be read throughout:
    it succeeds and its writes are the files below [D]. *)
Definition folderSpec (D : Node) : Prop :=
  forall pyodide absolute path segments,
    literalSafe QUOTE path = true -> path <> [] ->
    mirrors absolute path segments ->
    intact D = true -> folderNamed D = true ->
    (exists files, D = Dir (Some files)) ->
    exists ops,
      loadFolderNode pyodide D path = (pyodide ++ ops, Some tt)
      /\ writesOf ops = folderWrites absolute segments D.


(** The destination of the configuration folder,
    [/home/pyodide/config], by its names. *)
Definition CONFIG_SEGMENTS : list jsstring :=
  Eval cbv in [js "home"; js "pyodide"; js "config"].

(** The entries of a directory. *)
Definition listingOf (n : Node) : list (jsstring * Node) :=
  match n with Dir (Some files) => files | _ => [] end.

(** A configuration folder with an entry that cannot be read. *)
Definition danglingHost : HostFs :=
  Samples.hostOf [ (js "config", Samples.danglingTree) ].

End FolderModel.

(* ================================================================= *)
(** ** src/ioHandlers.js: the line editor behind [nodepy.input] *)

Module IoHandlers.

(** The strings of this module are sequences of UTF-16 code units, the
    units of JS's [length], [slice] and string comparison. *)

Definition CR : Z := 13.
Definition LF : Z := 10.
Definition ETX : Z := 3.
Definition DEL : Z := 127.
Definition BS : Z := 8.
Definition SPACE : Z := 32.
Definition TILDE : Z := 126.

(** [a < b] on strings: the first differing unit decides, a proper prefix
    is smaller. *)
Fixpoint ltb (a b : jsstring) : bool :=
  match a, b with
  | _, [] => false
  | [], _ :: _ => true
  | x :: a', y :: b' =>
      if x <? y then true else if y <? x then false else ltb a' b'
  end.

(** [a <= b] and [a >= b] on strings. *)
Definition leb (a b : jsstring) : bool := negb (ltb b a).
Definition geb (a b : jsstring) : bool := negb (ltb a b).

(** What one call of [input] holds: the variable [input], the texts
    written to [process.stdout] in order, the state of [process.stdin]
    (raw mode, paused, [onData] registered) and the value the promise was
    resolved with. *)
Record Prompt := {
  input : jsstring;
  written : list jsstring;
  rawMode : bool;
  paused : bool;
  listening : bool;
  resolved : option jsstring
}.

(** The promise executor, up to [process.stdin.on("data", onData)].  The
    [_prompt] argument is not used. *)
Definition start : Prompt :=
  {| input := []; written := []; rawMode := true; paused := false;
     listening := true; resolved := None |}.

(** The end of both resolving cases: [text] is written, the terminal is
    given back and the promise resolved with [value], the new [input]. *)
Definition finish (t : Prompt) (text value : jsstring) : Prompt :=
  {| input := value; written := written t ++ [text]; rawMode := false;
     paused := true; listening := false; resolved := Some value |}.

Definition ERASE : jsstring := [BS; SPACE; BS].

Definition erased (t : Prompt) : Prompt :=
  {| input := removelast (input t); written := written t ++ [ERASE];
     rawMode := rawMode t; paused := paused t; listening := listening t;
     resolved := resolved t |}.

Definition typed (t : Prompt) (char : jsstring) : Prompt :=
  {| input := input t ++ char; written := written t ++ [char];
     rawMode := rawMode t; paused := paused t; listening := listening t;
     resolved := resolved t |}.

(** [onData(char)] *)
Definition onData (t : Prompt) (char : jsstring) : Prompt :=
  if Js.eqb char [CR] || Js.eqb char [LF] then finish t [LF] (input t)
  else if Js.eqb char [ETX] then finish t (js "^C" ++ [LF]) []
  else if Js.eqb char [DEL] || Js.eqb char [BS] then
    match input t with
    | [] => t
    | _ :: _ => erased t
    end
  else if geb char [SPACE] && leb char [TILDE] then typed t char
  else t.

(** The chunks that [process.stdin] emits, delivered to [onData] as long
    as it is registered. *)
Fixpoint feed (t : Prompt) (chunks : list jsstring) : Prompt :=
  match chunks with
  | [] => t
  | char :: rest => if listening t then feed (onData t char) rest else t
  end.

(** A printable ASCII unit, from the space to the tilde. *)
Definition printable (c : Z) : bool := (SPACE <=? c) && (c <=? TILDE).

(** One chunk for each key. *)
Definition keys (line : jsstring) : list jsstring := map (fun c => [c]) line.

(** The terminal is raw exactly while the handler is registered and the
    promise pending. *)
Definition consistent (t : Prompt) : Prop :=
  rawMode t = listening t /\ paused t = negb (listening t)
  /\ (resolved t = None <-> listening t = true).

(** The line and the resolved value hold printable units only. *)
Definition clean (t : Prompt) : Prop :=
  Forall (fun c => printable c = true) (input t)
  /\ forall value, resolved t = Some value ->
                   Forall (fun c => printable c = true) value.

End IoHandlers.

(* ================================================================= *)
(** ** index.js: the command line *)

(** The [options] object: property names and their values. *)
Module JsObject.

Inductive JsValue :=
| Undefined
| Str (s : jsstring)
| Bool (b : bool)
| Builtin (name : string).

(** The own properties of an object made by an object literal, in the
    order of their creation.  [Builtin name] is the function or object
    that [Object.prototype] holds at [name]. *)
Definition Obj := list (string * JsValue).

(** The properties of [Object.prototype], which an object literal
    inherits. *)
Definition OBJECT_PROTOTYPE : list string :=
  [ "constructor"; "__defineGetter__"; "__defineSetter__"; "hasOwnProperty";
    "__lookupGetter__"; "__lookupSetter__"; "isPrototypeOf";
    "propertyIsEnumerable"; "toString"; "valueOf"; "__proto__";
    "toLocaleString" ]%string.

Definition PROTO : string := "__proto__"%string.

(** What a property reads as when the object has none of its own. *)
Definition fromPrototype (key : string) : JsValue :=
  if existsb (String.eqb key) OBJECT_PROTOTYPE then Builtin key
  else Undefined.

(** [o.key]: the own property, else the inherited one, else
    [undefined]. *)
Fixpoint get (o : Obj) (key : string) : JsValue :=
  match o with
  | [] => fromPrototype key
  | (k, v) :: rest => if String.eqb k key then v else get rest key
  end.

(** An own property is written in its place, a new one is added last. *)
Fixpoint setOwn (o : Obj) (key : string) (v : JsValue) : Obj :=
  match o with
  | [] => [(key, v)]
  | (k, old) :: rest =>
      if String.eqb k key then (k, v) :: rest
      else (k, old) :: setOwn rest key v
  end.

(** [o.key = v] for a string, a boolean or [undefined]; assigned to
    [__proto__], such a value is dropped by the setter of
    [Object.prototype]. *)
Definition set (o : Obj) (key : string) (v : JsValue) : Obj :=
  if String.eqb key PROTO then o else setOwn o key v.

(** The value of an environment variable. *)
Definition ofEnv (o : option jsstring) : JsValue :=
  match o with Some s => Str s | None => Undefined end.

(** A property read where the code expects a string or nothing. *)
Definition asString (v : JsValue) : option jsstring :=
  match v with Str s => Some s | _ => None end.

(** [ToBoolean] *)
Definition truthyValue (v : JsValue) : bool :=
  match v with
  | Undefined => false
  | Str s => match s with [] => false | _ => true end
  | Bool b => b
  | Builtin _ => true
  end.

Definition PYTHON_MODULE_PATH : string := "pythonModulePath"%string.
Definition CONFIG_PATH : string := "configPath"%string.
Definition SANDBOX_NAME : string := "sandboxName"%string.
Definition USE_ENHANCED_SCRIPT : string := "useEnhancedScript"%string.
Definition CUSTOM_SCRIPT_PATH : string := "customScriptPath"%string.
Definition DEFAULT_SANDBOX : string := "defaultSandbox"%string.

(** What [locateVirtualShellDirectory] and [ScriptManager] read of the
    object. *)
Definition shellOptions (o : Obj) : Options :=
  {| pythonModulePath := asString (get o PYTHON_MODULE_PATH);
     customScriptPath := asString (get o CUSTOM_SCRIPT_PATH);
     defaultSandbox := asString (get o DEFAULT_SANDBOX) |}.

End JsObject.

Module Cli.

Import JsObject.

(** The environment variables that [parseArgs] reads. *)
Record Env := {
  CHUK_VIRTUAL_SHELL_PATH : option jsstring;
  CHUK_VIRTUAL_SHELL_CONFIG : option jsstring;
  PYODIDE_SANDBOX : option jsstring;
  PYODIDE_SCRIPT : option jsstring
}.

(** How [parseArgs] leaves: it returns [options], or [process.exit]
    ends the program. *)
Inductive Outcome :=
| Returned (options : Obj)
| Exited (code : Z).

(** The object literal at the head of [parseArgs]. *)
Definition defaults (env : Env) : Obj :=
  [ (PYTHON_MODULE_PATH, ofEnv (CHUK_VIRTUAL_SHELL_PATH env));
    (CONFIG_PATH, ofEnv (CHUK_VIRTUAL_SHELL_CONFIG env));
    (SANDBOX_NAME,
     Str (orElse (PYODIDE_SANDBOX env) ScriptManager.AI_SANDBOX));
    (USE_ENHANCED_SCRIPT, Bool true);
    (CUSTOM_SCRIPT_PATH, ofEnv (PYODIDE_SCRIPT env)) ].

(** What one turn of the loop does with [arg]. *)
Inductive Action :=
| TakeValue (key : string)
| Assign (key : string) (v : JsValue)
| ShowHelp
| Ignore.

(** The chain of [if]s of the loop body; [more] is [i + 1 < args.length]. *)
Definition classify (arg : jsstring) (more : bool) : Action :=
  if Js.eqb arg (js "--python-path") && more then TakeValue PYTHON_MODULE_PATH
  else if Js.eqb arg (js "--config-path") && more then TakeValue CONFIG_PATH
  else if Js.eqb arg (js "--sandbox") && more then TakeValue SANDBOX_NAME
  else if Js.eqb arg (js "--script") && more then TakeValue CUSTOM_SCRIPT_PATH
  else if Js.eqb arg (js "--basic-script")
       then Assign USE_ENHANCED_SCRIPT (Bool false)
  else if Js.eqb arg (js "--help") || Js.eqb arg (js "-h") then ShowHelp
  else if negb (startsWith arg (js "--")) && negb (startsWith arg (js "-"))
       then Assign PYTHON_MODULE_PATH (Str arg)
  else Ignore.

(** The [for] loop over [args], from the argument at [i] on. *)
Fixpoint parseLoop (options : Obj) (args : list jsstring) : Outcome :=
  match args with
  | [] => Returned options
  | arg :: rest =>
      match classify arg (match rest with [] => false | _ => true end) with
      | TakeValue key =>
          match rest with
          | value :: rest' => parseLoop (set options key (Str value)) rest'
          | [] => Returned options
          end
      | Assign key v => parseLoop (set options key v) rest
      | ShowHelp => Exited 0
      | Ignore => parseLoop options rest
      end
  end.

(** [parseArgs()], [args] being [process.argv.slice(2)]. *)
Definition parseArgs (env : Env) (args : list jsstring) : Outcome :=
  parseLoop (defaults env) args.

(** The properties that [parseArgs] assigns. *)
Definition assigned (key : string) : bool :=
  existsb (String.eqb key)
    [PYTHON_MODULE_PATH; CONFIG_PATH; SANDBOX_NAME; USE_ENHANCED_SCRIPT;
     CUSTOM_SCRIPT_PATH].

(** The assignments of the loop: a string to one of the four string
    properties, [false] to [useEnhancedScript]. *)
Definition assignment (key : string) (v : JsValue) : bool :=
  match v with
  | Str _ =>
      existsb (String.eqb key)
        [PYTHON_MODULE_PATH; CONFIG_PATH; SANDBOX_NAME; CUSTOM_SCRIPT_PATH]
  | Bool false => String.eqb key USE_ENHANCED_SCRIPT
  | _ => false
  end.

Definition stringOrUndefined (v : JsValue) : bool :=
  match v with Undefined | Str _ => true | _ => false end.

(** The properties of the object literal of [parseArgs], in its order. *)
Definition OWN_KEYS : list string :=
  [PYTHON_MODULE_PATH; CONFIG_PATH; SANDBOX_NAME; USE_ENHANCED_SCRIPT;
   CUSTOM_SCRIPT_PATH].

(** The shape of the object that [parseArgs] works on. *)
Definition wellShaped (o : Obj) : Prop :=
  map fst o = OWN_KEYS
  /\ stringOrUndefined (get o PYTHON_MODULE_PATH) = true
  /\ stringOrUndefined (get o CONFIG_PATH) = true
  /\ stringOrUndefined (get o CUSTOM_SCRIPT_PATH) = true
  /\ (exists s, get o SANDBOX_NAME = Str s)
  /\ (exists b, get o USE_ENHANCED_SCRIPT = Bool b).

Definition noEnv : Env :=
  {| CHUK_VIRTUAL_SHELL_PATH := None; CHUK_VIRTUAL_SHELL_CONFIG := None;
     PYODIDE_SANDBOX := None; PYODIDE_SCRIPT := None |}.

(** What [--sandbox prod] and [--basic-script pkg] give without
    environment. *)
Definition prodRun : Obj := set (defaults noEnv) SANDBOX_NAME (Str (js "prod")).

Definition basicRun : Obj :=
  set (set (defaults noEnv) USE_ENHANCED_SCRIPT (Bool false))
      PYTHON_MODULE_PATH (Str (js "pkg")).

End Cli.

(* ================================================================= *)
(** ** src/pyodideShell.js: staging the package, the main script and the
       configuration folder *)

Module ShellRun.

Import JsObject Python PyodideFs PyodideShell ScriptManager.

(** [loadVirtualShell], up to the call of [loadPythonModules]: the
    runtime and the number of files loaded, [None] for an exception. *)
Definition stageVirtualShell (fs : HostFs) (proc : Process)
           (options : Options) (pyodide : Pyodide) : Pyodide * option nat :=
  match locateVirtualShellDirectory fs proc options with
  | Throw _ => (pyodide, None)
  | Ok moduleDir =>
      let packageName := Path.basename moduleDir in
      loadPythonModules fs pyodide moduleDir (Some packageName)
  end.

(** [readScript(scriptPath)]; [None] when it throws. *)
Definition readScript (fs : HostFs) (scriptPath : jsstring)
  : option jsstring :=
  match resolve fs scriptPath with
  | Some (File (Some content)) => Some content
  | _ => None
  end.

Definition DEST_PATH : jsstring := Eval cbv in js "pyodide_main.py".

(** The fixed text of the script of [loadPythonScript]. *)
Definition SCRIPT_HEAD : jsstring :=
  Eval cbv in nl ++ js "      with open('".
Definition SCRIPT_WRITE : jsstring :=
  Eval cbv in js ", 'w') as f:" ++ nl ++ js "          f.write(".
Definition SCRIPT_TAIL : jsstring :=
  Eval cbv in js ")" ++ nl ++ js "    ".

(** [with open('<target>', 'w') as f: f.write("<text>")] *)
Definition execScriptWrite (code : jsstring) (st : Pyodide)
  : option Pyodide :=
  ' s1 <- expect SCRIPT_HEAD code ;;
  ' (target, s2) <- stringLiteral QUOTE s1 ;;
  ' s3 <- expect SCRIPT_WRITE s2 ;;
  match s3 with
  | c :: s4 =>
      if c =? DQUOTE then
        ' (text, s5) <- stringLiteral DQUOTE s4 ;;
        ' s6 <- expect SCRIPT_TAIL s5 ;;
        match s6 with
        | [] => writeText target text st
        | _ => None
        end
      else None
  | [] => None
  end.

(** [loadPythonScript(pyodide, options)]: the runtime and the returned
    path, [None] for an exception. *)
Definition loadPythonScript (fs : HostFs) (proc : Process) (options : Obj)
           (pyodide : Pyodide) : Pyodide * option jsstring :=
  let scriptManager := shellOptions options in
  let scriptType :=
    if truthyValue (get options USE_ENHANCED_SCRIPT)
    then js "enhanced" else js "basic" in
  match getScriptPath fs proc scriptManager scriptType with
  | Throw _ => (pyodide, None)
  | Ok scriptPath =>
      match readScript fs scriptPath with
      | None => (pyodide, None)
      | Some scriptContent =>
          let processedContent :=
            processScriptContent scriptManager scriptContent in
          let destPath := DEST_PATH in
          match execScriptWrite
                  (SCRIPT_HEAD ++ destPath ++ [QUOTE] ++ SCRIPT_WRITE
                   ++ Json.stringify processedContent ++ SCRIPT_TAIL)
                  pyodide with
          | Some pyodide' => (pyodide', Some destPath)
          | None => (pyodide, None)
          end
      end
  end.

(** The array literal of [loadConfiguration] followed by
    [.filter(Boolean)]. *)
Definition possibleConfigPaths (proc : Process)
           (envConfig : option jsstring) : list jsstring :=
  flat_map (fun o => if truthy o then [orElse o []] else [])
    [ Some (Path.join [js "./chuk_virtual_shell"; js "config"]);
      Some (Path.join [dirname__ proc; js ".."; js "config"]);
      Some (Path.join [cwd proc; js "config"]);
      envConfig ].

(** [loadConfiguration], up to the call of [loadFolder]: the folder that
    is loaded, and whether [mkdirSync] was called to create it.
    [envConfig] is [process.env.CHUK_VIRTUAL_SHELL_CONFIG]. *)
Definition configFolder (fs : HostFs) (proc : Process)
           (envConfig : option jsstring) (options : Obj) : jsstring * bool :=
  let configPath := asString (get options CONFIG_PATH) in
  if truthy configPath && existsSync fs (orElse configPath [])
  then (orElse configPath [], false)
  else
    match find (existsSync fs) (possibleConfigPaths proc envConfig) with
    | Some found => (found, false)
    | None =>
        let configFolderPath :=
          Path.join [dirname__ proc; js ".."; js "config"] in
        if negb (existsSync fs configFolderPath)
        then (configFolderPath, true)
        else (configFolderPath, false)
    end.

(** The host of a run: the enhanced script in the scripts directory, and
    a custom script path that is a directory. *)
Definition scriptText : jsstring :=
  Eval cbv in
    Samples.trickyText ++ [CARRIAGE_RETURN; NEWLINE]
      ++ js "box = '${defaultSandbox}'".

Definition scriptHost : HostFs :=
  Samples.hostOf
    [ (js "/app/python_scripts/pyodide_enhanced_main.py",
       File (Some scriptText));
      (js "/opt/scripts", Dir (Some [])) ].

Definition enhancedRun : Obj :=
  [ (USE_ENHANCED_SCRIPT, Bool true) ].

Definition customRun : Obj :=
  [ (USE_ENHANCED_SCRIPT, Bool true);
    (CUSTOM_SCRIPT_PATH, Str (js "/opt/scripts")) ].

End ShellRun.

(* ================================================================= *)
(** ** What a transfer leaves to be read *)

Module RoundTrip.

Import Python PyodideFs FolderModel.




(** A package and a folder whose files hold quotes, a backslash, line
    ends with and without carriage return, a placeholder and code points
    of every length. *)
Definition crText : jsstring :=
  Eval cbv in js "a = 1" ++ [CARRIAGE_RETURN; NEWLINE] ++ js "b = 2".

Definition trickyTree : Node :=
  Samples.dir
    [ Samples.named "mod.py" (File (Some Samples.trickyText));
      Samples.named "sub"
        (Samples.dir [Samples.named "crlf.py" (File (Some crText))]) ].

Definition trickyHost : HostFs := Samples.hostOf [ (js "pkg", trickyTree) ].



End RoundTrip.

(* ================================================================= *)
(** ** More sample hosts *)

Module MoreSamples.

Import Samples.

(** [./chuk_virtual_shell] exists but holds no Python file; the sibling
    [../chuk_virtual_shell] is a package. *)
Definition siblingHost : HostFs :=
  hostOf [ (js "./chuk_virtual_shell", dir [named "README.md" (file "r")]);
           (js "../chuk_virtual_shell", dir [named "shell.py" (file "s")]) ].

(** The enhanced script exists in the working directory and beside the
    sources; the basic one in the scripts directory. *)
Definition alternateHost : HostFs :=
  hostOf [ (js "/app/python_scripts/pyodide_basic_main.py", file "B");
           (js "/app/pyodide_enhanced_main.py", file "E1");
           (js "/app/src/pyodide_enhanced_main.py", file "E2") ].

(** A package whose first module cannot be read. *)
Definition unreadableTree : Node :=
  dir [ named "a.py" (File None); named "b.py" (file "B") ].

Definition unreadableHost : HostFs := hostOf [ (js "pkg", unreadableTree) ].

End MoreSamples.

(* ================================================================= *)
(** * Properties *)

(** ** Strings *)

Module JsFacts.

Lemma eqb_eq a b : Js.eqb a b = true <-> a = b.
Proof.
  revert b; induction a as [|x a IH]; intros [|y b]; simpl; split;
    try congruence; try reflexivity.
  - intros H. apply andb_true_iff in H as [H1 H2].
    apply Z.eqb_eq in H1. apply IH in H2. congruence.
  - intros H. injection H as -> ->. rewrite Z.eqb_refl. simpl. now apply IH.
Qed.

Lemma eqb_refl a : Js.eqb a a = true.
Proof. now apply eqb_eq. Qed.

Lemma startsWith_app p s : startsWith (p ++ s) p = true.
Proof. induction p; simpl; [reflexivity|]. now rewrite Z.eqb_refl. Qed.

Lemma startsWith_split s p :
  startsWith s p = true -> exists t, s = p ++ t.
Proof.
  revert s; induction p as [|y p IH]; intros s H.
  - now exists s.
  - destruct s as [|x s]; simpl in H; [discriminate|].
    apply andb_true_iff in H as [H1 H2]. apply Z.eqb_eq in H1. subst.
    destruct (IH _ H2) as [t ->]. now exists t.
Qed.

End JsFacts.
Import JsFacts.

(* ================================================================= *)
(** ** Package resolution *)

Module ResolverFacts.

Import PyodideShell Samples.

Lemma existsSync_truthy fs p : existsSync fs p = true -> truthy (Some p) = true.
Proof. destruct p; [discriminate | reflexivity]. Qed.

Lemma orElse_truthy p d : truthy (Some p) = true -> orElse (Some p) d = p.
Proof. destruct p; [discriminate | reflexivity]. Qed.

(** C2.  For every candidate path [P] that exists on the host, the resolver
    called with [options.pythonModulePath = P] returns [P] joined with
    [basename(P)] (hyphens replaced by underscores) when that inner path
    exists and is a directory, and [P] itself otherwise. *)
Theorem locate_existing_candidate fs proc options P :
  pythonModulePath options = Some P ->
  existsSync fs P = true ->
  let inner :=
    Path.join [P; replaceChar HYPHEN UNDERSCORE (Path.basename P)] in
  locateVirtualShellDirectory fs proc options
  = Ok (if existsSync fs inner && statIsDirectory fs inner then inner else P).
Proof.
  intros HP Hex inner. unfold locateVirtualShellDirectory.
  rewrite HP. pose proof (existsSync_truthy _ _ Hex) as Ht.
  rewrite Ht, (orElse_truthy _ _ Ht), Hex.
  fold (foldedBaseName P). unfold foldedBaseName. fold inner.
  now destruct (existsSync fs inner && statIsDirectory fs inner).
Qed.

Lemma locate_existing_candidate_witness :
  locateVirtualShellDirectory nestedHost proc0 (withModulePath "proj-x")
  = Ok (js "proj-x/proj_x")
  /\ locateVirtualShellDirectory flatHost proc0 (withModulePath "my-pkg")
     = Ok (js "my-pkg").
Proof.
  split.
  - exact (locate_existing_candidate nestedHost proc0
             (withModulePath "proj-x") (js "proj-x") eq_refl eq_refl).
  - exact (locate_existing_candidate flatHost proc0
             (withModulePath "my-pkg") (js "my-pkg") eq_refl eq_refl).
Defined.

(** C3, as the code has it.  When no supplied candidate exists and no
    fallback location both exists and passes [isValidPythonModule], the
    resolver throws an error whose message is the fixed text
    [NOT_FOUND_MESSAGE], whatever the attempted locations were. *)
Theorem locate_fails_with_fixed_message fs proc options :
  noUsableCandidate fs options ->
  (forall location, In location (possibleLocations proc) ->
     existsSync fs location && isValidPythonModule fs location = false) ->
  locateVirtualShellDirectory fs proc options = Throw (Error NOT_FOUND_MESSAGE).
Proof.
  intros Hcand Hfall.
  assert (Hs : searchFallbacks fs proc = Throw (Error NOT_FOUND_MESSAGE)).
  { unfold searchFallbacks.
    destruct (find _ (possibleLocations proc)) as [l|] eqn:Hf; [|reflexivity].
    apply find_some in Hf as [Hin Hok]. rewrite (Hfall _ Hin) in Hok.
    discriminate. }
  unfold locateVirtualShellDirectory.
  destruct Hcand as [Ht | Hex].
  - now rewrite Ht.
  - destruct (truthy (pythonModulePath options)); [|exact Hs].
    now rewrite Hex.
Qed.

Lemma locate_fails_with_fixed_message_witness :
  locateVirtualShellDirectory emptyHost proc0 (withModulePath "/opt/shell")
  = Throw (Error NOT_FOUND_MESSAGE).
Proof.
  apply (locate_fails_with_fixed_message emptyHost proc0
           (withModulePath "/opt/shell")).
  - right. reflexivity.
  - intros location _. destruct location; reflexivity.
Defined.

(** C3, as stated, fails: on a host where nothing exists the resolver is
    given [/opt/shell]; it throws, [/opt/shell] is among the attempted
    locations, and the message contains neither it nor any other
    attempted location. *)
Lemma locate_message_names_no_location :
  exists e,
    locateVirtualShellDirectory emptyHost proc0 (withModulePath "/opt/shell")
    = Throw e
    /\ In (js "/opt/shell")
          (attemptedLocations proc0 (withModulePath "/opt/shell"))
    /\ includes (message e) (js "/opt/shell") = false
    /\ forallb (fun location => negb (includes (message e) location))
               (attemptedLocations proc0 (withModulePath "/opt/shell"))
       = true.
Proof.
  exists (Error NOT_FOUND_MESSAGE).
  split; [reflexivity|]. split; [left; reflexivity|].
  split; vm_compute; reflexivity.
Qed.

(** C4 at a failing input.  The candidate [my-pkg] holds its modules
    directly; the resolver returns it and [loadVirtualShell] takes
    [my-pkg], hyphen included, as the package name, where the claim asks
    for [my_pkg]. *)
Theorem package_name_keeps_hyphen :
  resolvePackage flatHost proc0 (withModulePath "my-pkg")
  = Ok (js "my-pkg", js "my-pkg")
  /\ replaceChar HYPHEN UNDERSCORE (Path.basename (js "my-pkg")) = js "my_pkg"
  /\ js "my-pkg" <> js "my_pkg".
Proof.
  split; [reflexivity|]. split; [reflexivity|]. vm_compute. discriminate.
Qed.

(** In the nested case of the sample host the name is the folded one. *)
Lemma package_name_nested_sample :
  resolvePackage nestedHost proc0 (withModulePath "proj-x")
  = Ok (js "proj-x/proj_x", js "proj_x").
Proof. reflexivity. Qed.

End ResolverFacts.

(* ================================================================= *)
(** ** Script selection and placeholder substitution *)

Module ScriptFacts.

Import ScriptManager Samples.

Lemma takeWhile_stop {A} (f : A -> bool) n x r :
  forallb f n = true -> f x = false ->
  Path.takeWhile f (n ++ x :: r) = n.
Proof.
  intros Hn Hx. induction n as [|a n IH]; simpl in *.
  - now rewrite Hx.
  - apply andb_true_iff in Hn as [Ha Hn]. rewrite Ha. f_equal. now apply IH.
Qed.

Lemma dropWhile_stop {A} (f : A -> bool) n x r :
  forallb f n = true -> f x = false ->
  Path.dropWhile f (n ++ x :: r) = x :: r.
Proof.
  intros Hn Hx. induction n as [|a n IH]; simpl in *.
  - now rewrite Hx.
  - apply andb_true_iff in Hn as [Ha Hn]. rewrite Ha. now apply IH.
Qed.

Lemma takeWhile_dropWhile {A} (f : A -> bool) l :
  Path.takeWhile f l ++ Path.dropWhile f l = l.
Proof.
  induction l as [|a l IH]; simpl; [reflexivity|].
  destruct (f a); simpl; [now rewrite IH | reflexivity].
Qed.

Lemma takeWhile_all {A} (f : A -> bool) l : forallb f (Path.takeWhile f l) = true.
Proof.
  induction l as [|a l IH]; simpl; [reflexivity|].
  destruct (f a) eqn:E; simpl; [now rewrite E | reflexivity].
Qed.

Lemma dropWhile_head {A} (f : A -> bool) l x r :
  Path.dropWhile f l = x :: r -> f x = false.
Proof.
  induction l as [|a l IH]; simpl; [discriminate|].
  destruct (f a) eqn:E; [exact IH|]. intros H. injection H as -> _. exact E.
Qed.

Lemma dropWhile_nil {A} (f : A -> bool) l :
  Path.dropWhile f l = [] -> forallb f l = true.
Proof.
  induction l as [|a l IH]; simpl; [reflexivity|].
  destruct (f a); [exact IH | discriminate].
Qed.

Lemma dropWhile_all {A} (f : A -> bool) l :
  forallb f l = true -> Path.dropWhile f l = [].
Proof.
  induction l as [|a l IH]; simpl; [reflexivity|].
  destruct (f a); [exact IH | discriminate].
Qed.

(** The expression matches exactly the texts [${name}...] with a non-empty
    [name] free of ['}']. *)
Lemma matchPlaceholder_placeholder name post :
  name <> [] -> forallb notRBrace name = true ->
  matchPlaceholder (placeholder name ++ post) = Some name.
Proof.
  intros Hne Hn. unfold placeholder. simpl.
  rewrite <- app_assoc. simpl.
  rewrite takeWhile_stop, dropWhile_stop by (assumption || reflexivity).
  destruct name; [contradiction | reflexivity].
Qed.

Lemma matchPlaceholder_inv s name :
  matchPlaceholder s = Some name ->
  exists post, s = placeholder name ++ post
               /\ name <> [] /\ forallb notRBrace name = true.
Proof.
  destruct s as [|d [|b rest]]; simpl; try discriminate.
  destruct (Z.eqb d DOLLAR) eqn:Ed; simpl; [|discriminate].
  destruct (Z.eqb b LBRACE) eqn:Eb; simpl; [|discriminate].
  apply Z.eqb_eq in Ed, Eb. subst.
  pose proof (takeWhile_dropWhile notRBrace rest) as Hsplit.
  pose proof (takeWhile_all notRBrace rest) as Hall.
  destruct (Path.takeWhile notRBrace rest) as [|c n] eqn:Et; [discriminate|].
  destruct (Path.dropWhile notRBrace rest) as [|x post] eqn:Edr; [discriminate|].
  intros H. injection H as <-.
  apply dropWhile_head in Edr. unfold notRBrace in Edr.
  apply negb_false_iff, Z.eqb_eq in Edr. subst x.
  exists post. split; [|split; [discriminate | exact Hall]].
  unfold placeholder. simpl. rewrite <- Hsplit, <- app_assoc. reflexivity.
Qed.

Section Scan.
Variable options : Options.

#[local] Abbreviation P := (processScriptContent options).
#[local] Abbreviation R := (replacer options).

Lemma scan_skip n p s :
  List.length p = n ->
  replacePlaceholders R n (p ++ s) = replacePlaceholders R 0 s.
Proof.
  revert p. induction n as [|n IH]; intros [|c p] Hl; simpl in Hl;
    try discriminate; [reflexivity|].
  simpl. apply IH. now injection Hl.
Qed.

Lemma scan_unfold c rest :
  replacePlaceholders R 0 (c :: rest)
  = match matchPlaceholder (c :: rest) with
    | Some varName =>
        R (placeholder varName) varName
        ++ replacePlaceholders R (List.length varName + 2) rest
    | None => c :: replacePlaceholders R 0 rest
    end.
Proof. reflexivity. Qed.

Lemma process_match name post :
  name <> [] -> forallb notRBrace name = true ->
  P (placeholder name ++ post) = R (placeholder name) name ++ P post.
Proof.
  intros Hne Hn. unfold processScriptContent.
  pose proof (matchPlaceholder_placeholder name post Hne Hn) as Hm.
  unfold placeholder in *.
  change (([DOLLAR; LBRACE] ++ name ++ [RBRACE]) ++ post)
    with (DOLLAR :: (LBRACE :: name ++ [RBRACE]) ++ post) in *.
  rewrite scan_unfold, Hm. f_equal.
  apply scan_skip. simpl. rewrite length_app. simpl. lia.
Qed.

Lemma process_nomatch c rest :
  matchPlaceholder (c :: rest) = None -> P (c :: rest) = c :: P rest.
Proof. intros Hm. unfold processScriptContent. now rewrite scan_unfold, Hm. Qed.

Lemma forallb_rbrace a b : forallb notRBrace (a ++ RBRACE :: b) = false.
Proof. rewrite forallb_app. simpl. apply andb_false_r. Qed.

Lemma nomatch_without_rbrace s :
  forallb notRBrace s = true -> matchPlaceholder s = None.
Proof.
  intros Hs. destruct (matchPlaceholder s) as [name|] eqn:Hm; [|reflexivity].
  apply matchPlaceholder_inv in Hm as (post & -> & _ & _).
  unfold placeholder in Hs. rewrite <- !app_assoc in Hs.
  change ([DOLLAR; LBRACE] ++ name ++ [RBRACE] ++ post)
    with (([DOLLAR; LBRACE] ++ name) ++ RBRACE :: post) in Hs.
  rewrite forallb_rbrace in Hs. discriminate.
Qed.

Lemma process_without_rbrace s : forallb notRBrace s = true -> P s = s.
Proof.
  induction s as [|c s IH]; intros Hs; [reflexivity|].
  rewrite process_nomatch by now apply nomatch_without_rbrace.
  simpl in Hs. apply andb_true_iff in Hs as [_ Hs]. now rewrite IH.
Qed.

Lemma unterminated_after_rbrace a b :
  unterminated (a ++ RBRACE :: b) = unterminated b.
Proof.
  induction a as [|x a IH]; [|simpl app].
  - cbn [app unterminated]. simpl forallb.
    assert (E : startsWith (RBRACE :: b) [DOLLAR; LBRACE] = false) by reflexivity.
    now rewrite E.
  - cbn [unterminated]. rewrite IH, forallb_rbrace.
    now rewrite andb_false_r.
Qed.

Lemma key_without_dollar name :
  In DOLLAR name ->
  Js.eqb name KEY_OPTIONS_DEFAULT_SANDBOX || Js.eqb name KEY_DEFAULT_SANDBOX
  = false.
Proof.
  intros Hin. apply orb_false_iff. split.
  - destruct (Js.eqb name _) eqn:E; [|reflexivity].
    apply eqb_eq in E. subst. vm_compute in Hin. intuition discriminate.
  - destruct (Js.eqb name _) eqn:E; [|reflexivity].
    apply eqb_eq in E. subst. vm_compute in Hin. intuition discriminate.
Qed.

(** A token behind [pre]: it is handed to the replacer, unless [pre] holds
    an unterminated [${], in which case the token closes that longer,
    unknown one and the whole is kept. *)
Lemma process_token_gen n : forall pre name post,
  (List.length pre <= n)%nat ->
  name <> [] -> forallb notRBrace name = true ->
  P (pre ++ placeholder name ++ post)
  = P pre ++ (if unterminated pre then placeholder name
              else R (placeholder name) name) ++ P post.
Proof.
  induction n as [|n IH]; intros pre name post Hlen Hne Hn.
  - destruct pre; [|simpl in Hlen; lia]. simpl.
    now apply process_match.
  - destruct pre as [|c r]; [simpl; now apply process_match|].
    simpl in Hlen.
    destruct (matchPlaceholder (c :: r)) as [v|] eqn:Hm.
    + apply matchPlaceholder_inv in Hm as (r' & Hr & Hv1 & Hv2).
      rewrite Hr. rewrite <- app_assoc.
      rewrite !process_match by assumption.
      assert (Hl' : (List.length r' <= n)%nat).
      { apply (f_equal (@List.length Z)) in Hr. unfold placeholder in Hr.
        simpl in Hr. rewrite !length_app in Hr. simpl in Hr. lia. }
      rewrite (IH r' name post Hl' Hne Hn).
      assert (Hu : unterminated (placeholder v ++ r') = unterminated r').
      { unfold placeholder. rewrite <- !app_assoc.
        change ([DOLLAR; LBRACE] ++ v ++ [RBRACE] ++ r')
          with (([DOLLAR; LBRACE] ++ v) ++ RBRACE :: r').
        apply unterminated_after_rbrace. }
      rewrite Hu, <- !app_assoc. reflexivity.
    + destruct (matchPlaceholder ((c :: r) ++ placeholder name ++ post))
        as [v'|] eqn:Hm'.
      * (* the token closes an unterminated [${] at the head of [pre] *)
        assert (Hshape : exists w, c :: r = [DOLLAR; LBRACE] ++ w
                                   /\ forallb notRBrace w = true).
        { destruct r as [|b w].
          - simpl in Hm'. destruct (Z.eqb c DOLLAR); discriminate.
          - simpl in Hm, Hm'.
            destruct (Z.eqb c DOLLAR) eqn:Ec; [|discriminate].
            destruct (Z.eqb b LBRACE) eqn:Eb; [|discriminate].
            simpl in Hm, Hm'. apply Z.eqb_eq in Ec, Eb. subst.
            exists w. split; [reflexivity|].
            destruct (forallb notRBrace w) eqn:Ew; [reflexivity|].
            exfalso.
            pose proof (takeWhile_dropWhile notRBrace w) as Hsp.
            destruct (Path.dropWhile notRBrace w) as [|x t] eqn:Ed.
            { apply dropWhile_nil in Ed. congruence. }
            pose proof (dropWhile_head _ _ _ _ Ed) as Hx.
            pose proof (takeWhile_all notRBrace w) as Ht.
            rewrite <- Hsp in Hm'. rewrite <- app_assoc in Hm'.
            simpl in Hm'.
            rewrite takeWhile_stop, dropWhile_stop in Hm' by assumption.
            destruct (Path.takeWhile notRBrace w); discriminate. }
        destruct Hshape as (w & Hw & Hwn).
        assert (Hlong : (c :: r) ++ placeholder name ++ post
                        = placeholder (w ++ [DOLLAR; LBRACE] ++ name) ++ post).
        { rewrite Hw. unfold placeholder. now rewrite <- !app_assoc. }
        assert (Hv1 : w ++ [DOLLAR; LBRACE] ++ name <> []).
        { destruct w; discriminate. }
        assert (Hv2 : forallb notRBrace (w ++ [DOLLAR; LBRACE] ++ name) = true).
        { rewrite !forallb_app, Hwn, Hn. reflexivity. }
        rewrite Hlong, process_match by assumption.
        unfold replacer at 1. rewrite key_without_dollar
          by (apply in_or_app; right; left; reflexivity).
        assert (Hu : unterminated (c :: r) = true).
        { rewrite Hw. cbn [app unterminated].
          assert (E : startsWith (DOLLAR :: LBRACE :: w) [DOLLAR; LBRACE] = true)
            by reflexivity.
          rewrite E. simpl. rewrite Hwn. reflexivity. }
        rewrite Hu.
        rewrite (process_without_rbrace (c :: r))
          by (rewrite Hw; simpl; exact Hwn).
        rewrite Hw. unfold placeholder. now rewrite <- !app_assoc.
      * change ((c :: r) ++ placeholder name ++ post)
          with (c :: (r ++ placeholder name ++ post)) in *.
        rewrite !process_nomatch by assumption.
        rewrite (IH r name post) by (assumption || lia).
        assert (Hu : unterminated (c :: r) = unterminated r).
        { cbn [unterminated].
          destruct (startsWith (c :: r) [DOLLAR; LBRACE]
                    && forallb notRBrace r) eqn:E; [|reflexivity].
          exfalso. apply andb_true_iff in E as [E1 E2].
          apply startsWith_split in E1 as [w Hw]. simpl in Hw.
          injection Hw as -> ->. simpl in E2.
          assert (Hm2 : matchPlaceholder
                    (placeholder (w ++ [DOLLAR; LBRACE] ++ name) ++ post)
                  = Some (w ++ [DOLLAR; LBRACE] ++ name)).
          { apply matchPlaceholder_placeholder.
            - destruct w; discriminate.
            - rewrite !forallb_app, E2, Hn. reflexivity. }
          unfold placeholder in Hm2, Hm'. rewrite <- !app_assoc in Hm2.
          simpl in Hm2, Hm'. rewrite <- !app_assoc in Hm'. simpl in Hm'.
          congruence. }
        rewrite Hu. reflexivity.
Qed.

Lemma process_token pre name post :
  name <> [] -> forallb notRBrace name = true ->
  P (pre ++ placeholder name ++ post)
  = P pre ++ (if unterminated pre then placeholder name
              else R (placeholder name) name) ++ P post.
Proof. apply (process_token_gen (List.length pre)). lia. Qed.

End Scan.

(** C6, as the code has it.  A token [${defaultSandbox}] or
    [${options.defaultSandbox}] is replaced by [options.defaultSandbox] when
    that is a non-empty string and by ["ai_sandbox"] otherwise (unset or
    empty), provided no [${] before it is still unterminated; behind an
    unterminated [${] it is the end of a longer token and stays as it is.
    The text before and the text after the token are processed on their
    own. *)
Theorem sandbox_placeholder_replaced options pre key post :
  In key [KEY_DEFAULT_SANDBOX; KEY_OPTIONS_DEFAULT_SANDBOX] ->
  processScriptContent options (pre ++ placeholder key ++ post)
  = processScriptContent options pre
    ++ (if unterminated pre then placeholder key
        else match defaultSandbox options with
             | Some (c :: s) => c :: s
             | _ => AI_SANDBOX
             end)
    ++ processScriptContent options post.
Proof.
  intros Hkey.
  assert (Hk : key <> [] /\ forallb notRBrace key = true
               /\ replacer options (placeholder key) key
                  = orElse (defaultSandbox options) AI_SANDBOX).
  { destruct Hkey as [<- | [<- | []]]; repeat split; discriminate. }
  destruct Hk as (Hne & Hn & Hr).
  rewrite process_token, Hr by assumption. reflexivity.
Qed.

Lemma sandbox_placeholder_replaced_witness :
  processScriptContent (withSandbox (Some (js "prod")))
    (js "box = '" ++ placeholder KEY_DEFAULT_SANDBOX ++ js "'")
  = js "box = 'prod'"
  /\ processScriptContent (withSandbox None)
       (js "box = '" ++ placeholder KEY_OPTIONS_DEFAULT_SANDBOX ++ js "'")
     = js "box = 'ai_sandbox'".
Proof.
  split.
  - exact (sandbox_placeholder_replaced (withSandbox (Some (js "prod")))
             (js "box = '") KEY_DEFAULT_SANDBOX (js "'")
             (or_introl eq_refl)).
  - exact (sandbox_placeholder_replaced (withSandbox None)
             (js "box = '") KEY_OPTIONS_DEFAULT_SANDBOX (js "'")
             (or_intror (or_introl eq_refl))).
Defined.

(** C6, as stated, fails: the body [${${defaultSandbox}] contains the
    placeholder [${defaultSandbox}], the option is set to [prod], and the
    body comes out unchanged. *)
Lemma sandbox_placeholder_not_replaced :
  includes (js "${${defaultSandbox}") (placeholder KEY_DEFAULT_SANDBOX) = true
  /\ processScriptContent (withSandbox (Some (js "prod")))
       (js "${${defaultSandbox}")
     = js "${${defaultSandbox}".
Proof. split; reflexivity. Qed.

(** C7.  A token [${name}] whose name is not one of the two keys comes out
    character for character, between the processed text before it and the
    processed text after it; [processScriptContent] is a total function,
    so it does not fail. *)
Theorem unknown_placeholder_kept options pre name post :
  name <> [] -> forallb notRBrace name = true ->
  name <> KEY_DEFAULT_SANDBOX -> name <> KEY_OPTIONS_DEFAULT_SANDBOX ->
  processScriptContent options (pre ++ placeholder name ++ post)
  = processScriptContent options pre ++ placeholder name
    ++ processScriptContent options post.
Proof.
  intros Hne Hn Hk1 Hk2. rewrite process_token by assumption.
  assert (Hr : replacer options (placeholder name) name = placeholder name).
  { unfold replacer.
    destruct (Js.eqb name KEY_OPTIONS_DEFAULT_SANDBOX) eqn:E1.
    { apply eqb_eq in E1. contradiction. }
    destruct (Js.eqb name KEY_DEFAULT_SANDBOX) eqn:E2.
    { apply eqb_eq in E2. contradiction. }
    reflexivity. }
  rewrite Hr. now destruct (unterminated pre).
Qed.

Lemma unknown_placeholder_kept_witness :
  processScriptContent (withSandbox (Some (js "prod")))
    (js "a ${defaultSandbox} " ++ placeholder (js "userName") ++ js " z")
  = js "a prod ${userName} z".
Proof.
  refine (unknown_placeholder_kept (withSandbox (Some (js "prod")))
            (js "a ${defaultSandbox} ") (js "userName") (js " z") _ _ _ _);
    [discriminate | reflexivity | discriminate | discriminate].
Defined.

Section Selection.
Variable fs : HostFs.
Variable proc : Process.
Variable options : Options.

Lemma custom_skipped :
  noUsableCustom fs options ->
  truthy (customScriptPath options)
  && existsSync fs (orElse (customScriptPath options) []) = false.
Proof. intros [H | H]; rewrite H; [reflexivity | apply andb_false_r]. Qed.

Lemma find_none_false {A} (f : A -> bool) l :
  (forall x, In x l -> f x = false) -> find f l = None.
Proof.
  intros H. destruct (find f l) eqn:E; [|reflexivity].
  apply find_some in E as [Hin Hf]. rewrite (H _ Hin) in Hf. discriminate.
Qed.

End Selection.

(** C8.  A configured custom script path that exists on the host is
    returned for every requested variant; and when no custom path is
    usable and no script is found at the primary location (neither the
    requested one nor the basic one) or at any alternate location,
    [getScriptPath] throws. *)
Theorem custom_script_wins_else_not_found fs proc options scriptType :
  (forall custom,
     customScriptPath options = Some custom ->
     existsSync fs custom = true ->
     getScriptPath fs proc options scriptType = Ok custom)
  /\ (noUsableCustom fs options ->
      existsSync fs (primaryPath proc (scriptFileNameOf scriptType)) = false ->
      existsSync fs (primaryPath proc BASIC_MAIN) = false ->
      (forall location,
         In location (alternateLocations proc (scriptFileNameOf scriptType)) ->
         existsSync fs location = false) ->
      getScriptPath fs proc options scriptType
      = Throw (Error NO_SCRIPTS_MESSAGE)).
Proof.
  split.
  - intros custom Hc Hex. unfold getScriptPath. rewrite Hc.
    pose proof (ResolverFacts.existsSync_truthy _ _ Hex) as Ht.
    rewrite Ht, (ResolverFacts.orElse_truthy _ _ Ht), Hex. reflexivity.
  - intros Hcustom Hprim Hbasic Halt. unfold getScriptPath.
    rewrite (custom_skipped _ _ Hcustom).
    unfold primaryPath in *. rewrite Hprim.
    rewrite (find_none_false _ _ Halt), Hbasic. reflexivity.
Qed.

Lemma custom_script_wins_else_not_found_witness :
  getScriptPath customOnlyHost proc0 (withScript "/opt/my_main.py")
    (js "enhanced") = Ok (js "/opt/my_main.py")
  /\ getScriptPath customOnlyHost proc0 (withScript "/opt/my_main.py")
       (js "basic") = Ok (js "/opt/my_main.py")
  /\ getScriptPath emptyHost proc0 (withScript "/opt/my_main.py")
       (js "enhanced") = Throw (Error NO_SCRIPTS_MESSAGE).
Proof.
  split; [|split].
  - exact (proj1 (custom_script_wins_else_not_found customOnlyHost proc0
                    (withScript "/opt/my_main.py") (js "enhanced"))
                 (js "/opt/my_main.py") eq_refl eq_refl).
  - exact (proj1 (custom_script_wins_else_not_found customOnlyHost proc0
                    (withScript "/opt/my_main.py") (js "basic"))
                 (js "/opt/my_main.py") eq_refl eq_refl).
  - apply (proj2 (custom_script_wins_else_not_found emptyHost proc0
                    (withScript "/opt/my_main.py") (js "enhanced"))).
    + right. reflexivity.
    + reflexivity.
    + reflexivity.
    + intros location _. destruct location; reflexivity.
Defined.

(** C10.  With no usable custom script, a request for the enhanced
    variant that finds no enhanced script at the primary location or at
    any alternate location returns the basic script of the primary
    scripts directory when that file exists, and throws only when it is
    missing too. *)
Theorem enhanced_falls_back_to_basic fs proc options :
  noUsableCustom fs options ->
  existsSync fs (primaryPath proc ENHANCED_MAIN) = false ->
  (forall location,
     In location (alternateLocations proc ENHANCED_MAIN) ->
     existsSync fs location = false) ->
  getScriptPath fs proc options (js "enhanced")
  = if existsSync fs (primaryPath proc BASIC_MAIN)
    then Ok (primaryPath proc BASIC_MAIN)
    else Throw (Error NO_SCRIPTS_MESSAGE).
Proof.
  intros Hcustom Hprim Halt. unfold getScriptPath.
  rewrite (custom_skipped _ _ Hcustom).
  change (scriptFileNameOf (js "enhanced")) with ENHANCED_MAIN.
  unfold primaryPath in *. rewrite Hprim.
  rewrite (find_none_false _ _ Halt). reflexivity.
Qed.

Lemma enhanced_falls_back_to_basic_witness :
  getScriptPath basicOnlyHost proc0 noOptions (js "enhanced")
  = Ok (js "/app/python_scripts/pyodide_basic_main.py")
  /\ getScriptPath emptyHost proc0 noOptions (js "enhanced")
     = Throw (Error NO_SCRIPTS_MESSAGE).
Proof.
  split.
  - apply (enhanced_falls_back_to_basic basicOnlyHost proc0 noOptions).
    + left. reflexivity.
    + reflexivity.
    + intros location Hin. vm_compute in Hin.
      destruct Hin as [<- | [<- | [<- | []]]]; reflexivity.
  - apply (enhanced_falls_back_to_basic emptyHost proc0 noOptions).
    + left. reflexivity.
    + reflexivity.
    + intros location _. destruct location; reflexivity.
Defined.

End ScriptFacts.

(* ================================================================= *)
(** ** The transfer encodings *)

Module EncodingFacts.

Import Python Base64.

(** Boolean tests on integers, settled by linear arithmetic. *)
Ltac bool_arith :=
  unfold Utf8.isScalar in *;
  unfold Utf8.isContinuation, Utf8.isSurrogate, Base64.PAD,
    QUOTE, DQUOTE, BACKSLASH, NEWLINE in *;
  rewrite ?andb_true_iff, ?andb_false_iff, ?orb_true_iff, ?orb_false_iff,
    ?negb_true_iff, ?negb_false_iff, ?andb_true_iff, ?andb_false_iff,
    ?orb_true_iff, ?orb_false_iff,
    ?Z.leb_le, ?Z.leb_gt, ?Z.ltb_lt, ?Z.ltb_ge, ?Z.eqb_eq, ?Z.eqb_neq in *;
  Z.to_euclidean_division_equations; lia.

(** Settle the test of one conditional of the goal. *)
Ltac settle_if :=
  match goal with
  | |- context [if ?t then _ else _] =>
      first [ let E := fresh in assert (E : t = true) by bool_arith; rewrite E
            | let E := fresh in assert (E : t = false) by bool_arith; rewrite E ]
  end.

(** *** UTF-8 *)

Lemma decode_encodeChar c bs :
  Utf8.isScalar c = true ->
  Utf8.decode (Utf8.encodeChar c ++ bs) = Utf8.consTo c (Utf8.decode bs).
Proof.
  intros Hc. unfold Utf8.encodeChar. settle_if.
  destruct (Z.ltb_spec c 0x80).
  { cbn [app Utf8.decode]. settle_if. reflexivity. }
  destruct (Z.ltb_spec c 0x800).
  { cbn [app Utf8.decode]. repeat settle_if. f_equal. bool_arith. }
  destruct (Z.ltb_spec c 0x10000).
  { cbn [app Utf8.decode]. repeat settle_if. f_equal. bool_arith. }
  cbn [app Utf8.decode]. repeat settle_if. f_equal. bool_arith.
Qed.

Lemma decode_encode s :
  Utf8.isText s = true -> Utf8.decode (Utf8.encode s) = Some s.
Proof.
  induction s as [|c s IH]; intros Hs; [reflexivity|].
  simpl in Hs. apply andb_true_iff in Hs as [Hc Hs].
  cbn [Utf8.encode flat_map]. rewrite decode_encodeChar by assumption.
  fold (Utf8.encode s). now rewrite IH.
Qed.

Lemma encodeChar_bytes c :
  Utf8.isScalar c = true -> Forall isByte (Utf8.encodeChar c).
Proof.
  intros Hc. unfold Utf8.encodeChar, isByte. settle_if.
  destruct (Z.ltb_spec c 0x80); [repeat constructor; bool_arith|].
  destruct (Z.ltb_spec c 0x800); [repeat constructor; bool_arith|].
  destruct (Z.ltb_spec c 0x10000); repeat constructor; bool_arith.
Qed.

Lemma encode_bytes s :
  Utf8.isText s = true -> Forall isByte (Utf8.encode s).
Proof.
  induction s as [|c s IH]; intros Hs; [constructor|].
  simpl in Hs. apply andb_true_iff in Hs as [Hc Hs].
  cbn [Utf8.encode flat_map]. apply Forall_app. split.
  - now apply encodeChar_bytes.
  - now apply IH.
Qed.

(** *** Base64 *)

Lemma charDigit_digitChar d :
  0 <= d < 64 -> Base64.charDigit (Base64.digitChar d) = Some d.
Proof.
  intros Hd. unfold Base64.digitChar.
  destruct (Z.ltb_spec d 26).
  { unfold Base64.charDigit. settle_if. f_equal. lia. }
  destruct (Z.ltb_spec d 52).
  { unfold Base64.charDigit. repeat settle_if. f_equal. lia. }
  destruct (Z.ltb_spec d 62).
  { unfold Base64.charDigit. repeat settle_if. f_equal. lia. }
  destruct (Z.eqb_spec d 62); [subst; reflexivity|].
  assert (d = 63) by lia. subst. reflexivity.
Qed.

Lemma digitChar_range d :
  0 <= d < 64 -> 43 <= Base64.digitChar d <= 122 /\ Base64.digitChar d <> 61
                 /\ Base64.digitChar d <> 92.
Proof.
  intros Hd. unfold Base64.digitChar.
  destruct (Z.ltb_spec d 26); [lia|].
  destruct (Z.ltb_spec d 52); [lia|].
  destruct (Z.ltb_spec d 62); [lia|].
  destruct (Z.eqb_spec d 62); lia.
Qed.

Lemma a2b_digit quad_pos leftchar pads d rest :
  0 <= d < 64 ->
  Base64.a2b quad_pos leftchar pads (Base64.digitChar d :: rest)
  = match quad_pos with
    | 0%nat => Base64.a2b 1 d 0 rest
    | 1%nat => Utf8.consTo (leftchar * 4 + d / 16)
                           (Base64.a2b 2 (d mod 16) 0 rest)
    | 2%nat => Utf8.consTo (leftchar * 16 + d / 4)
                           (Base64.a2b 3 (d mod 4) 0 rest)
    | _ => Utf8.consTo (leftchar * 64 + d) (Base64.a2b 0 0 0 rest)
    end.
Proof.
  intros Hd. cbn [Base64.a2b].
  pose proof (digitChar_range d Hd) as (_ & Hp & _).
  apply Z.eqb_neq in Hp. unfold Base64.PAD. rewrite Hp.
  now rewrite charDigit_digitChar.
Qed.

Lemma list_ind3 {A} (P : list A -> Prop) :
  P [] -> (forall a, P [a]) -> (forall a b, P [a; b]) ->
  (forall a b c l, P l -> P (a :: b :: c :: l)) ->
  forall l, P l.
Proof.
  intros H0 H1 H2 H3.
  fix IH 1. intros [|a [|b [|c l]]].
  - exact H0.
  - apply H1.
  - apply H2.
  - apply H3, IH.
Qed.

Ltac byte_bounds :=
  repeat match goal with
         | H : Forall isByte (_ :: _) |- _ => inversion_clear H
         end;
  unfold isByte in *.

Lemma a2b_encode bs :
  Forall isByte bs -> Base64.a2b 0 0 0 (Base64.encode bs) = Some bs.
Proof.
  induction bs as [|a|a b|a b c l IH] using list_ind3; intros Hb.
  - reflexivity.
  - byte_bounds. cbn [Base64.encode].
    rewrite !a2b_digit by (Z.to_euclidean_division_equations; lia).
    cbn. do 2 f_equal. Z.to_euclidean_division_equations; lia.
  - byte_bounds. cbn [Base64.encode].
    rewrite !a2b_digit by (Z.to_euclidean_division_equations; lia).
    cbn. f_equal. f_equal; [|f_equal];
      Z.to_euclidean_division_equations; lia.
  - assert (Hl : Forall isByte l) by (byte_bounds; assumption).
    byte_bounds. cbn [Base64.encode app].
    rewrite !a2b_digit by (Z.to_euclidean_division_equations; lia).
    rewrite (IH Hl). cbn [Utf8.consTo].
    f_equal. f_equal; [|f_equal; [|f_equal]];
      Z.to_euclidean_division_equations; lia.
Qed.

Lemma encode_chars bs :
  Forall isByte bs -> Forall base64Char (Base64.encode bs).
Proof.
  assert (Hd : forall d, 0 <= d < 64 -> base64Char (Base64.digitChar d)).
  { intros d Hd. destruct (digitChar_range d Hd) as (H1 & _ & H2).
    now split. }
  assert (Hp : base64Char Base64.PAD) by (unfold base64Char, Base64.PAD; lia).
  induction bs as [|a|a b|a b c l IH] using list_ind3; intros Hb.
  - constructor.
  - byte_bounds. cbn [Base64.encode].
    repeat constructor; try apply Hd; try apply Hp;
      Z.to_euclidean_division_equations; lia.
  - byte_bounds. cbn [Base64.encode].
    repeat constructor; try apply Hd; try apply Hp;
      Z.to_euclidean_division_equations; lia.
  - assert (Hl : Forall isByte l) by (byte_bounds; assumption).
    byte_bounds. cbn [Base64.encode app].
    repeat (apply Forall_cons); try apply Hd; try (now apply IH);
      Z.to_euclidean_division_equations; lia.
Qed.

Lemma b64decode_encode bs :
  Forall isByte bs -> Base64.b64decode (Base64.encode bs) = Some bs.
Proof.
  intros Hb. unfold Base64.b64decode.
  assert (Ha : forallb (fun c => (0 <=? c) && (c <? 128)) (Base64.encode bs)
               = true).
  { apply forallb_forall. intros c Hin.
    pose proof (proj1 (Forall_forall _ _) (encode_chars bs Hb) c Hin) as [H _].
    bool_arith. }
  rewrite Ha. now apply a2b_encode.
Qed.

Lemma encode_literalSafe bs :
  Forall isByte bs -> literalSafe QUOTE (Base64.encode bs) = true.
Proof.
  intros Hb. apply forallb_forall. intros c Hin.
  pose proof (proj1 (Forall_forall _ _) (encode_chars bs Hb) c Hin) as [H H'].
  bool_arith.
Qed.

End EncodingFacts.

(* ================================================================= *)
(** ** Literals and scripts in the runtime *)

Module RuntimeFacts.

Import Python EncodingFacts.

Lemma stringLiteral_char q c tail :
  (c =? q) = false -> c <> 92 -> c <> 10 -> c <> 13 -> c <> 0 ->
  stringLiteral q (c :: tail) = push c (stringLiteral q tail).
Proof.
  intros Hq H92 H10 H13 H0. cbn [stringLiteral]. rewrite Hq.
  repeat settle_if. reflexivity.
Qed.

Lemma stringLiteral_close q tail : stringLiteral q (q :: tail) = Some ([], tail).
Proof. cbn [stringLiteral]. now rewrite Z.eqb_refl. Qed.

(** A literal-safe text between quotes is read back as it is. *)
Lemma stringLiteral_safe q v tail :
  literalSafe q v = true ->
  stringLiteral q (v ++ q :: tail) = Some (v, tail).
Proof.
  induction v as [|c v IH]; intros Hs.
  - apply stringLiteral_close.
  - cbn [literalSafe forallb] in Hs. apply andb_true_iff in Hs as [Hc Hv].
    cbn [app]. rewrite stringLiteral_char by bool_arith.
    fold (literalSafe q v) in Hv. now rewrite IH.
Qed.

(** *** [JSON.stringify] read as a Python literal *)

Lemma hexVal_hexDigit d :
  0 <= d < 16 -> hexVal (Json.hexDigit d) = Some d.
Proof.
  intros Hd. unfold Json.hexDigit.
  destruct (Z.ltb_spec d 10); unfold hexVal; repeat settle_if; f_equal; lia.
Qed.

Lemma hexNumber_unicodeEscape c :
  0 <= c < 65536 ->
  hexNumber 0 [Json.hexDigit (c / 4096); Json.hexDigit ((c / 256) mod 16);
               Json.hexDigit ((c / 16) mod 16); Json.hexDigit (c mod 16)]
  = Some c.
Proof.
  intros Hc. cbn [hexNumber].
  rewrite !hexVal_hexDigit by (Z.to_euclidean_division_equations; lia).
  f_equal. Z.to_euclidean_division_equations; lia.
Qed.

Lemma stringLiteral_u h1 h2 h3 h4 tail :
  stringLiteral DQUOTE (92 :: 117 :: h1 :: h2 :: h3 :: h4 :: tail)
  = pushHex [h1; h2; h3; h4] 0xFFFF (stringLiteral DQUOTE tail).
Proof. reflexivity. Qed.

Lemma stringLiteral_quoteChar c tail :
  Utf8.isScalar c = true ->
  stringLiteral DQUOTE (Json.quoteChar c ++ tail)
  = push c (stringLiteral DQUOTE tail).
Proof.
  intros Hc. unfold Json.quoteChar.
  destruct (Z.eqb_spec c 8); [subst; reflexivity|].
  destruct (Z.eqb_spec c 9); [subst; reflexivity|].
  destruct (Z.eqb_spec c 10); [subst; reflexivity|].
  destruct (Z.eqb_spec c 12); [subst; reflexivity|].
  destruct (Z.eqb_spec c 13); [subst; reflexivity|].
  destruct (Z.eqb_spec c 34); [subst; reflexivity|].
  destruct (Z.eqb_spec c 92); [subst; reflexivity|].
  assert (Hs : Utf8.isSurrogate c = false) by bool_arith.
  rewrite Hs, orb_false_r.
  destruct (Z.ltb_spec c 32) as [Hlow | Hhigh].
  - unfold Json.unicodeEscape. cbn [app]. rewrite stringLiteral_u.
    unfold pushHex. rewrite hexNumber_unicodeEscape by bool_arith.
    now settle_if.
  - cbn [app]. apply stringLiteral_char; [bool_arith | lia..].
Qed.

Lemma stringLiteral_stringify_body s tail :
  Utf8.isText s = true ->
  stringLiteral DQUOTE (flat_map Json.quoteChar s ++ DQUOTE :: tail)
  = Some (s, tail).
Proof.
  induction s as [|c s IH]; intros Hs.
  - apply stringLiteral_close.
  - simpl in Hs. apply andb_true_iff in Hs as [Hc Hs].
    cbn [flat_map]. rewrite <- app_assoc.
    rewrite stringLiteral_quoteChar by assumption. now rewrite IH.
Qed.

(** *** Fixed text *)

Lemma expect_app lit s : expect lit (lit ++ s) = Some s.
Proof.
  unfold expect. rewrite startsWith_app.
  f_equal. induction lit; simpl; [reflexivity | assumption].
Qed.

(** *** Reading back *)

Lemma readFile_last st path data :
  readFile (st ++ [WriteFile path data]) path = Some data.
Proof.
  induction st as [|op st IH]; simpl.
  - now rewrite eqb_refl.
  - now rewrite IH.
Qed.

(** *** The three scripts *)

Lemma run_makedirs st path :
  literalSafe QUOTE path = true -> path <> [] ->
  runPython (MKDIR_HEAD ++ path ++ [QUOTE] ++ MKDIR_TAIL) st
  = Some (st ++ [Makedirs path]).
Proof.
  intros Hs Hne. unfold runPython, execMakedirs.
  rewrite expect_app. cbn [app].
  rewrite stringLiteral_safe by assumption.
  rewrite <- (app_nil_r MKDIR_TAIL) at 2. rewrite expect_app.
  destruct path; [contradiction | reflexivity].
Qed.

Lemma run_copy st target content :
  Utf8.isText content = true ->
  literalSafe QUOTE target = true -> dirname target <> [] ->
  runPython
    (COPY_HEAD ++ target ++ [QUOTE] ++ COPY_OPEN
     ++ target ++ [QUOTE] ++ COPY_WRITE
     ++ Base64.encode (Utf8.encode content) ++ [QUOTE] ++ COPY_TAIL) st
  = Some (st ++ [Makedirs (dirname target);
                 WriteFile target (Utf8.encode content)]).
Proof.
  intros Ht Hs Hd. unfold runPython.
  assert (E : execMakedirs
          (COPY_HEAD ++ target ++ [QUOTE] ++ COPY_OPEN
           ++ target ++ [QUOTE] ++ COPY_WRITE
           ++ Base64.encode (Utf8.encode content) ++ [QUOTE] ++ COPY_TAIL) st
              = None) by reflexivity.
  rewrite E. unfold execCopy.
  rewrite expect_app. cbn [app].
  rewrite stringLiteral_safe by assumption.
  rewrite expect_app. rewrite stringLiteral_safe by assumption.
  rewrite expect_app.
  rewrite stringLiteral_safe
    by (apply encode_literalSafe, encode_bytes; assumption).
  rewrite <- (app_nil_r COPY_TAIL) at 2. rewrite expect_app.
  assert (Hne : target <> []) by (intros ->; apply Hd; reflexivity).
  unfold makedirs. destruct (dirname target) as [|d ds] eqn:Edir;
    [contradiction|].
  rewrite b64decode_encode by (apply encode_bytes; assumption).
  rewrite decode_encode by assumption.
  unfold writeText, Utf8.pyEncode. rewrite Ht.
  destruct target; [contradiction|].
  rewrite <- app_assoc. reflexivity.
Qed.

Lemma run_folder_write st target content :
  Utf8.isText content = true ->
  literalSafe QUOTE target = true -> dirname target <> [] ->
  runPython
    (FOLDER_HEAD ++ target ++ [QUOTE] ++ FOLDER_OPEN
     ++ target ++ [QUOTE] ++ FOLDER_WRITE
     ++ Json.stringify content ++ FOLDER_TAIL) st
  = Some (st ++ [Makedirs (dirname target);
                 WriteFile target (Utf8.encode content)]).
Proof.
  intros Ht Hs Hd. unfold runPython.
  assert (E1 : execMakedirs
          (FOLDER_HEAD ++ target ++ [QUOTE] ++ FOLDER_OPEN
           ++ target ++ [QUOTE] ++ FOLDER_WRITE
           ++ Json.stringify content ++ FOLDER_TAIL) st = None)
    by reflexivity.
  assert (E2 : execCopy
          (FOLDER_HEAD ++ target ++ [QUOTE] ++ FOLDER_OPEN
           ++ target ++ [QUOTE] ++ FOLDER_WRITE
           ++ Json.stringify content ++ FOLDER_TAIL) st = None)
    by reflexivity.
  rewrite E1, E2. unfold execFolderWrite.
  rewrite expect_app. cbn [app].
  rewrite stringLiteral_safe by assumption.
  rewrite expect_app. rewrite stringLiteral_safe by assumption.
  rewrite expect_app.
  unfold Json.stringify. cbn [app]. rewrite Z.eqb_refl.
  rewrite <- app_assoc. cbn [app].
  rewrite stringLiteral_stringify_body by assumption.
  rewrite <- (app_nil_r FOLDER_TAIL) at 2. rewrite expect_app.
  assert (Hne : target <> []) by (intros ->; apply Hd; reflexivity).
  unfold makedirs. destruct (dirname target) as [|d ds] eqn:Edir;
    [contradiction|].
  unfold writeText, Utf8.pyEncode. rewrite Ht.
  destruct target; [contradiction|].
  rewrite <- app_assoc. reflexivity.
Qed.

End RuntimeFacts.

(* ================================================================= *)
(** ** Paths built from proper names *)

Module PathFacts.

Import Python PyodideFs.

Lemma properName_kept s : properName s = true -> kept s.
Proof.
  unfold properName, plainName, kept, slashFree. intros H.
  apply andb_true_iff in H as [H Hdd]. apply andb_true_iff in H as [H Hd].
  apply negb_true_iff in Hd, Hdd.
  destruct s; [discriminate|]. apply andb_true_iff in H as [H _].
  repeat split; (discriminate || assumption).
Qed.

Lemma properName_safe s : properName s = true -> literalSafe QUOTE s = true.
Proof.
  unfold properName, plainName. intros H.
  apply andb_true_iff in H as [H _]. apply andb_true_iff in H as [H _].
  destruct s; [discriminate|]. now apply andb_true_iff in H as [_ H].
Qed.

(** A visible plain name is neither [.] nor [..]. *)
Lemma visible_plain_proper s :
  hidden s = false -> plainName s = true -> properName s = true.
Proof.
  intros Hh Hp. unfold properName. rewrite Hp. simpl.
  unfold hidden in Hh. destruct s as [|c s]; [discriminate|].
  cbn [startsWith] in Hh. rewrite andb_true_r in Hh.
  unfold Path.isDot, Path.isDotDot. cbn [Js.eqb]. now rewrite Hh.
Qed.

Lemma split_slashFree s : slashFree s -> Path.split s = [s].
Proof.
  unfold slashFree. induction s as [|c s IH]; intros H; [reflexivity|].
  simpl in H. apply andb_true_iff in H as [Hc Hs].
  apply negb_true_iff in Hc. cbn [Path.split]. rewrite Hc.
  now rewrite IH.
Qed.

Lemma split_app a rest :
  slashFree a -> Path.split (a ++ SLASH :: rest) = a :: Path.split rest.
Proof.
  unfold slashFree. induction a as [|c a IH]; intros H.
  - reflexivity.
  - simpl in H. apply andb_true_iff in H as [Hc Hs].
    apply negb_true_iff in Hc. cbn [app Path.split]. rewrite Hc.
    now rewrite IH.
Qed.

Lemma joinWith_cons sep s s' rest :
  Path.joinWith sep (s :: s' :: rest)
  = s ++ sep ++ Path.joinWith sep (s' :: rest).
Proof. reflexivity. Qed.

Lemma split_joinWith S :
  S <> [] -> Forall slashFree S -> Path.split (Path.joinWith [SLASH] S) = S.
Proof.
  induction S as [|s S IH]; intros Hne Hall; [contradiction|].
  inversion_clear Hall as [|? ? Hs HS].
  destruct S as [|s' rest].
  - now apply split_slashFree.
  - rewrite joinWith_cons. cbn [app]. rewrite split_app by assumption.
    f_equal. apply IH; [discriminate | assumption].
Qed.

Lemma joinWith_snoc sep S x :
  S <> [] -> Path.joinWith sep (S ++ [x]) = Path.joinWith sep S ++ sep ++ x.
Proof.
  induction S as [|s S IH]; intros Hne; [contradiction|].
  destruct S as [|s' rest]; [reflexivity|].
  change ((s :: s' :: rest) ++ [x]) with (s :: (s' :: (rest ++ [x]))).
  rewrite !joinWith_cons.
  change (s' :: rest ++ [x]) with ((s' :: rest) ++ [x]).
  rewrite IH by discriminate. now rewrite <- !app_assoc.
Qed.

Lemma normalizeSegments_kept stack S :
  Forall kept S -> Path.normalizeSegments true stack S = rev S ++ stack.
Proof.
  revert stack. induction S as [|s S IH]; intros stack Hall; [reflexivity|].
  inversion_clear Hall as [|? ? (Hne & _ & Hd & Hdd) HS].
  cbn [Path.normalizeSegments]. rewrite Hd, Hdd.
  destruct s; [contradiction|]. rewrite IH by assumption.
  cbn [rev]. now rewrite <- app_assoc.
Qed.

Lemma last_app_nonempty {A} (l m : list A) d :
  m <> [] -> last (l ++ m) d = last m d.
Proof.
  intros Hm. induction l as [|a l IH]; [reflexivity|].
  cbn [app]. destruct (l ++ m) eqn:E.
  - apply app_eq_nil in E as [_ E]. contradiction.
  - rewrite <- IH. reflexivity.
Qed.

Lemma last_joinWith sep S d :
  last S [] <> [] ->
  last (Path.joinWith sep S) d = last (last S []) d.
Proof.
  induction S as [|s S IH]; intros Hl; [contradiction|].
  destruct S as [|s' rest]; [reflexivity|].
  rewrite joinWith_cons.
  change (last (s :: s' :: rest) []) with (last (s' :: rest) []) in *.
  rewrite <- (IH Hl).
  assert (Hj : Path.joinWith sep (s' :: rest) <> []).
  { intros E. rewrite E in IH. specialize (IH Hl).
    destruct (last (s' :: rest) []) eqn:El; [contradiction|].
    clear - E El. revert s' E El.
    induction rest as [|r rest IHr]; intros s' E El.
    - simpl in *. congruence.
    - rewrite joinWith_cons in E. apply app_eq_nil in E as [_ E].
      apply app_eq_nil in E as [_ E].
      apply (IHr r E). exact El. }
  rewrite app_assoc. apply last_app_nonempty. exact Hj.
Qed.

Lemma last_slashFree s d : s <> [] -> slashFree s -> last s d <> SLASH.
Proof.
  intros Hne Hs E.
  assert (Hin : In (last s d) s).
  { destruct s as [|c s]; [contradiction|].
    clear. revert c. induction s as [|x s IH]; intros c.
    - now left.
    - right. apply IH. }
  unfold slashFree in Hs. rewrite forallb_forall in Hs.
  specialize (Hs _ Hin). rewrite E in Hs. discriminate.
Qed.

Lemma joinWith_head sep c s S :
  exists tail, Path.joinWith sep ((c :: s) :: S) = c :: tail.
Proof. destruct S; eexists; reflexivity. Qed.

Lemma normalize_relative X c tail S' :
  X = c :: tail -> (c =? SLASH) = false -> (last X 0 =? SLASH) = false ->
  Path.normalizeSegments true [] (Path.split X) = rev S' ->
  Path.joinWith [SLASH] S' <> [] ->
  Path.normalize X = Path.joinWith [SLASH] S'.
Proof.
  intros E Hc Ht Hn Hb. unfold Path.normalize. rewrite Ht. rewrite E at 1.
  rewrite Hc. cbn [negb]. rewrite Hn, rev_involutive.
  now destruct (Path.joinWith [SLASH] S').
Qed.

(** [path.normalize] on a relative path without a trailing separator. *)
Lemma normalize_segments S S' :
  Forall slashFree S -> hd [] S <> [] -> last S [] <> [] ->
  Path.normalizeSegments true [] S = rev S' ->
  Path.joinWith [SLASH] S' <> [] ->
  Path.normalize (Path.joinWith [SLASH] S) = Path.joinWith [SLASH] S'.
Proof.
  intros Hall Hhd Hlast Hnorm Hbody.
  destruct S as [|[|c s] S]; try contradiction.
  destruct (joinWith_head [SLASH] c s S) as [tail Ej].
  assert (Hc : (c =? SLASH) = false).
  { inversion_clear Hall as [|? ? Hs _]. unfold slashFree in Hs.
    simpl in Hs. apply andb_true_iff in Hs as [Hs _].
    now apply negb_true_iff in Hs. }
  assert (Ht : (last (Path.joinWith [SLASH] ((c :: s) :: S)) 0 =? SLASH)
               = false).
  { rewrite last_joinWith by assumption. apply Z.eqb_neq.
    apply last_slashFree; [assumption|].
    assert (Hin : In (last ((c :: s) :: S) []) ((c :: s) :: S)).
    { clear. generalize (c :: s) as x. induction S as [|y S IH]; intros x.
      - now left.
      - right. apply IH. }
    exact (proj1 (Forall_forall _ _) Hall _ Hin). }
  apply (normalize_relative _ c tail S' Ej Hc Ht); [|exact Hbody].
  etransitivity; [|exact Hnorm]. f_equal.
  apply split_joinWith; [discriminate | assumption].
Qed.

Lemma joinWith_nonempty S :
  S <> [] -> hd [] S <> [] -> Path.joinWith [SLASH] S <> [].
Proof.
  destruct S as [|[|c s] S]; try contradiction. intros _ _.
  destruct (joinWith_head [SLASH] c s S) as [tail E].
  intros E'. apply (eq_trans (eq_sym E)) in E'. discriminate.
Qed.

Lemma kept_slashFree S : Forall kept S -> Forall slashFree S.
Proof. apply Forall_impl. now intros s (_ & H & _). Qed.

Lemma kept_last S : S <> [] -> Forall kept S -> last S [] <> [].
Proof.
  intros Hne Hall.
  assert (Hin : In (last S []) S).
  { destruct S as [|x S]; [contradiction|]. clear. revert x.
    induction S as [|y S IH]; intros x; [now left | right; apply IH]. }
  exact (proj1 (proj1 (Forall_forall _ _) Hall _ Hin)).
Qed.

Lemma kept_hd S : S <> [] -> Forall kept S -> hd [] S <> [].
Proof.
  destruct S as [|x S]; [contradiction|]. intros _ Hall.
  inversion_clear Hall as [|? ? (H & _) _]. exact H.
Qed.

(** A path of kept segments is already normal. *)
Lemma normalize_kept S :
  S <> [] -> Forall kept S ->
  Path.normalize (Path.joinWith [SLASH] S) = Path.joinWith [SLASH] S.
Proof.
  intros Hne Hall. apply normalize_segments.
  - now apply kept_slashFree.
  - now apply kept_hd.
  - now apply kept_last.
  - rewrite normalizeSegments_kept by assumption. apply app_nil_r.
  - apply joinWith_nonempty; [assumption | now apply kept_hd].
Qed.

Lemma join_pair a b :
  a <> [] -> b <> [] ->
  Path.join [a; b] = Path.normalize (a ++ [SLASH] ++ b).
Proof.
  intros Ha Hb. unfold Path.join. cbn [filter].
  destruct a; [contradiction|]. destruct b; [contradiction|]. reflexivity.
Qed.

Lemma join_nested S file :
  S <> [] -> Forall kept S -> kept file ->
  Path.join [Path.joinWith [SLASH] S; file] = Path.joinWith [SLASH] (S ++ [file]).
Proof.
  intros Hne Hall Hf.
  rewrite join_pair;
    [| apply joinWith_nonempty; [assumption | now apply kept_hd]
     | exact (proj1 Hf)].
  rewrite <- joinWith_snoc by assumption.
  apply normalize_kept.
  - destruct S; discriminate.
  - apply Forall_app. split; [assumption | now constructor].
Qed.

Lemma join_root base file :
  kept base -> kept file ->
  Path.join [DOT_SLASH ++ base; file] = Path.joinWith [SLASH] [base; file].
Proof.
  intros Hb Hf. rewrite join_pair; [|discriminate | exact (proj1 Hf)].
  change ((DOT_SLASH ++ base) ++ [SLASH] ++ file)
    with (Path.joinWith [SLASH] [[DOT]; base; file]).
  apply normalize_segments.
  - apply Forall_cons; [reflexivity|].
    apply Forall_cons; [exact (proj1 (proj2 Hb))|].
    apply Forall_cons; [exact (proj1 (proj2 Hf)) | apply Forall_nil].
  - discriminate.
  - exact (proj1 Hf).
  - cbn [Path.normalizeSegments]. change (Path.isDot [DOT]) with true.
    cbv iota. apply (normalizeSegments_kept [] [base; file]).
    apply Forall_cons; [exact Hb|].
    apply Forall_cons; [exact Hf | apply Forall_nil].
  - apply joinWith_nonempty; [discriminate | exact (proj1 Hb)].
Qed.

Lemma replaceChar_absent c d s :
  forallb (fun x => negb (x =? c)) s = true -> replaceChar c d s = s.
Proof.
  induction s as [|x s IH]; intros H; [reflexivity|].
  simpl in H. apply andb_true_iff in H as [Hx Hs].
  apply negb_true_iff in Hx. cbn [replaceChar map]. rewrite Hx.
  f_equal. now apply IH.
Qed.

Lemma literalSafe_app q a b :
  literalSafe q (a ++ b) = literalSafe q a && literalSafe q b.
Proof. apply forallb_app. Qed.

Lemma literalSafe_joinWith S :
  Forall (fun s => literalSafe QUOTE s = true) S ->
  literalSafe QUOTE (Path.joinWith [SLASH] S) = true.
Proof.
  induction S as [|s S IH]; intros Hall; [reflexivity|].
  inversion_clear Hall as [|? ? Hs HS].
  destruct S as [|s' rest]; [exact Hs|].
  rewrite joinWith_cons, !literalSafe_app, Hs, IH by assumption.
  reflexivity.
Qed.

Lemma literalSafe_no_backslash s :
  literalSafe QUOTE s = true ->
  forallb (fun x => negb (x =? BACKSLASH)) s = true.
Proof.
  unfold literalSafe. rewrite !forallb_forall. intros H x Hin.
  specialize (H x Hin). apply negb_true_iff in H. apply negb_true_iff.
  destruct (x =? BACKSLASH); [|reflexivity].
  rewrite orb_true_r in H. simpl in H. discriminate.
Qed.

(** *** [os.path.dirname] of a path with a directory part *)

Lemma dropWhile_app_stop {A} (f : A -> bool) l m x :
  In x l -> f x = false ->
  Path.dropWhile f (l ++ m) = Path.dropWhile f l ++ m.
Proof.
  induction l as [|a l IH]; intros Hin Hx; [contradiction|].
  cbn [app Path.dropWhile]. destruct (f a) eqn:Ea; [|reflexivity].
  destruct Hin as [-> | Hin]; [congruence|]. now apply IH.
Qed.

Lemma dropWhile_snoc_nonempty {A} (f : A -> bool) l c :
  f c = false -> Path.dropWhile f (l ++ [c]) <> [].
Proof.
  intros Hc. induction l as [|a l IH]; cbn [app Path.dropWhile].
  - rewrite Hc. discriminate.
  - destruct (f a); [exact IH | discriminate].
Qed.

Lemma dirname_nonempty X c tail :
  X = c :: tail -> c <> SLASH -> In SLASH tail -> dirname X <> [].
Proof.
  intros -> Hc Hin. unfold dirname.
  assert (Hsep : Path.isSep c = false) by now apply Z.eqb_neq.
  cbn [rev].
  rewrite (dropWhile_app_stop _ (rev tail) [c] SLASH)
    by (try (now apply in_rev in Hin); reflexivity).
  rewrite rev_app_distr. cbn [rev app forallb]. rewrite Hsep. cbn [andb].
  rewrite rev_involutive.
  intros E. apply (f_equal (@rev Z)) in E. rewrite rev_involutive in E.
  cbn [rev] in E. revert E.
  now apply dropWhile_snoc_nonempty.
Qed.

Lemma dirname_joinWith S file :
  S <> [] -> Forall kept S ->
  dirname (Path.joinWith [SLASH] (S ++ [file])) <> [].
Proof.
  intros Hne Hall. rewrite joinWith_snoc by assumption.
  destruct S as [|[|c s] S]; try contradiction.
  - inversion_clear Hall as [|? ? (H & _) _]. contradiction.
  - destruct (joinWith_head [SLASH] c s S) as [tail E].
    apply (dirname_nonempty _ c (tail ++ [SLASH] ++ file)).
    + exact (f_equal (fun x => x ++ [SLASH] ++ file) E).
    + inversion_clear Hall as [|? ? (_ & Hs & _) _]. unfold slashFree in Hs.
      simpl in Hs. apply andb_true_iff in Hs as [Hs _].
      apply negb_true_iff in Hs. now apply Z.eqb_neq.
    + apply in_or_app. right. now left.
Qed.

End PathFacts.

(* ================================================================= *)
(** ** Staging a host tree *)

Module WalkFacts.

Import Python PyodideFs PathFacts EncodingFacts RuntimeFacts Samples.

(** Induction on host trees, with the property at hand for every entry of
    a listing. *)
Lemma Node_ind' (P : Node -> Prop) :
  (forall content, P (File content)) ->
  P Broken ->
  P (Dir None) ->
  (forall files, Forall (fun e => P (snd e)) files -> P (Dir (Some files))) ->
  forall n, P n.
Proof.
  intros HF HB HN HD. fix IH 1. intros [content | [files|] | ].
  - apply HF.
  - apply HD.
    refine ((fix entries (l : list (jsstring * Node))
               : Forall (fun e => P (snd e)) l :=
               match l with
               | [] => Forall_nil _
               | e :: l' => Forall_cons e (IH (snd e)) (entries l')
               end) files).
  - apply HN.
  - apply HB.
Qed.

Lemma processDirectory_unfold pyodide currentDir pyodidePath :
  processDirectory pyodide currentDir pyodidePath
  = match createPyodideDirectory pyodide pyodidePath with
    | (pyodide1, None) => (pyodide1, None)
    | (pyodide1, Some _) =>
        match currentDir with
        | Dir (Some files) =>
            let (pyodide2, pythonFileCount) :=
              processEntries processDirectory pyodidePath pyodide1 0%nat files in
            (pyodide2, Some pythonFileCount)
        | _ => (pyodide1, Some 0%nat)
        end
    end.
Proof. destruct currentDir; reflexivity. Qed.

(** *** Hidden entries are never looked at *)

Lemma processEntries_ext rec rec' pyodidePath files :
  Forall (fun e => forall pyodide path,
            rec pyodide (snd e) path = rec' pyodide (snd e) path) files ->
  forall pyodide count,
    processEntries rec pyodidePath pyodide count files
    = processEntries rec' pyodidePath pyodide count files.
Proof.
  induction 1 as [|[file entry] rest Hrec _ IH]; intros pyodide count;
    [reflexivity|].
  cbn [processEntries]. cbn [snd] in Hrec.
  destruct (startsWith file [DOT]); [apply IH|].
  destruct entry as [content | listing | ]; [| |reflexivity].
  - destruct (endsWith file DOT_PY); [|apply IH].
    destruct (copyFileToPyodide _ _ _) as [py' [u|]]; [apply IH | reflexivity].
  - rewrite Hrec.
    destruct (rec' _ _ _) as [py' [n|]]; [apply IH | reflexivity].
Qed.

Lemma prune_kind n :
  match n, prune n with
  | File c, File c' => c = c'
  | Dir _, Dir _ => True
  | Broken, Broken => True
  | _, _ => False
  end.
Proof. destruct n as [c | [files|] | ]; simpl; auto. Qed.

Lemma processEntries_prune rec pyodidePath files :
  forall pyodide count,
    processEntries rec pyodidePath pyodide count
      (flat_map (fun e => if hidden (fst e) then []
                          else [(fst e, prune (snd e))]) files)
    = processEntries (fun py n path => rec py (prune n) path)
        pyodidePath pyodide count files.
Proof.
  induction files as [|[file entry] rest IH]; intros pyodide count;
    [reflexivity|].
  cbn [flat_map fst snd processEntries]. unfold hidden at 1.
  destruct (startsWith file [DOT]) eqn:Eh; [apply IH|].
  cbn [app processEntries]. rewrite Eh.
  pose proof (prune_kind entry) as Hk.
  destruct entry as [content | listing | ];
    destruct (prune _) as [content' | listing' | ] eqn:Ep;
    try contradiction; [| |reflexivity].
  - subst content'. destruct (endsWith file DOT_PY); [|apply IH].
    destruct (copyFileToPyodide _ _ _) as [py' [u|]]; [apply IH | reflexivity].
  - destruct (rec _ _ _) as [py' [n|]]; [apply IH | reflexivity].
Qed.

Lemma processDirectory_prune n :
  forall pyodide pyodidePath,
    processDirectory pyodide (prune n) pyodidePath
    = processDirectory pyodide n pyodidePath.
Proof.
  induction n as [content | | | files IH] using Node_ind';
    intros pyodide pyodidePath; try reflexivity.
  cbn [prune]. rewrite !processDirectory_unfold.
  destruct (createPyodideDirectory pyodide pyodidePath) as [py1 [u|]];
    [|reflexivity].
  rewrite processEntries_prune.
  rewrite (processEntries_ext _ processDirectory pyodidePath files);
    [reflexivity|].
  revert IH. apply Forall_impl. intros e He py path. apply He.
Qed.

(** *** An entry that cannot be read ends the loop *)


(** *** The scripts of the walk succeed on proper names *)

Lemma create_ok pyodide path :
  literalSafe QUOTE path = true -> path <> [] ->
  createPyodideDirectory pyodide path = (pyodide ++ [Makedirs path], Some tt).
Proof.
  intros Hs Hne. unfold createPyodideDirectory.
  now rewrite run_makedirs.
Qed.

Lemma copy_ok pyodide content target :
  Utf8.isText content = true ->
  literalSafe QUOTE target = true -> dirname target <> [] ->
  copyFileToPyodide pyodide (File (Some content)) target
  = (pyodide ++ [Makedirs (dirname target);
                 WriteFile target (Utf8.encode content)], Some tt).
Proof.
  intros Ht Hs Hd. unfold copyFileToPyodide.
  now rewrite run_copy.
Qed.

Lemma proper_kept S :
  Forall (fun s => properName s = true) S -> Forall kept S.
Proof. apply Forall_impl. intros s. apply properName_kept. Qed.

Lemma proper_safe S :
  Forall (fun s => properName s = true) S ->
  literalSafe QUOTE (Path.joinWith [SLASH] S) = true.
Proof.
  intros H. apply literalSafe_joinWith. revert H. apply Forall_impl.
  intros s. apply properName_safe.
Qed.

Lemma proper_snoc S file :
  Forall (fun s => properName s = true) S -> properName file = true ->
  Forall (fun s => properName s = true) (S ++ [file]).
Proof. intros HS Hf. apply Forall_app. split; [assumption | now constructor]. Qed.

Lemma targetOf_proper path S file :
  Forall (fun s => properName s = true) S -> properName file = true ->
  Path.join [path; file] = Path.joinWith [SLASH] (S ++ [file]) ->
  targetOf path file = Path.joinWith [SLASH] (S ++ [file]).
Proof.
  intros HS Hf E. unfold targetOf. rewrite E.
  apply replaceChar_absent, literalSafe_no_backslash, proper_safe.
  now apply proper_snoc.
Qed.

Lemma vdir_nested S :
  S <> [] -> Forall (fun s => properName s = true) S ->
  vdir (Path.joinWith [SLASH] S) S.
Proof.
  intros Hne HS. split; [assumption|]. split; [assumption|].
  intros file Hf. apply targetOf_proper; try assumption.
  apply join_nested; [assumption | now apply proper_kept
                      | now apply properName_kept].
Qed.

Lemma vdir_root base :
  properName base = true -> vdir (DOT_SLASH ++ base) [base].
Proof.
  intros Hb. split; [discriminate|]. split; [now constructor|].
  intros file Hf. apply targetOf_proper; try assumption; [now constructor|].
  apply join_root; now apply properName_kept.
Qed.

Lemma vdir_step path S file :
  vdir path S -> properName file = true ->
  let target := targetOf path file in
  vdir target (S ++ [file])
  /\ literalSafe QUOTE target = true
  /\ target <> []
  /\ dirname target <> [].
Proof.
  intros (Hne & HS & Ht) Hf target. unfold target. rewrite (Ht _ Hf).
  assert (HS' : Forall (fun s => properName s = true) (S ++ [file]))
    by now apply proper_snoc.
  assert (Hne' : S ++ [file] <> []) by (destruct S; discriminate).
  split; [now apply vdir_nested|]. split; [now apply proper_safe|].
  split.
  - apply joinWith_nonempty; [assumption|].
    apply kept_hd; [assumption | now apply proper_kept].
  - apply dirname_joinWith; [assumption | now apply proper_kept].
Qed.

(** *** The files of the claim, entry by entry *)

Lemma filesBelow_paths n f : In f (filesBelow n) -> fst f <> [].
Proof.
  destruct n as [c | [files|] | ]; simpl; try contradiction.
  intros Hin. apply in_flat_map in Hin as (e & _ & Hin).
  destruct (snd e).
  - destruct Hin as [<- | []]. discriminate.
  - apply in_map_iff in Hin as (g & <- & _). discriminate.
  - apply in_map_iff in Hin as (g & <- & _). discriminate.
Qed.

Lemma staged_cons name p :
  p <> [] -> staged (name :: p) = negb (hidden name) && staged p.
Proof.
  intros Hp. unfold staged. destruct p as [|x p]; [contradiction|].
  change (last (name :: x :: p) []) with (last (x :: p) []).
  cbn [forallb]. destruct (negb (hidden name)).
  - reflexivity.
  - cbn [andb]. apply andb_false_r.
Qed.

Lemma filter_staged_under name (L : list (list jsstring * option jsstring)) :
  (forall f, In f L -> fst f <> []) ->
  filter (fun f => staged (fst f)) (map (fun f => (name :: fst f, snd f)) L)
  = if hidden name then []
    else map (fun f => (name :: fst f, snd f))
             (filter (fun f => staged (fst f)) L).
Proof.
  induction L as [|f L IH]; intros Hne.
  - now destruct (hidden name).
  - cbn [map filter fst]. rewrite staged_cons by (apply Hne; now left).
    rewrite IH by (intros g Hg; apply Hne; now right).
    destruct (hidden name); [reflexivity|]. cbn [negb andb].
    now destruct (staged (fst f)).
Qed.

Lemma stagedBelow_cons name entry rest :
  stagedBelow (Dir (Some ((name, entry) :: rest)))
  = entryStaged name entry ++ stagedBelow (Dir (Some rest)).
Proof.
  unfold stagedBelow. cbn [filesBelow flat_map fst snd].
  rewrite filter_app. f_equal.
  destruct entry as [content | listing | ].
  - cbn [filter fst entryStaged]. unfold staged. cbn [last forallb].
    now rewrite andb_true_r.
  - unfold entryStaged. apply filter_staged_under. apply filesBelow_paths.
  - unfold entryStaged. apply filter_staged_under. apply filesBelow_paths.
Qed.

Lemma writesFor_app segments A B :
  writesFor segments (A ++ B) = writesFor segments A ++ writesFor segments B.
Proof. apply flat_map_app. Qed.

Lemma writesFor_under segments name L :
  writesFor segments (map (fun f => (name :: fst f, snd f)) L)
  = writesFor (segments ++ [name]) L.
Proof.
  unfold writesFor. induction L as [|f L IH]; [reflexivity|].
  cbn [map flat_map]. rewrite IH. cbn [fst snd].
  now rewrite <- app_assoc.
Qed.

Lemma writesOf_app a b : writesOf (a ++ b) = writesOf a ++ writesOf b.
Proof. apply flat_map_app. Qed.

Lemma entryStaged_hidden name entry :
  hidden name = true -> entryStaged name entry = [].
Proof.
  intros Hh. destruct entry; cbn [entryStaged]; rewrite Hh;
    [now rewrite andb_false_r | reflexivity..].
Qed.

(** *** The walk of a readable tree *)

Lemma entries_spec files :
  Forall (fun e => walkSpec (snd e)) files ->
  forall pyodide path segments count,
    vdir path segments ->
    readable (Dir (Some files)) = true ->
    wellNamed (Dir (Some files)) = true ->
    exists ops,
      processEntries processDirectory path pyodide count files
      = (pyodide ++ ops,
         (count + List.length (stagedBelow (Dir (Some files))))%nat)
      /\ writesOf ops = expectedWrites segments (Dir (Some files))
      /\ List.length (expectedWrites segments (Dir (Some files)))
         = List.length (stagedBelow (Dir (Some files))).
Proof.
  induction 1 as [|[file entry] rest Hentry _ IH];
    intros pyodide path segments count Hv Hr Hw.
  - exists []. rewrite app_nil_r. cbn. rewrite Nat.add_0_r. auto.
  - cbn [readable wellNamed forallb fst snd] in Hr, Hw.
    apply andb_true_iff in Hr as [Hr1 Hr2].
    apply andb_true_iff in Hw as [Hw1 Hw2].
    unfold expectedWrites in *.
    rewrite stagedBelow_cons, writesFor_app, !length_app.
    cbn [processEntries].
    change (startsWith file [DOT]) with (hidden file).
    destruct (hidden file) eqn:Eh.
    + rewrite (entryStaged_hidden _ _ Eh). cbn [app List.length writesFor flat_map].
      apply IH; assumption.
    + cbn [orb] in Hr1, Hw1. apply andb_true_iff in Hw1 as [Hplain Hwe].
      pose proof (visible_plain_proper _ Eh Hplain) as Hproper.
      destruct (vdir_step path segments file Hv Hproper)
        as (Hv' & Hsafe & Hne & Hdir).
      destruct entry as [content | listing | ]; [| |discriminate].
      * cbn [entryStaged]. rewrite Eh. cbn [negb]. rewrite andb_true_r.
        destruct (endsWith file DOT_PY) eqn:Epy.
        -- cbn [negb orb] in Hr1. destruct content as [c|]; [|discriminate].
           cbn [wellNamed] in Hwe.
           rewrite copy_ok by assumption.
           destruct (IH (pyodide ++ [Makedirs (dirname (targetOf path file));
                                     WriteFile (targetOf path file)
                                               (Utf8.encode c)])
                        path segments (S count) Hv Hr2 Hw2)
             as (ops & E & Hwr & Hlen).
           exists ([Makedirs (dirname (targetOf path file));
                    WriteFile (targetOf path file) (Utf8.encode c)] ++ ops).
           split; [|split].
           ++ rewrite E, <- app_assoc. f_equal. cbn [List.length]. lia.
           ++ rewrite writesOf_app, Hwr.
              destruct Hv as (_ & _ & Ht). rewrite (Ht _ Hproper).
              reflexivity.
           ++ rewrite Hlen. reflexivity.
        -- cbn [app List.length writesFor flat_map]. apply IH; assumption.
      * destruct listing as [sub|]; [|discriminate].
        cbn [snd] in Hentry.
        destruct (Hentry pyodide (targetOf path file) (segments ++ [file])
                         Hsafe Hne Hv' Hr1 Hwe)
          as (ops1 & E1 & Hwr1 & Hlen1).
        rewrite E1.
        destruct (IH (pyodide ++ ops1) path segments
                     (count + List.length (stagedBelow (Dir (Some sub))))%nat
                     Hv Hr2 Hw2)
          as (ops & E & Hwr & Hlen).
        exists (ops1 ++ ops).
        cbn [entryStaged]. rewrite Eh, writesFor_under, length_map.
        split; [|split].
        -- rewrite E, <- app_assoc. f_equal. lia.
        -- rewrite writesOf_app, Hwr, Hwr1. reflexivity.
        -- rewrite Hlen. unfold expectedWrites in Hlen1.
           now rewrite Hlen1.
Qed.



Lemma walk_spec D : walkSpec D.
Proof.
  induction D as [content | | | files IH] using Node_ind';
    intros pyodide path segments Hsafe Hne Hv Hr Hw; try discriminate.
  - exists [Makedirs path]. rewrite processDirectory_unfold, create_ok
      by assumption. repeat split.
  - rewrite processDirectory_unfold, create_ok by assumption.
    destruct (entries_spec files IH (pyodide ++ [Makedirs path]) path segments
                           0%nat Hv Hr Hw) as (ops & E & Hwr & Hlen).
    rewrite E. exists ([Makedirs path] ++ ops).
    rewrite <- app_assoc. repeat split; assumption.
Qed.

(** C1.  [loadPythonModules] locates [dir] at the host tree [D].  Nothing
    raises during the walk: outside hidden entries nothing of [D] fails to
    be read, names are plain and contents are text, and the target
    directory name [base] is proper.  Then [loadPythonModules] returns the
    number of files of [D] whose name ends in [.py] and whose path has no
    component beginning with ['.'], and the files written into the runtime
    are exactly those, in listing order, each at the mirrored path below
    [base] with the bytes of its content.  Hidden entries are never looked
    at: for every tree, the walk is the walk of the tree with all hidden
    entries removed. *)
Theorem python_files_staged fs pyodide dir targetDirName moduleDir D base :
  locateDirectory fs dir = Some (moduleDir, D) ->
  orElse targetDirName (Path.basename moduleDir) = base ->
  properName base = true ->
  readable D = true ->
  wellNamed D = true ->
  (exists ops,
     loadPythonModules fs pyodide dir targetDirName
     = (pyodide ++ ops, Some (List.length (stagedBelow D)))
     /\ writesOf ops = expectedWrites [base] D
     /\ List.length (writesOf ops) = List.length (stagedBelow D))
  /\ (forall (T : Node) py path,
        processDirectory py (prune T) path = processDirectory py T path).
Proof.
  intros Hloc Hbase Hproper Hr Hw. split.
  - unfold loadPythonModules. rewrite Hloc, Hbase.
    assert (Hsafe : literalSafe QUOTE (js "./" ++ base) = true).
    { rewrite literalSafe_app, (properName_safe _ Hproper). reflexivity. }
    assert (Hne : js "./" ++ base <> []) by discriminate.
    rewrite create_ok by assumption.
    destruct (walk_spec D (pyodide ++ [Makedirs (js "./" ++ base)])
                        (js "./" ++ base) [base] Hsafe Hne
                        (vdir_root base Hproper) Hr Hw)
      as (ops & E & Hwr & Hlen).
    exists ([Makedirs (js "./" ++ base)] ++ ops).
    rewrite E, <- app_assoc. split; [reflexivity|]. split.
    + rewrite writesOf_app. exact Hwr.
    + rewrite writesOf_app. cbn [writesOf flat_map app]. now rewrite Hwr.
  - intros T py path. apply processDirectory_prune.
Qed.

Lemma python_files_staged_witness :
  (exists ops,
     loadPythonModules projHost [] (js "proj") (Some (js "proj"))
     = ([] ++ ops, Some (List.length (stagedBelow projTree)))
     /\ writesOf ops = expectedWrites [js "proj"] projTree
     /\ List.length (writesOf ops) = List.length (stagedBelow projTree))
  /\ (forall (T : Node) py path,
        processDirectory py (prune T) path = processDirectory py T path).
Proof.
  apply (python_files_staged projHost [] (js "proj") (Some (js "proj"))
           (js "proj") projTree (js "proj")); reflexivity.
Defined.

(** The sample tree has two such files, [a.py] and [sub/b.py]; the one
    below [.cache] is not among them. *)
Lemma projTree_staged :
  map fst (stagedBelow projTree) = [[js "a.py"]; [js "sub"; js "b.py"]]
  /\ map fst (expectedWrites [js "proj"] projTree)
     = [js "proj/a.py"; js "proj/sub/b.py"]
  /\ snd (loadPythonModules projHost [] (js "proj") (Some (js "proj")))
     = Some 2%nat.
Proof. repeat split. Qed.

(** C1, as stated, fails.  Both [a.py] and [b.py] are files of the claim,
    but the content of [a.py] cannot be read: the walk of the directory
    ends there, nothing is transferred and the count is 0, not 2. *)
Lemma unreadable_module_ends_count :
  map fst (stagedBelow MoreSamples.unreadableTree)
  = [[js "a.py"]; [js "b.py"]]
  /\ snd (loadPythonModules MoreSamples.unreadableHost [] (js "pkg")
             (Some (js "pkg")))
     = Some 0%nat
  /\ writesOf (fst (loadPythonModules MoreSamples.unreadableHost []
                      (js "pkg") (Some (js "pkg"))))
     = [].
Proof. repeat split. Qed.

(** *** The count is the number of writes *)













(** *** One write *)


(** The runtime right after the transfer of one file to [target]: it holds
    there the UTF-8 bytes of the content, and it is the runtime that
    [copyFileToPyodide] leaves (through base64), the one the loop of
    [processDirectory] goes on with after a [.py] file, and the one the
    loop of [loadFolder] goes on with after a file (through the JSON
    literal). *)
Lemma written_reads_back pyodide content target :
  Utf8.isText content = true ->
  literalSafe QUOTE target = true ->
  dirname target <> [] ->
  let written :=
    pyodide ++ [Makedirs (dirname target);
                WriteFile target (Utf8.encode content)] in
  readFile written target = Some (Utf8.encode content)
  /\ readText written target = Some (universalNewlines content)
  /\ copyFileToPyodide pyodide (File (Some content)) target
     = (written, Some tt)
  /\ (forall rec path file count rest,
        hidden file = false -> endsWith file DOT_PY = true ->
        targetOf path file = target ->
        processEntries rec path pyodide count
          ((file, File (Some content)) :: rest)
        = processEntries rec path written (S count) rest)
  /\ (forall rec destPath file rest,
        targetOf destPath file = target ->
        loadEntries rec destPath pyodide ((file, File (Some content)) :: rest)
        = loadEntries rec destPath written rest).
Proof.
  intros Ht Hs Hd written.
  assert (Hread : readFile written target = Some (Utf8.encode content)).
  { unfold written.
    change (pyodide ++ [Makedirs (dirname target);
                        WriteFile target (Utf8.encode content)])
      with (pyodide ++ [Makedirs (dirname target)]
                    ++ [WriteFile target (Utf8.encode content)]).
    rewrite app_assoc. apply readFile_last. }
  split; [exact Hread|]. split.
  { unfold readText. rewrite Hread. now rewrite decode_encode. }
  split; [now apply copy_ok|]. split.
  - intros rec path file count rest Hvis Hpy Htarget.
    cbn [processEntries]. change (startsWith file [DOT]) with (hidden file).
    rewrite Hvis, Hpy, Htarget, copy_ok by assumption. reflexivity.
  - intros rec destPath file rest Htarget.
    cbn [loadEntries]. rewrite Htarget, run_folder_write by assumption.
    reflexivity.
Qed.

(** The same text through [loadFolder] into the configuration directory. *)
Lemma tricky_folder_round_trip :
  exists pyodide',
    loadFolderNode [] (Samples.dir [named "shell.yaml" (File (Some trickyText))])
                   (js "/home/pyodide/config")
    = (pyodide', Some tt)
    /\ readText pyodide' (js "/home/pyodide/config/shell.yaml")
       = Some trickyText.
Proof. eexists. split; reflexivity. Qed.

End WalkFacts.

(* ================================================================= *)
(** ** The package name in the nested case *)

Module PackageNameFacts.

Import Python PyodideFs PathFacts PyodideShell Samples.

Lemma split_app_sep a rest :
  Path.split (a ++ SLASH :: rest) = Path.split a ++ Path.split rest.
Proof.
  induction a as [|c a IH]; [reflexivity|].
  cbn [app Path.split]. destruct (c =? SLASH); [now rewrite IH|].
  rewrite IH. destruct (Path.split a) as [|seg segs] eqn:E; [|reflexivity].
  destruct a as [|x a]; simpl in E; [discriminate|].
  destruct (x =? SLASH); [discriminate|]. destruct (Path.split a); discriminate.
Qed.

Lemma normalizeSegments_app allow stack S1 S2 :
  Path.normalizeSegments allow stack (S1 ++ S2)
  = Path.normalizeSegments allow (Path.normalizeSegments allow stack S1) S2.
Proof.
  revert stack. induction S1 as [|s S1 IH]; intros stack; [reflexivity|].
  cbn [app Path.normalizeSegments].
  destruct s; [apply IH|].
  destruct (Path.isDot _); [apply IH|].
  destruct (Path.isDotDot _); [|apply IH].
  destruct stack as [|top below]; [apply IH|].
  destruct (Path.isDotDot top); apply IH.
Qed.

Lemma rev_not_sep b :
  slashFree b -> forallb (fun c => negb (Path.isSep c)) (rev b) = true.
Proof.
  unfold slashFree. rewrite !forallb_forall. intros Hs x Hx.
  apply Hs. now apply in_rev.
Qed.

Lemma dropWhile_none {A} (f : A -> bool) l :
  forallb (fun x => negb (f x)) l = true ->
  forall m, l <> [] -> Path.dropWhile f (l ++ m) = l ++ m.
Proof.
  intros Hl m Hne. destruct l as [|x l]; [contradiction|].
  simpl in Hl. apply andb_true_iff in Hl as [Hx _].
  apply negb_true_iff in Hx. cbn [app Path.dropWhile]. now rewrite Hx.
Qed.

Lemma rev_nonempty {A} (l : list A) : l <> [] -> rev l <> [].
Proof.
  intros Hne E. apply (f_equal (@rev A)) in E.
  rewrite rev_involutive in E. contradiction.
Qed.

Lemma basename_after_sep pre b :
  b <> [] -> slashFree b -> Path.basename (pre ++ SLASH :: b) = b.
Proof.
  intros Hne Hs. unfold Path.basename.
  rewrite rev_app_distr. cbn [rev]. rewrite <- app_assoc. cbn [app].
  rewrite (dropWhile_none Path.isSep (rev b) (rev_not_sep b Hs))
    by now apply rev_nonempty.
  rewrite (ScriptFacts.takeWhile_stop _ (rev b) SLASH (rev pre)
             (rev_not_sep b Hs) eq_refl).
  apply rev_involutive.
Qed.

Lemma takeWhile_all_of {A} (f : A -> bool) l :
  forallb f l = true -> Path.takeWhile f l = l.
Proof.
  induction l as [|x l IH]; intros H; [reflexivity|].
  simpl in H. apply andb_true_iff in H as [Hx Hl].
  cbn [Path.takeWhile]. rewrite Hx. f_equal. now apply IH.
Qed.

Lemma basename_segment b : b <> [] -> slashFree b -> Path.basename b = b.
Proof.
  intros Hne Hs. unfold Path.basename.
  rewrite <- (app_nil_r (rev b)).
  rewrite (dropWhile_none Path.isSep (rev b) (rev_not_sep b Hs))
    by now apply rev_nonempty.
  rewrite app_nil_r, takeWhile_all_of by now apply rev_not_sep.
  apply rev_involutive.
Qed.

(** The last segment joined to a path is the base name of the result. *)
Lemma basename_join P b :
  P <> [] -> kept b -> Path.basename (Path.join [P; b]) = b.
Proof.
  intros HP (Hne & Hs & Hd & Hdd).
  rewrite join_pair by assumption.
  destruct P as [|c P']; [contradiction|].
  set (X := (c :: P') ++ [SLASH] ++ b).
  assert (Hlast : (last X 0 =? SLASH) = false).
  { unfold X. rewrite last_app_nonempty by discriminate.
    cbn [app]. destruct b as [|x b']; [contradiction|].
    change (last (SLASH :: x :: b') 0) with (last (x :: b') 0).
    apply Z.eqb_neq. apply last_slashFree; [discriminate | assumption]. }
  set (allow := negb (c =? SLASH)).
  set (stack := Path.normalizeSegments allow [] (Path.split (c :: P'))).
  assert (Hsegs : Path.normalizeSegments allow [] (Path.split X) = b :: stack).
  { unfold X. cbn [app]. change (c :: P' ++ SLASH :: b)
      with ((c :: P') ++ SLASH :: b).
    rewrite split_app_sep, normalizeSegments_app.
    rewrite (split_slashFree b Hs). fold stack.
    cbn [Path.normalizeSegments]. rewrite Hd, Hdd.
    destruct b; [contradiction | reflexivity]. }
  assert (Hbody : exists pre,
             Path.joinWith [SLASH] (rev (b :: stack)) = pre ++ SLASH :: b
             \/ Path.joinWith [SLASH] (rev (b :: stack)) = b).
  { cbn [rev]. destruct (rev stack) as [|s S] eqn:E.
    - exists []. right. reflexivity.
    - exists (Path.joinWith [SLASH] (s :: S)). left.
      rewrite joinWith_snoc by discriminate. reflexivity. }
  destruct Hbody as (pre & Hbody).
  unfold Path.normalize. fold X.
  assert (HX : X = c :: (P' ++ [SLASH] ++ b)) by reflexivity.
  rewrite Hlast. rewrite HX at 1. fold allow. rewrite Hsegs.
  destruct Hbody as [Hb | Hb]; rewrite Hb.
  - destruct (pre ++ SLASH :: b) eqn:E; [now destruct pre|]. rewrite <- E.
    destruct (c =? SLASH).
    + change (SLASH :: pre ++ SLASH :: b) with ((SLASH :: pre) ++ SLASH :: b).
      now apply basename_after_sep.
    + now apply basename_after_sep.
  - destruct b as [|x b'] eqn:E; [contradiction|]. rewrite <- E in *.
    destruct (c =? SLASH).
    + change (SLASH :: b) with ([] ++ SLASH :: b).
      apply basename_after_sep; [now rewrite E | assumption].
    + apply basename_segment; [now rewrite E | assumption].
Qed.

Lemma takeWhile_forall {A} (f : A -> bool) l x :
  In x (Path.takeWhile f l) -> f x = true.
Proof.
  induction l as [|a l IH]; [contradiction|]. cbn [Path.takeWhile].
  destruct (f a) eqn:E; [|contradiction].
  intros [<- | Hin]; [exact E | now apply IH].
Qed.

Lemma foldedBaseName_slashFree P : slashFree (foldedBaseName P).
Proof.
  unfold slashFree, foldedBaseName, replaceChar. apply forallb_forall.
  intros x Hx. apply in_map_iff in Hx as (y & <- & Hy).
  unfold Path.basename in Hy. apply in_rev in Hy.
  apply takeWhile_forall in Hy. unfold Path.isSep in Hy.
  destruct (y =? HYPHEN); [reflexivity | exact Hy].
Qed.

Lemma foldedBaseName_no_hyphen P :
  replaceChar HYPHEN UNDERSCORE (foldedBaseName P) = foldedBaseName P.
Proof.
  unfold foldedBaseName, replaceChar. rewrite map_map. apply map_ext.
  intros x. destruct (x =? HYPHEN) eqn:E; [reflexivity|]. now rewrite E.
Qed.

(** X1.  In the nested case the package name is the base name of the candidate
    with its hyphens replaced, as long as that is a segment other than
    [.] and [..]: the normalisation asked of the package name is there. *)
Lemma package_name_nested fs proc options P :
  pythonModulePath options = Some P ->
  existsSync fs P = true ->
  let inner := Path.join [P; foldedBaseName P] in
  existsSync fs inner && statIsDirectory fs inner = true ->
  foldedBaseName P <> [] ->
  Path.isDot (foldedBaseName P) = false ->
  Path.isDotDot (foldedBaseName P) = false ->
  resolvePackage fs proc options = Ok (inner, foldedBaseName P)
  /\ replaceChar HYPHEN UNDERSCORE (Path.basename inner) = Path.basename inner.
Proof.
  intros HP Hex inner Hin Hne Hd Hdd.
  assert (Hbase : Path.basename inner = foldedBaseName P).
  { apply basename_join.
    - intros ->. discriminate.
    - repeat split; try assumption. apply foldedBaseName_slashFree. }
  split.
  - unfold resolvePackage, locateVirtualShellDirectory. rewrite HP.
    pose proof (ResolverFacts.existsSync_truthy _ _ Hex) as Ht.
    rewrite Ht, (ResolverFacts.orElse_truthy _ _ Ht), Hex.
    fold inner. rewrite Hin. now rewrite Hbase.
  - rewrite Hbase. apply foldedBaseName_no_hyphen.
Qed.

End PackageNameFacts.

(* ================================================================= *)
(** * Further properties of the code *)

(* ================================================================= *)
(** ** The resolver and the script selection return what is there *)

Module SelectionFacts.

Import PyodideShell ScriptManager Samples MoreSamples.

(** The first element of a list that passes a test. *)
Lemma find_first {A} (f : A -> bool) before x after :
  Forall (fun y => f y = false) before -> f x = true ->
  find f (before ++ x :: after) = Some x.
Proof.
  intros Hb Hx. induction Hb as [|y before Hy _ IH]; cbn [app find].
  - now rewrite Hx.
  - now rewrite Hy.
Qed.

(** A valid module is an existing directory, so the [existsSync] test in
    front of [isValidPythonModule] in the fallback loop changes nothing. *)
Lemma valid_module_exists fs dirPath :
  isValidPythonModule fs dirPath = true ->
  existsSync fs dirPath = true /\ statIsDirectory fs dirPath = true.
Proof.
  unfold isValidPythonModule.
  destruct (existsSync fs dirPath); [|discriminate].
  destruct (statIsDirectory fs dirPath); [|discriminate]. auto.
Qed.

Lemma located_exists fs proc options moduleDir :
  locateVirtualShellDirectory fs proc options = Ok moduleDir ->
  existsSync fs moduleDir = true.
Proof.
  unfold locateVirtualShellDirectory.
  assert (Hfall : searchFallbacks fs proc = Ok moduleDir ->
                  existsSync fs moduleDir = true).
  { unfold searchFallbacks.
    destruct (find _ (possibleLocations proc)) as [l|] eqn:Hf; [|discriminate].
    intros [= <-]. apply find_some in Hf as [_ Hf].
    now apply andb_true_iff in Hf as [Hf _]. }
  destruct (truthy (pythonModulePath options)); [|exact Hfall].
  destruct (existsSync fs (orElse (pythonModulePath options) [])) eqn:Hex;
    [|exact Hfall].
  destruct (existsSync fs _ && statIsDirectory fs _) eqn:Hin.
  - intros [= <-]. now apply andb_true_iff in Hin as [Hin _].
  - intros [= <-]. exact Hex.
Qed.

(** X2.  Whatever [locateVirtualShellDirectory] returns exists on the host,
    and it is one of the locations looked at (the candidate or a fallback
    location) or the inner package directory of the candidate. *)
Theorem located_directory_exists fs proc options moduleDir :
  locateVirtualShellDirectory fs proc options = Ok moduleDir ->
  existsSync fs moduleDir = true
  /\ (In moduleDir (attemptedLocations proc options)
      \/ moduleDir
         = Path.join [orElse (pythonModulePath options) [];
                      foldedBaseName (orElse (pythonModulePath options) [])]).
Proof.
  intros H. split; [now apply located_exists in H|].
  revert H. unfold locateVirtualShellDirectory, attemptedLocations.
  assert (Hfall : searchFallbacks fs proc = Ok moduleDir ->
                  In moduleDir (possibleLocations proc)).
  { unfold searchFallbacks.
    destruct (find _ (possibleLocations proc)) as [l|] eqn:Hf; [|discriminate].
    intros [= <-]. now apply find_some in Hf as [Hf _]. }
  destruct (truthy (pythonModulePath options)).
  - destruct (existsSync fs (orElse (pythonModulePath options) [])).
    + destruct (existsSync fs _ && statIsDirectory fs _).
      * intros [= <-]. now right.
      * intros [= <-]. left. now left.
    + intros H. left. right. now apply Hfall.
  - intros H. left. now apply Hfall.
Qed.

Lemma located_directory_exists_witness :
  existsSync nestedHost (js "proj-x/proj_x") = true
  /\ (In (js "proj-x/proj_x")
         (attemptedLocations proc0 (withModulePath "proj-x"))
      \/ js "proj-x/proj_x"
         = Path.join [orElse (pythonModulePath (withModulePath "proj-x")) [];
                      foldedBaseName
                        (orElse (pythonModulePath (withModulePath "proj-x"))
                                [])]).
Proof.
  exact (located_directory_exists nestedHost proc0 (withModulePath "proj-x")
           (js "proj-x/proj_x") eq_refl).
Defined.

(** X3.  Without a usable candidate the fallback locations are tried in their
    order: the first one that is a valid module is returned, whatever the
    later ones are, and an earlier location that exists without being a
    valid module is passed over. *)
Theorem first_valid_fallback_wins fs proc options before location after :
  noUsableCandidate fs options ->
  possibleLocations proc = before ++ location :: after ->
  Forall (fun l => isValidPythonModule fs l = false) before ->
  isValidPythonModule fs location = true ->
  locateVirtualShellDirectory fs proc options = Ok location.
Proof.
  intros Hcand Hsplit Hbefore Hvalid.
  assert (Hs : searchFallbacks fs proc = Ok location).
  { unfold searchFallbacks. rewrite Hsplit, find_first; [reflexivity| |].
    - revert Hbefore. apply Forall_impl. intros l Hl. rewrite Hl.
      apply andb_false_r.
    - destruct (valid_module_exists _ _ Hvalid) as [He _].
      now rewrite He, Hvalid. }
  unfold locateVirtualShellDirectory.
  destruct Hcand as [Ht | Hex].
  - now rewrite Ht.
  - destruct (truthy (pythonModulePath options)); [|exact Hs].
    now rewrite Hex.
Qed.

Lemma first_valid_fallback_wins_witness :
  locateVirtualShellDirectory siblingHost proc0 noOptions
  = Ok (js "../chuk_virtual_shell").
Proof.
  apply (first_valid_fallback_wins siblingHost proc0 noOptions
           [js "./chuk_virtual_shell"] (js "../chuk_virtual_shell")
           [js "/app/node_modules/chuk-virtual-shell"]).
  - left. reflexivity.
  - reflexivity.
  - repeat constructor.
  - reflexivity.
Defined.

(** X4.  Whatever [getScriptPath] returns exists on the host. *)
Theorem selected_script_exists fs proc options scriptType scriptPath :
  getScriptPath fs proc options scriptType = Ok scriptPath ->
  existsSync fs scriptPath = true.
Proof.
  unfold getScriptPath.
  destruct (truthy (customScriptPath options)
            && existsSync fs (orElse (customScriptPath options) [])) eqn:Hc.
  { intros [= <-]. now apply andb_true_iff in Hc as [_ Hc]. }
  destruct (existsSync fs (Path.join [scriptBasePath proc;
                                      scriptFileNameOf scriptType])) eqn:Hp.
  { intros [= <-]. exact Hp. }
  destruct (find _ _) as [l|] eqn:Hf.
  { intros [= <-]. now apply find_some in Hf as [_ Hf]. }
  destruct (existsSync fs (Path.join [scriptBasePath proc; BASIC_MAIN])) eqn:Hb;
    [|discriminate].
  intros [= <-]. exact Hb.
Qed.

Lemma selected_script_exists_witness :
  existsSync basicOnlyHost (js "/app/python_scripts/pyodide_basic_main.py")
  = true.
Proof.
  exact (selected_script_exists basicOnlyHost proc0 noOptions (js "enhanced")
           (js "/app/python_scripts/pyodide_basic_main.py") eq_refl).
Defined.

(** X5.  When the requested script is missing from the scripts directory, the
    alternate locations are tried in their order and the first that exists
    is returned; the basic script of the scripts directory is not fallen
    back to as long as one alternate holds the requested script. *)
Theorem first_alternate_wins fs proc options scriptType before location after :
  noUsableCustom fs options ->
  existsSync fs (primaryPath proc (scriptFileNameOf scriptType)) = false ->
  alternateLocations proc (scriptFileNameOf scriptType)
  = before ++ location :: after ->
  Forall (fun l => existsSync fs l = false) before ->
  existsSync fs location = true ->
  getScriptPath fs proc options scriptType = Ok location.
Proof.
  intros Hcustom Hprim Hsplit Hbefore Hex. unfold getScriptPath.
  rewrite (ScriptFacts.custom_skipped _ _ Hcustom).
  unfold primaryPath in Hprim. rewrite Hprim, Hsplit.
  now rewrite find_first.
Qed.

Lemma first_alternate_wins_witness :
  getScriptPath alternateHost proc0 noOptions (js "enhanced")
  = Ok (js "/app/pyodide_enhanced_main.py").
Proof.
  apply (first_alternate_wins alternateHost proc0 noOptions (js "enhanced")
           [js "/app/python_scripts/pyodide_enhanced_main.py"]
           (js "/app/pyodide_enhanced_main.py")
           [js "/app/src/pyodide_enhanced_main.py"]).
  - left. reflexivity.
  - reflexivity.
  - reflexivity.
  - repeat constructor.
  - reflexivity.
Defined.

(** The nested case at the sample host. *)
Lemma package_name_nested_witness :
  resolvePackage nestedHost proc0 (withModulePath "proj-x")
  = Ok (Path.join [js "proj-x"; foldedBaseName (js "proj-x")],
        foldedBaseName (js "proj-x"))
  /\ replaceChar HYPHEN UNDERSCORE
       (Path.basename (Path.join [js "proj-x"; foldedBaseName (js "proj-x")]))
     = Path.basename (Path.join [js "proj-x"; foldedBaseName (js "proj-x")]).
Proof.
  apply (PackageNameFacts.package_name_nested nestedHost proc0
           (withModulePath "proj-x") (js "proj-x"));
    (reflexivity || discriminate).
Defined.

End SelectionFacts.

(* ================================================================= *)
(** ** Placeholder substitution on whole scripts *)

Module SubstitutionFacts.

Import ScriptManager ScriptPieces ScriptFacts Samples.

Section Substitution.
Variable options : Options.

#[local] Abbreviation P := (processScriptContent options).
#[local] Abbreviation R := (replacer options).

Lemma includes_here s p : startsWith s p = true -> includes s p = true.
Proof. intros H. destruct s; cbn [includes]; now rewrite H. Qed.

Lemma includes_tail c s p : includes (c :: s) p = false -> includes s p = false.
Proof. cbn [includes]. intros H. now apply orb_false_iff in H as [_ H]. Qed.

Lemma includes_suffix a b p : includes (a ++ b) p = false -> includes b p = false.
Proof.
  induction a as [|c a IH]; [trivial|]. intros H. apply IH.
  now apply includes_tail in H.
Qed.

Lemma replacer_unknown match_ name :
  Js.eqb name KEY_OPTIONS_DEFAULT_SANDBOX = false ->
  Js.eqb name KEY_DEFAULT_SANDBOX = false ->
  R match_ name = match_.
Proof. intros H1 H2. unfold replacer. now rewrite H1, H2. Qed.

(** Strong induction on the length of a string. *)
Lemma length_ind (Q : jsstring -> Prop) :
  (forall s, (forall t, (List.length t < List.length s)%nat -> Q t) -> Q s) ->
  forall s, Q s.
Proof.
  intros H s. remember (List.length s) as n eqn:E. revert s E.
  induction n as [n IH] using lt_wf_ind. intros s ->.
  apply H. intros t Ht. now apply (IH (List.length t)).
Qed.

Lemma placeholder_length name post :
  (List.length post < List.length (placeholder name ++ post))%nat.
Proof. unfold placeholder. rewrite !length_app. simpl. lia. Qed.

(** X6.  A script that holds neither [${defaultSandbox}] nor
    [${options.defaultSandbox}] is returned as it is, whatever other
    placeholders, dollars and braces it holds and whatever the option is. *)
Theorem script_without_key_placeholder_unchanged content :
  includes content (placeholder KEY_DEFAULT_SANDBOX) = false ->
  includes content (placeholder KEY_OPTIONS_DEFAULT_SANDBOX) = false ->
  P content = content.
Proof.
  pattern content. apply length_ind. clear content. intros s IH H1 H2.
  destruct s as [|c r]; [reflexivity|].
  destruct (matchPlaceholder (c :: r)) as [v|] eqn:Hm.
  - apply matchPlaceholder_inv in Hm as (r' & Hr & Hv1 & Hv2).
    rewrite Hr in *. rewrite process_match by assumption.
    assert (Hk1 : Js.eqb v KEY_DEFAULT_SANDBOX = false).
    { destruct (Js.eqb v KEY_DEFAULT_SANDBOX) eqn:E; [|reflexivity].
      apply eqb_eq in E. subst v.
      rewrite includes_here in H1 by apply startsWith_app. discriminate. }
    assert (Hk2 : Js.eqb v KEY_OPTIONS_DEFAULT_SANDBOX = false).
    { destruct (Js.eqb v KEY_OPTIONS_DEFAULT_SANDBOX) eqn:E; [|reflexivity].
      apply eqb_eq in E. subst v.
      rewrite includes_here in H2 by apply startsWith_app. discriminate. }
    rewrite replacer_unknown by assumption. f_equal.
    apply IH.
    + apply placeholder_length.
    + now apply includes_suffix in H1.
    + now apply includes_suffix in H2.
  - rewrite process_nomatch by assumption. f_equal.
    apply IH; [simpl; lia | now apply includes_tail in H1
               | now apply includes_tail in H2].
Qed.

(** *** Processing two pieces of a script *)


Lemma endsWithDollar_cons c s :
  s <> [] -> endsWithDollar (c :: s) = endsWithDollar s.
Proof.
  intros Hs. unfold endsWithDollar, endsWith. cbn [rev].
  destruct (rev s) as [|x t] eqn:E.
  - apply (f_equal (@rev Z)) in E. rewrite rev_involutive in E. contradiction.
  - reflexivity.
Qed.

Lemma endsWithDollar_app a b :
  b <> [] -> endsWithDollar (a ++ b) = endsWithDollar b.
Proof.
  intros Hb. induction a as [|c a IH]; [reflexivity|].
  cbn [app]. rewrite endsWithDollar_cons; [exact IH|].
  intros E. apply app_eq_nil in E as [_ E]. contradiction.
Qed.


Lemma seamless_suffix a1 a2 b :
  seamless (a1 ++ a2) b = true -> seamless a2 b = true.
Proof.
  unfold seamless. destruct a2 as [|c a2].
  - intros _. unfold endsWithDollar, endsWith. reflexivity.
  - rewrite endsWithDollar_app by discriminate. trivial.
Qed.

Lemma matchPlaceholder_app_some a b v :
  matchPlaceholder a = Some v -> matchPlaceholder (a ++ b) = Some v.
Proof.
  intros Hm. apply matchPlaceholder_inv in Hm as (r & -> & Hv1 & Hv2).
  rewrite <- app_assoc. now apply matchPlaceholder_placeholder.
Qed.

Lemma matchPlaceholder_app_none a b :
  matchPlaceholder a = None -> unterminated a = false ->
  seamless a b = true -> a <> [] ->
  matchPlaceholder (a ++ b) = None.
Proof.
  intros Hm Hu Hs Hne. destruct a as [|c r]; [contradiction|].
  destruct r as [|d w].
  - (* one character *)
    cbn [app]. destruct b as [|x b]; [reflexivity|].
    cbn [matchPlaceholder].
    destruct (Z.eqb_spec c DOLLAR) as [->|]; [|reflexivity].
    unfold seamless, endsWithDollar, endsWith in Hs. cbn in Hs.
    rewrite andb_true_r in Hs. apply negb_true_iff in Hs.
    rewrite Hs. reflexivity.
  - cbn [app matchPlaceholder] in *.
    destruct (c =? DOLLAR) eqn:Ec; [|reflexivity].
    destruct (d =? LBRACE) eqn:Ed; [|reflexivity].
    cbn [andb] in *. apply Z.eqb_eq in Ec, Ed. subst c d.
    cbn [unterminated] in Hu. apply orb_false_iff in Hu as [Hu _].
    assert (E : startsWith (DOLLAR :: LBRACE :: w) [DOLLAR; LBRACE] = true)
      by reflexivity.
    rewrite E in Hu. cbn in Hu.
    (* a ['}'] occurs in [w] *)
    pose proof (takeWhile_dropWhile notRBrace w) as Hsp.
    destruct (Path.dropWhile notRBrace w) as [|x t] eqn:Edr.
    { apply dropWhile_nil in Edr. congruence. }
    pose proof (dropWhile_head _ _ _ _ Edr) as Hx.
    pose proof (takeWhile_all notRBrace w) as Ht.
    rewrite <- Hsp, <- app_assoc. cbn [app].
    rewrite takeWhile_stop, dropWhile_stop by assumption.
    destruct (Path.takeWhile notRBrace w); [reflexivity | discriminate].
Qed.

Lemma unterminated_tail c r : unterminated (c :: r) = false -> unterminated r = false.
Proof. cbn [unterminated]. intros H. now apply orb_false_iff in H as [_ H]. Qed.

Lemma unterminated_after_placeholder v r :
  unterminated (placeholder v ++ r) = unterminated r.
Proof.
  unfold placeholder. rewrite <- !app_assoc.
  change ([DOLLAR; LBRACE] ++ v ++ [RBRACE] ++ r)
    with (([DOLLAR; LBRACE] ++ v) ++ RBRACE :: r).
  apply unterminated_after_rbrace.
Qed.

(** X7.  A script made of two pieces is processed piece by piece, as long as
    no [${] of the first piece is left unterminated and the pieces do not
    make a [${] between them. *)
Theorem script_processed_piecewise a b :
  unterminated a = false -> seamless a b = true ->
  P (a ++ b) = P a ++ P b.
Proof.
  pattern a. apply length_ind. clear a. intros s IH Hu Hs.
  destruct s as [|c r]; [reflexivity|].
  destruct (matchPlaceholder (c :: r)) as [v|] eqn:Hm.
  - pose proof (matchPlaceholder_app_some _ b _ Hm) as Hm'.
    apply matchPlaceholder_inv in Hm as (r' & Hr & Hv1 & Hv2).
    rewrite Hr in *. rewrite <- app_assoc.
    rewrite !process_match by assumption.
    rewrite IH, <- app_assoc; [reflexivity | apply placeholder_length | |].
    + now rewrite unterminated_after_placeholder in Hu.
    + now apply seamless_suffix in Hs.
  - pose proof (matchPlaceholder_app_none _ b Hm Hu Hs ltac:(discriminate))
      as Hm'.
    cbn [app] in *. rewrite !process_nomatch by assumption.
    rewrite IH; [reflexivity | simpl; lia | now apply unterminated_tail in Hu|].
    change (c :: r) with ([c] ++ r) in Hs. now apply seamless_suffix in Hs.
Qed.

(** Every character of the processed script is a character of the script
    or of the substituted value. *)
Lemma processed_characters (Q : Z -> Prop) content :
  Forall Q content -> Forall Q (orElse (defaultSandbox options) AI_SANDBOX) ->
  Forall Q (P content).
Proof.
  intros Hc Hv. revert Hc. pattern content. apply length_ind. clear content.
  intros s IH Hc.
  destruct s as [|c r]; [constructor|].
  destruct (matchPlaceholder (c :: r)) as [v|] eqn:Hm.
  - apply matchPlaceholder_inv in Hm as (r' & Hr & Hv1 & Hv2).
    rewrite Hr in *. rewrite process_match by assumption.
    apply Forall_app in Hc as [Hp Hr'].
    apply Forall_app. split.
    + unfold replacer. destruct (_ || _); assumption.
    + apply IH; [apply placeholder_length | assumption].
  - rewrite process_nomatch by assumption.
    inversion_clear Hc as [|? ? Hc1 Hc2]. constructor; [assumption|].
    apply IH; [simpl; lia | assumption].
Qed.

End Substitution.

Lemma script_without_key_placeholder_unchanged_witness :
  processScriptContent (withSandbox (Some (js "prod")))
    (js "print(f'${HOME} {x} $ ${defaultSandbox')")
  = js "print(f'${HOME} {x} $ ${defaultSandbox')".
Proof.
  apply (script_without_key_placeholder_unchanged
           (withSandbox (Some (js "prod")))); reflexivity.
Defined.

Lemma script_processed_piecewise_witness :
  processScriptContent (withSandbox (Some (js "prod")))
    (js "a = '${defaultSandbox}'; b = $" ++ js "${options.defaultSandbox}")
  = processScriptContent (withSandbox (Some (js "prod")))
      (js "a = '${defaultSandbox}'; b = $")
    ++ processScriptContent (withSandbox (Some (js "prod")))
         (js "${options.defaultSandbox}").
Proof.
  apply (script_processed_piecewise (withSandbox (Some (js "prod"))));
    reflexivity.
Defined.

End SubstitutionFacts.

(* ================================================================= *)
(** ** [loadFolder]: the whole folder or nothing *)

Module FolderFacts.

Import Python PyodideFs PathFacts EncodingFacts RuntimeFacts WalkFacts.
Import FolderModel Samples.

Lemma loadFolderNode_unfold pyodide folder destPath :
  loadFolderNode pyodide folder destPath
  = match createPyodideDirectory pyodide destPath with
    | (pyodide1, None) => (pyodide1, None)
    | (pyodide1, Some _) =>
        match folder with
        | Dir (Some files) =>
            loadEntries loadFolderNode destPath pyodide1 files
        | _ => (pyodide1, None)
        end
    end.
Proof. destruct folder; reflexivity. Qed.

(** *** Absolute paths *)

Lemma normalizeSegments_kept_below stack S :
  Forall kept S -> Path.normalizeSegments false stack S = rev S ++ stack.
Proof.
  revert stack. induction S as [|s S IH]; intros stack Hall; [reflexivity|].
  inversion_clear Hall as [|? ? (Hne & _ & Hd & Hdd) HS].
  cbn [Path.normalizeSegments]. rewrite Hd, Hdd.
  destruct s; [contradiction|]. rewrite IH by assumption.
  cbn [rev]. now rewrite <- app_assoc.
Qed.

Lemma last_cons_nonempty {A} (x : A) l d : l <> [] -> last (x :: l) d = last l d.
Proof. destruct l; [contradiction | reflexivity]. Qed.

Lemma normalize_absolute S :
  S <> [] -> Forall kept S ->
  Path.normalize (SLASH :: Path.joinWith [SLASH] S)
  = SLASH :: Path.joinWith [SLASH] S.
Proof.
  intros Hne Hall.
  assert (Hj : Path.joinWith [SLASH] S <> [])
    by (apply joinWith_nonempty; [assumption | now apply kept_hd]).
  assert (Ht : (last (SLASH :: Path.joinWith [SLASH] S) 0 =? SLASH) = false).
  { rewrite last_cons_nonempty by assumption.
    rewrite last_joinWith by now apply kept_last.
    apply Z.eqb_neq. apply last_slashFree; [now apply kept_last|].
    assert (Hin : In (last S []) S).
    { destruct S as [|x S]; [contradiction|]. clear. revert x.
      induction S as [|y S IH]; intros x; [now left | right; apply IH]. }
    exact (proj1 (proj2 (proj1 (Forall_forall _ _) Hall _ Hin))). }
  unfold Path.normalize. rewrite Ht.
  change (SLASH =? SLASH) with true. cbn [negb Path.split].
  change (SLASH =? SLASH) with true. cbv iota.
  cbn [Path.normalizeSegments].
  rewrite split_joinWith by (try assumption; now apply kept_slashFree).
  rewrite normalizeSegments_kept_below by assumption.
  rewrite app_nil_r, rev_involutive.
  destruct (Path.joinWith [SLASH] S); [contradiction | reflexivity].
Qed.

Lemma join_nested_absolute S file :
  S <> [] -> Forall kept S -> kept file ->
  Path.join [SLASH :: Path.joinWith [SLASH] S; file]
  = SLASH :: Path.joinWith [SLASH] (S ++ [file]).
Proof.
  intros Hne Hall Hf.
  rewrite join_pair; [|discriminate | exact (proj1 Hf)].
  change ((SLASH :: Path.joinWith [SLASH] S) ++ [SLASH] ++ file)
    with (SLASH :: (Path.joinWith [SLASH] S ++ [SLASH] ++ file)).
  rewrite <- joinWith_snoc by assumption.
  apply normalize_absolute.
  - destruct S; discriminate.
  - apply Forall_app. split; [assumption | now constructor].
Qed.

Lemma dropWhile_keeps {A} (f : A -> bool) l x :
  In x l -> f x = false -> Path.dropWhile f l <> [].
Proof.
  induction l as [|y l IH]; intros Hin Hx; [contradiction|].
  cbn [Path.dropWhile]. destruct (f y) eqn:Ey; [|discriminate].
  destruct Hin as [-> | Hin]; [congruence | now apply IH].
Qed.

Lemma rev_nonempty_list {A} (l : list A) : l <> [] -> rev l <> [].
Proof.
  intros Hne E. apply (f_equal (@rev A)) in E.
  rewrite rev_involutive in E. contradiction.
Qed.

(** [os.path.dirname] of a path with a separator is not empty. *)
Lemma dirname_with_separator p : In SLASH p -> dirname p <> [].
Proof.
  intros Hin. unfold dirname.
  generalize (dropWhile_keeps (fun c => negb (Path.isSep c)) (rev p) SLASH
                (proj1 (in_rev _ _) Hin) eq_refl).
  generalize (Path.dropWhile (fun c => negb (Path.isSep c)) (rev p)).
  intros kept0 Hkept. set (head := rev kept0).
  assert (Hhead : head <> []).
  { now apply rev_nonempty_list. }
  destruct (forallb Path.isSep head) eqn:Eall; [assumption|].
  apply rev_nonempty_list.
  assert (Hex : exists y, In y head /\ Path.isSep y = false).
  { clear - Eall. induction head as [|y h IH]; [discriminate|].
    cbn [forallb] in Eall. destruct (Path.isSep y) eqn:Ey.
    - destruct (IH Eall) as (z & Hz & Hs). exists z. split; [now right | assumption].
    - exists y. split; [now left | assumption]. }
  destruct Hex as (y & Hy & Hs).
  apply (dropWhile_keeps _ _ y); [|assumption].
  apply (proj1 (in_rev _ _)). exact Hy.
Qed.

(** *** Directories of the runtime *)

Lemma mirrors_relative path S : vdir path S -> mirrors false path S.
Proof. intros H. exact H. Qed.

Lemma rootOf_safe absolute : literalSafe QUOTE (rootOf absolute) = true.
Proof. now destruct absolute. Qed.

Lemma mirrors_nested absolute S :
  S <> [] -> Forall (fun s => properName s = true) S ->
  mirrors absolute (rootOf absolute ++ Path.joinWith [SLASH] S) S.
Proof.
  intros Hne HS. destruct absolute; [|now apply vdir_nested].
  split; [assumption|]. split; [assumption|].
  intros file Hf. unfold targetOf. cbn [rootOf app].
  rewrite join_nested_absolute;
    [| assumption | now apply proper_kept | now apply properName_kept].
  apply replaceChar_absent, literalSafe_no_backslash.
  change (SLASH :: Path.joinWith [SLASH] (S ++ [file]))
    with ([SLASH] ++ Path.joinWith [SLASH] (S ++ [file])).
  rewrite literalSafe_app, proper_safe by now apply proper_snoc.
  reflexivity.
Qed.

Lemma mirrors_step absolute path S file :
  mirrors absolute path S -> properName file = true ->
  let target := targetOf path file in
  mirrors absolute target (S ++ [file])
  /\ literalSafe QUOTE target = true
  /\ target <> []
  /\ dirname target <> [].
Proof.
  intros (Hne & HS & Ht) Hf target. unfold target. rewrite (Ht _ Hf).
  assert (HS' : Forall (fun s => properName s = true) (S ++ [file]))
    by now apply proper_snoc.
  assert (Hne' : S ++ [file] <> []) by (destruct S; discriminate).
  assert (Hj : Path.joinWith [SLASH] (S ++ [file]) <> []).
  { apply joinWith_nonempty; [assumption|].
    apply kept_hd; [assumption | now apply proper_kept]. }
  split; [now apply mirrors_nested|]. split; [|split].
  - rewrite literalSafe_app, rootOf_safe, proper_safe by assumption.
    reflexivity.
  - intros E. apply app_eq_nil in E as [_ E]. contradiction.
  - destruct absolute.
    + apply dirname_with_separator. now left.
    + apply dirname_joinWith; [assumption | now apply proper_kept].
Qed.

(** *** The writes, entry by entry *)

Lemma folderWrites_cons absolute segments name entry rest :
  folderWrites absolute segments (Dir (Some ((name, entry) :: rest)))
  = match entry with
    | File (Some content) =>
        [(rootOf absolute ++ Path.joinWith [SLASH] (segments ++ [name]),
          Utf8.encode content)]
    | File None => []
    | _ => folderWrites absolute (segments ++ [name]) entry
    end
    ++ folderWrites absolute segments (Dir (Some rest)).
Proof.
  unfold folderWrites. cbn [filesBelow flat_map fst snd].
  rewrite writesFor_app, map_app. f_equal.
  destruct entry as [[content|] | listing | ]; try reflexivity.
  now rewrite writesFor_under.
Qed.

Lemma folder_entries_spec files :
  Forall (fun e => folderSpec (snd e)) files ->
  forall pyodide absolute path segments,
    mirrors absolute path segments ->
    intact (Dir (Some files)) = true ->
    folderNamed (Dir (Some files)) = true ->
    exists ops,
      loadEntries loadFolderNode path pyodide files
      = (pyodide ++ ops, Some tt)
      /\ writesOf ops = folderWrites absolute segments (Dir (Some files)).
Proof.
  induction 1 as [|[file entry] rest Hentry _ IH];
    intros pyodide absolute path segments Hm Hi Hn.
  - exists []. now rewrite app_nil_r.
  - cbn [intact folderNamed forallb fst snd] in Hi, Hn.
    apply andb_true_iff in Hi as [Hi1 Hi2].
    apply andb_true_iff in Hn as [Hn1 Hn2].
    apply andb_true_iff in Hn1 as [Hproper Hne].
    destruct (mirrors_step absolute path segments file Hm Hproper)
      as (Hm' & Hsafe & Hnonempty & Hdir).
    rewrite folderWrites_cons. cbn [loadEntries].
    destruct entry as [[content|] | [sub|] | ]; try discriminate.
    + cbn [folderNamed] in Hne.
      rewrite run_folder_write by assumption.
      destruct (IH (pyodide ++ [Makedirs (dirname (targetOf path file));
                                WriteFile (targetOf path file)
                                          (Utf8.encode content)])
                   absolute path segments Hm Hi2 Hn2) as (ops & E & Hwr).
      exists ([Makedirs (dirname (targetOf path file));
               WriteFile (targetOf path file) (Utf8.encode content)] ++ ops).
      split.
      * now rewrite E, <- app_assoc.
      * rewrite writesOf_app, Hwr.
        destruct Hm as (_ & _ & Ht). now rewrite (Ht _ Hproper).
    + cbn [snd] in Hentry.
      destruct (Hentry pyodide absolute (targetOf path file)
                       (segments ++ [file]) Hsafe Hnonempty Hm' Hi1 Hne
                       (ex_intro _ sub eq_refl)) as (ops1 & E1 & Hwr1).
      rewrite E1.
      destruct (IH (pyodide ++ ops1) absolute path segments Hm Hi2 Hn2)
        as (ops & E & Hwr).
      exists (ops1 ++ ops). split.
      * now rewrite E, <- app_assoc.
      * now rewrite writesOf_app, Hwr, Hwr1.
Qed.

Lemma folder_spec D : folderSpec D.
Proof.
  induction D as [content | | | files IH] using Node_ind';
    intros pyodide absolute path segments Hsafe Hne Hm Hi Hn [fs E];
    try discriminate.
  rewrite loadFolderNode_unfold, create_ok by assumption.
  destruct (folder_entries_spec files IH (pyodide ++ [Makedirs path])
                                absolute path segments Hm Hi Hn)
    as (ops & E' & Hwr).
  rewrite E'. exists ([Makedirs path] ++ ops).
  rewrite <- app_assoc. split; [reflexivity | assumption].
Qed.

(** X8.  [loadFolder] of an existing folder whose every entry can be read
    writes every file below it, hidden files and files of any extension
    included, at the mirrored path below the destination directory, with
    the bytes of its content, in listing order; it writes nothing else.
    The destination is the directory of the runtime named by [segments],
    relative or absolute. *)
Theorem folder_loaded_whole fs pyodide folderPath files absolute segments :
  existsSync fs folderPath = true ->
  resolve fs folderPath = Some (Dir (Some files)) ->
  segments <> [] -> Forall (fun s => properName s = true) segments ->
  intact (Dir (Some files)) = true ->
  folderNamed (Dir (Some files)) = true ->
  exists ops,
    loadFolder fs pyodide folderPath
               (rootOf absolute ++ Path.joinWith [SLASH] segments)
    = (pyodide ++ ops, Some tt)
    /\ writesOf ops = folderWrites absolute segments (Dir (Some files)).
Proof.
  intros Hex Hres Hne HS Hi Hn. unfold loadFolder. rewrite Hex, Hres.
  apply folder_spec; try assumption.
  - rewrite literalSafe_app, rootOf_safe, proper_safe by assumption.
    reflexivity.
  - intros E. apply app_eq_nil in E as [_ E]. revert E.
    apply joinWith_nonempty; [assumption|].
    apply kept_hd; [assumption | now apply proper_kept].
  - now apply mirrors_nested.
  - now exists files.
Qed.

Lemma folder_loaded_whole_witness :
  exists ops,
    loadFolder projHost [] (js "proj")
               (rootOf true ++ Path.joinWith [SLASH] CONFIG_SEGMENTS)
    = ([] ++ ops, Some tt)
    /\ writesOf ops
       = folderWrites true CONFIG_SEGMENTS (Dir (Some (listingOf projTree))).
Proof.
  apply (folder_loaded_whole projHost [] (js "proj") (listingOf projTree)
           true CONFIG_SEGMENTS); try reflexivity.
  - discriminate.
  - apply Forall_cons; [reflexivity|].
    apply Forall_cons; [reflexivity|].
    apply Forall_cons; [reflexivity | apply Forall_nil].
Defined.

(** In the sample tree the hidden [.cache/x.py] and [sub/notes.txt] are
    written as well. *)
Lemma projTree_folder_writes :
  map fst (folderWrites true CONFIG_SEGMENTS projTree)
  = [ js "/home/pyodide/config/a.py";
      js "/home/pyodide/config/.cache/x.py";
      js "/home/pyodide/config/sub/b.py";
      js "/home/pyodide/config/sub/notes.txt" ].
Proof. reflexivity. Qed.

(** *** Failure *)









(** In the sample folder the file listed before the dangling link is
    written and stays, the one after it is not. *)
Lemma dangling_folder_keeps_first_write :
  map fst (writesOf (fst (loadFolder danglingHost [] (js "config")
                                       (js "/home/pyodide/config"))))
  = [js "/home/pyodide/config/a.py"].
Proof. reflexivity. Qed.

End FolderFacts.

(* ================================================================= *)
(** ** What is read back at the end of a transfer *)

Module RoundTripFacts.

Import Python PyodideFs PathFacts EncodingFacts RuntimeFacts WalkFacts.
Import FolderModel FolderFacts RoundTrip Samples.

(** *** The latest write *)





(** *** Distinct names give distinct targets *)






(** *** The paths below a node *)











(** *** The runtime at the end *)







(** In text mode a carriage return does not come back: the bytes of
    [crlf.py] keep it, the text read gives a line feed alone. *)
Lemma carriage_return_read_as_line_feed :
  readText (fst (loadPythonModules trickyHost [] (js "pkg") (Some (js "pkg"))))
           (js "pkg/sub/crlf.py")
  = Some (js "a = 1" ++ [NEWLINE] ++ js "b = 2").
Proof. reflexivity. Qed.

End RoundTripFacts.

(* ================================================================= *)
(** ** The line editor *)

Module IoFacts.

Import IoHandlers.

Ltac units :=
  unfold printable, CR, LF, ETX, DEL, BS, SPACE, TILDE in *;
  repeat match goal with
         | H : _ && _ = true |- _ => apply andb_true_iff in H as [? ?]
         | H : (_ <=? _) = true |- _ => apply Z.leb_le in H
         | H : (_ <? _) = true |- _ => apply Z.ltb_lt in H
         | H : (_ <=? _) = false |- _ => apply Z.leb_gt in H
         | H : (_ <? _) = false |- _ => apply Z.ltb_ge in H
         end;
  repeat match goal with
         | |- context [?a =? ?b] => destruct (Z.eqb_spec a b); try lia
         | |- context [?a <? ?b] => destruct (Z.ltb_spec a b); try lia
         | |- context [?a <=? ?b] => destruct (Z.leb_spec a b); try lia
         end;
  cbn [andb orb negb]; try reflexivity.

Lemma eqb_single c k : Js.eqb [c] [k] = (c =? k).
Proof. cbn [Js.eqb]. apply andb_true_r. Qed.

Lemma eqb_long x y rest k : Js.eqb (x :: y :: rest) [k] = false.
Proof. cbn [Js.eqb]. apply andb_false_r. Qed.

Lemma onData_single t c :
  onData t [c]
  = if (c =? CR) || (c =? LF) then finish t [LF] (input t)
    else if c =? ETX then finish t (js "^C" ++ [LF]) []
    else if (c =? DEL) || (c =? BS) then
      match input t with [] => t | _ :: _ => erased t end
    else if printable c then typed t [c] else t.
Proof.
  unfold onData. rewrite !eqb_single.
  replace (geb [c] [SPACE] && leb [c] [TILDE]) with (printable c);
    [reflexivity|].
  unfold geb, leb, ltb. units.
Qed.

Lemma onData_printable t c :
  printable c = true -> onData t [c] = typed t [c].
Proof.
  intros H. rewrite onData_single, H. units.
Qed.

Lemma feed_app t a b : feed t (a ++ b) = feed (feed t a) b.
Proof.
  revert t. induction a as [|char a IH]; intros t; [reflexivity|].
  cbn [app feed]. destruct (listening t) eqn:E; [apply IH|].
  destruct b; cbn [feed]; now rewrite ?E.
Qed.

Lemma feed_keys t line :
  listening t = true -> forallb printable line = true ->
  feed t (keys line)
  = {| input := input t ++ line; written := written t ++ keys line;
       rawMode := rawMode t; paused := paused t; listening := true;
       resolved := resolved t |}.
Proof.
  revert t. induction line as [|c line IH]; intros t Hl Hp.
  - cbn [keys map feed]. rewrite !app_nil_r. destruct t. cbn in *. now subst.
  - cbn [forallb] in Hp. apply andb_true_iff in Hp as [Hc Hp].
    cbn [keys map feed]. rewrite Hl, onData_printable by assumption.
    change (map (fun c => [c]) line) with (keys line).
    rewrite IH by assumption. cbn [typed input written rawMode paused resolved].
    now rewrite <- !app_assoc.
Qed.

(** X10.  Keys of printable characters followed by Enter (a carriage return or
    a line feed): each key is echoed as it is typed, then a line feed is
    written, the terminal leaves raw mode and is paused, the handler is
    removed, and the promise resolves with the typed line. *)
Theorem typed_line_submitted line enter :
  forallb printable line = true ->
  enter = CR \/ enter = LF ->
  feed start (keys line ++ [[enter]])
  = {| input := line; written := keys line ++ [[LF]]; rawMode := false;
       paused := true; listening := false; resolved := Some line |}.
Proof.
  intros Hp He. rewrite feed_app, feed_keys by (reflexivity || assumption).
  cbn [feed listening]. rewrite onData_single.
  replace ((enter =? CR) || (enter =? LF)) with true
    by (destruct He as [-> | ->]; reflexivity).
  reflexivity.
Qed.

Lemma typed_line_submitted_witness :
  feed start (keys (js "ls -la ~") ++ [[CR]])
  = {| input := js "ls -la ~"; written := keys (js "ls -la ~") ++ [[LF]];
       rawMode := false; paused := true; listening := false;
       resolved := Some (js "ls -la ~") |}.
Proof.
  apply (typed_line_submitted (js "ls -la ~") CR); [reflexivity | now left].
Defined.

(** X11.  Keys of printable characters followed by Ctrl+C: what was typed is
    thrown away, [^C] and a line feed are written, the terminal is given
    back and the promise resolves with the empty string (no exception and
    no signal reaches the caller). *)
Theorem interrupted_line_discarded line :
  forallb printable line = true ->
  feed start (keys line ++ [[ETX]])
  = {| input := []; written := keys line ++ [js "^C" ++ [LF]];
       rawMode := false; paused := true; listening := false;
       resolved := Some [] |}.
Proof.
  intros Hp. rewrite feed_app, feed_keys by (reflexivity || assumption).
  cbn [feed listening]. now rewrite onData_single.
Qed.

Lemma interrupted_line_discarded_witness :
  feed start (keys (js "rm -rf") ++ [[ETX]])
  = {| input := []; written := keys (js "rm -rf") ++ [js "^C" ++ [LF]];
       rawMode := false; paused := true; listening := false;
       resolved := Some [] |}.
Proof.
  apply (interrupted_line_discarded (js "rm -rf")). reflexivity.
Defined.

(** X12.  A chunk of two or more units (pasted text, an escape sequence, the
    pair CR LF) never ends the prompt and never erases: it is appended to
    the line and echoed whole, control characters included, when its
    first unit is from the space to ['}'], and dropped otherwise. *)
Theorem long_chunk_never_submits t x y rest :
  onData t (x :: y :: rest)
  = if (SPACE <=? x) && (x <? TILDE) then typed t (x :: y :: rest) else t.
Proof.
  unfold onData. rewrite !eqb_long. cbn [orb].
  replace (geb (x :: y :: rest) [SPACE] && leb (x :: y :: rest) [TILDE])
    with ((SPACE <=? x) && (x <? TILDE)); [reflexivity|].
  unfold geb, leb. cbn [ltb]. units.
Qed.

(** X13.  Backspace (DEL or BS) after a printable key undoes the key and
    writes the erasing sequence; on an empty line it does nothing and
    writes nothing. *)
Theorem backspace_undoes_key t c bs :
  printable c = true -> bs = DEL \/ bs = BS ->
  onData (onData t [c]) [bs]
  = {| input := input t; written := written t ++ [[c]; ERASE];
       rawMode := rawMode t; paused := paused t; listening := listening t;
       resolved := resolved t |}
  /\ (input t = [] -> onData t [bs] = t).
Proof.
  intros Hc Hb.
  assert (Hbs : forall u, onData u [bs]
                          = match input u with [] => u | _ :: _ => erased u end).
  { intros u. rewrite onData_single.
    destruct Hb as [-> | ->]; reflexivity. }
  split.
  - rewrite (onData_printable t c) by assumption. rewrite Hbs.
    destruct (input (typed t [c])) eqn:E.
    + cbn [typed input] in E. now apply app_eq_nil in E as [_ E].
    + unfold erased, typed.
      cbn [input written rawMode paused listening resolved].
      now rewrite removelast_last, <- app_assoc.
  - intros He. now rewrite Hbs, He.
Qed.

Lemma backspace_undoes_key_witness :
  onData (onData start [97]) [DEL]
  = {| input := []; written := [[97]; ERASE];
       rawMode := true; paused := false; listening := true;
       resolved := None |}
  /\ (input start = [] -> onData start [DEL] = start).
Proof.
  apply (backspace_undoes_key start 97 DEL); [reflexivity | now left].
Defined.

(** *** Invariants of a prompt *)


Lemma onData_consistent t char :
  consistent t -> listening t = true -> consistent (onData t char).
Proof.
  intros (H1 & H2 & H3) Hl.
  assert (Hdone : forall text value, consistent (finish t text value)).
  { intros text value. repeat split; cbn; discriminate. }
  assert (Hsame : forall u, rawMode u = rawMode t -> paused u = paused t ->
                            listening u = listening t ->
                            resolved u = resolved t -> consistent u).
  { intros u E1 E2 E3 E4. unfold consistent. now rewrite E1, E2, E3, E4. }
  unfold onData.
  destruct (_ || _); [apply Hdone|].
  destruct (Js.eqb char [ETX]); [apply Hdone|].
  destruct (_ || _).
  - destruct (input t); [|apply Hsame; reflexivity].
    exact (conj H1 (conj H2 H3)).
  - destruct (_ && _); [apply Hsame; reflexivity|].
    exact (conj H1 (conj H2 H3)).
Qed.

Lemma feed_consistent chunks t : consistent t -> consistent (feed t chunks).
Proof.
  revert t. induction chunks as [|char rest IH]; intros t Ht; [assumption|].
  cbn [feed]. destruct (listening t) eqn:E; [|assumption].
  apply IH. now apply onData_consistent.
Qed.

(** X14.  Whatever [process.stdin] emits after [input] was called, the
    terminal is in raw mode and flowing exactly as long as the promise is
    pending: raw mode is never left on after the promise resolved, and
    never given up before. *)
Theorem raw_mode_while_pending chunks :
  let t := feed start chunks in
  (resolved t = None <-> rawMode t = true)
  /\ paused t = negb (rawMode t)
  /\ listening t = rawMode t.
Proof.
  destruct (feed_consistent chunks start) as (H1 & H2 & H3).
  { repeat split; cbn; trivial; discriminate. }
  cbv zeta. rewrite H1. repeat split; try assumption; apply H3.
Qed.

(** Once resolved, the prompt takes no further input. *)
Lemma feed_resolved t chunks : listening t = false -> feed t chunks = t.
Proof. intros H. destruct chunks; cbn [feed]; now rewrite ?H. Qed.

(** *** What a line can hold *)

Lemma removelast_Forall {A} (Q : A -> Prop) l :
  Forall Q l -> Forall Q (removelast l).
Proof.
  induction 1 as [|x l Hx Hl IH]; [constructor|].
  cbn [removelast]. destruct l; [constructor | now constructor].
Qed.


Lemma onData_clean t c : clean t -> clean (onData t [c]).
Proof.
  intros Hc. pose proof Hc as (Hi & Hr).
  assert (Hdone : forall text, clean (finish t text (input t))).
  { intros text. split; [exact Hi|]. cbn. now intros value [= <-]. }
  rewrite onData_single.
  destruct (_ || _); [apply Hdone|].
  destruct (c =? ETX).
  { split; [constructor|]. cbn. intros value [= <-]. constructor. }
  destruct (_ || _).
  - destruct (input t) eqn:E; [exact Hc|].
    split; [|exact Hr]. cbn [erased input]. rewrite <- E in Hi.
    now apply removelast_Forall.
  - destruct (printable c) eqn:Ep; [|exact Hc].
    split; [|exact Hr]. cbn [typed input].
    apply Forall_app. split; [assumption | now constructor].
Qed.

(** X15.  When every chunk is a single unit (keys arrive one by one), the line
    and the value the promise resolves with hold printable ASCII only: no
    control character, no unit above the tilde. *)
Theorem resolved_line_printable chunks value :
  Forall (fun char => List.length char = 1%nat) chunks ->
  resolved (feed start chunks) = Some value ->
  forallb printable value = true.
Proof.
  intros Hall Hres.
  assert (Hclean : clean (feed start chunks)).
  { assert (Hs : clean start) by (split; [constructor | discriminate]).
    revert Hs. generalize start. clear Hres.
    induction Hall as [|char rest Hc _ IH]; intros t Ht; [assumption|].
    cbn [feed]. destruct (listening t); [|assumption].
    apply IH. destruct char as [|c [|d r]]; try discriminate.
    now apply onData_clean. }
  apply forallb_forall. intros c Hin.
  exact (proj1 (Forall_forall _ _) (proj2 Hclean _ Hres) c Hin).
Qed.

Lemma resolved_line_printable_witness :
  forallb printable (js "ac") = true.
Proof.
  apply (resolved_line_printable [[97]; [98]; [7]; [DEL]; [233]; [99]; [LF]]).
  - repeat (apply Forall_cons; [reflexivity|]). apply Forall_nil.
  - reflexivity.
Defined.

(** Without that, a pasted chunk brings a carriage return into the line
    and does not submit it. *)
Lemma pasted_line_not_submitted :
  feed start [js "ls" ++ [CR]]
  = {| input := js "ls" ++ [CR]; written := [js "ls" ++ [CR]];
       rawMode := true; paused := false; listening := true;
       resolved := None |}.
Proof. reflexivity. Qed.

End IoFacts.

(* ================================================================= *)
(** ** The command line *)

Module CliFacts.

Import JsObject Cli ScriptManager Samples.

Lemma get_setOwn_other o key v other :
  String.eqb key other = false -> get (setOwn o key v) other = get o other.
Proof.
  intros Hne. induction o as [|[k old] o IH]; cbn [setOwn get].
  - now rewrite Hne.
  - destruct (String.eqb k key) eqn:Ek; cbn [get].
    + apply String.eqb_eq in Ek. subst k. now rewrite Hne.
    + now rewrite IH.
Qed.

Lemma get_set_other o key v other :
  String.eqb key other = false -> get (set o key v) other = get o other.
Proof.
  intros Hne. unfold set. destruct (String.eqb key PROTO); [reflexivity|].
  now apply get_setOwn_other.
Qed.

Lemma get_setOwn_same o key v : get (setOwn o key v) key = v.
Proof.
  induction o as [|[k old] o IH]; cbn [setOwn get].
  - now rewrite String.eqb_refl.
  - destruct (String.eqb k key) eqn:Ek; cbn [get]; now rewrite Ek.
Qed.

Lemma assigned_not_proto key :
  assigned key = true -> String.eqb key PROTO = false.
Proof.
  intros H. destruct (String.eqb key PROTO) eqn:E; [|reflexivity].
  apply String.eqb_eq in E. subst key. discriminate H.
Qed.

Lemma get_set o key v other :
  assigned key = true ->
  get (set o key v) other = if String.eqb key other then v else get o other.
Proof.
  intros Hk. destruct (String.eqb key other) eqn:E.
  - apply String.eqb_eq in E. subst other. unfold set.
    rewrite (assigned_not_proto _ Hk). apply get_setOwn_same.
  - now apply get_set_other.
Qed.

Lemma setOwn_keys o key v :
  In key (map fst o) -> map fst (setOwn o key v) = map fst o.
Proof.
  induction o as [|[k old] o IH]; intros Hin; [contradiction|].
  cbn [setOwn]. destruct (String.eqb k key) eqn:Ek; [reflexivity|].
  cbn [map fst]. f_equal. apply IH.
  destruct Hin as [E | Hin]; [|assumption].
  cbn [fst] in E. subst k. now rewrite String.eqb_refl in Ek.
Qed.

Lemma assigned_own key : assigned key = true -> In key OWN_KEYS.
Proof.
  unfold assigned, OWN_KEYS. intros H.
  apply existsb_exists in H as (k & Hin & E).
  apply String.eqb_eq in E. now subst k.
Qed.

Lemma get_not_own o key :
  ~ In key (map fst o) -> get o key = fromPrototype key.
Proof.
  induction o as [|[k v] o IH]; intros Hnot; [reflexivity|].
  cbn [get]. destruct (String.eqb k key) eqn:E.
  - apply String.eqb_eq in E. subst k. exfalso. apply Hnot. now left.
  - apply IH. intros Hin. apply Hnot. now right.
Qed.

Lemma classify_assignment arg more :
  match classify arg more with
  | TakeValue key => forall value, assignment key (Str value) = true
  | Assign key v => assignment key v = true
  | _ => True
  end.
Proof.
  unfold classify.
  repeat match goal with
         | |- context [if ?b then _ else _] => destruct b
         end; (exact I || reflexivity).
Qed.

Lemma assignment_assigned key v : assignment key v = true -> assigned key = true.
Proof.
  unfold assignment, assigned. cbn [existsb].
  destruct v as [|s|[|]|n]; try discriminate; intros H.
  - repeat (apply orb_true_iff in H as [H | H]; [now rewrite H, ?orb_true_r|]).
    discriminate.
  - now rewrite H, ?orb_true_r.
Qed.

(** Strong induction on the length of the argument list. *)
Lemma args_ind (Q : list jsstring -> Prop) :
  (forall args,
      (forall shorter,
          (List.length shorter < List.length args)%nat -> Q shorter) ->
      Q args) ->
  forall args, Q args.
Proof.
  intros H args. remember (List.length args) as n eqn:E. revert args E.
  induction n as [n IH] using lt_wf_ind. intros args ->.
  apply H. intros t Ht. now apply (IH (List.length t)).
Qed.

(** What holds of the object before the loop and is kept by every
    assignment of the loop holds of the object returned. *)
Lemma parseLoop_invariant (Inv : Obj -> Prop) :
  (forall o key v, assignment key v = true -> Inv o -> Inv (set o key v)) ->
  forall args o options,
    Inv o -> parseLoop o args = Returned options -> Inv options.
Proof.
  intros Hset args. pattern args. apply args_ind. clear args.
  intros args IH o options Ho.
  destruct args as [|arg rest]; cbn [parseLoop].
  - now intros [= <-].
  - pose proof (classify_assignment arg
                  (match rest with [] => false | _ => true end)) as Hk.
    destruct (classify arg _) as [key | key v | | ].
    + destruct rest as [|value rest'].
      * now intros [= <-].
      * apply IH; [simpl; lia | now apply Hset].
    + apply IH; [simpl; lia | now apply Hset].
    + discriminate.
    + apply IH; [simpl; lia | assumption].
Qed.

Lemma process_depends_on_sandbox o1 o2 content :
  defaultSandbox o1 = defaultSandbox o2 ->
  processScriptContent o1 content = processScriptContent o2 content.
Proof.
  intros E. unfold processScriptContent.
  assert (Hr : forall m v, replacer o1 m v = replacer o2 m v).
  { intros m v. unfold replacer. now rewrite E. }
  generalize 0%nat. induction content as [|c rest IH]; intros skip;
    [reflexivity|].
  cbn [replacePlaceholders]. destruct skip; [|apply IH].
  destruct (matchPlaceholder (c :: rest)); now rewrite ?Hr, IH.
Qed.

Lemma parsed_without_default_sandbox env args options :
  parseArgs env args = Returned options ->
  get options DEFAULT_SANDBOX = Undefined.
Proof.
  apply (parseLoop_invariant (fun o => get o DEFAULT_SANDBOX = Undefined)).
  - intros o key v Hk Ho. rewrite get_set_other; [assumption|].
    apply assignment_assigned in Hk.
    destruct (String.eqb key DEFAULT_SANDBOX) eqn:E; [|reflexivity].
    apply String.eqb_eq in E. subst key. discriminate.
  - reflexivity.
Qed.

Lemma defaults_wellShaped env : wellShaped (defaults env).
Proof.
  unfold wellShaped, defaults. repeat split.
  - cbn. now destruct (CHUK_VIRTUAL_SHELL_PATH env).
  - cbn. now destruct (CHUK_VIRTUAL_SHELL_CONFIG env).
  - cbn. now destruct (PYODIDE_SCRIPT env).
  - cbn. eauto.
  - cbn. eauto.
Qed.

Lemma set_wellShaped o key v :
  assignment key v = true -> wellShaped o -> wellShaped (set o key v).
Proof.
  intros Ha (Hkeys & Hp & Hc & Hs & (sb & Hsb) & (b & Hb)).
  pose proof (assignment_assigned _ _ Ha) as Hk.
  unfold wellShaped. rewrite !get_set by assumption.
  split; [|split; [|split; [|split; [|split]]]].
  - unfold set. rewrite (assigned_not_proto _ Hk).
    rewrite setOwn_keys; [assumption|].
    rewrite Hkeys. now apply assigned_own.
  - destruct (String.eqb key PYTHON_MODULE_PATH) eqn:E; [|assumption].
    apply String.eqb_eq in E. subst key.
    now destruct v as [|s|[|]|n].
  - destruct (String.eqb key CONFIG_PATH) eqn:E; [|assumption].
    apply String.eqb_eq in E. subst key.
    now destruct v as [|s|[|]|n].
  - destruct (String.eqb key CUSTOM_SCRIPT_PATH) eqn:E; [|assumption].
    apply String.eqb_eq in E. subst key.
    now destruct v as [|s|[|]|n].
  - destruct (String.eqb key SANDBOX_NAME) eqn:E; [|eauto].
    apply String.eqb_eq in E. subst key.
    destruct v as [|s|[|]|n]; try discriminate. eauto.
  - destruct (String.eqb key USE_ENHANCED_SCRIPT) eqn:E; [|eauto].
    apply String.eqb_eq in E. subst key.
    destruct v as [|s|[|]|n]; try discriminate. eauto.
Qed.

(** X16.  The object that [parseArgs] returns has the five own properties
    of its literal, in the literal's order, and no other, whatever the
    arguments are: the three paths are strings or [undefined],
    [sandboxName] is a string, [useEnhancedScript] a boolean.  Every
    other property reads as on an empty object: as what [Object.prototype]
    holds there ([constructor], [toString], ...), and as [undefined] when
    it holds nothing. *)
Theorem parsed_options_shape env args options :
  parseArgs env args = Returned options ->
  map fst options = OWN_KEYS
  /\ stringOrUndefined (get options PYTHON_MODULE_PATH) = true
  /\ stringOrUndefined (get options CONFIG_PATH) = true
  /\ stringOrUndefined (get options CUSTOM_SCRIPT_PATH) = true
  /\ (exists s, get options SANDBOX_NAME = Str s)
  /\ (exists b, get options USE_ENHANCED_SCRIPT = Bool b)
  /\ (forall key, assigned key = false ->
                  get options key = fromPrototype key).
Proof.
  intros H.
  assert (Hshape : wellShaped options).
  { revert H. apply (parseLoop_invariant wellShaped).
    - intros o key v. apply set_wellShaped.
    - apply defaults_wellShaped. }
  destruct Hshape as (Hkeys & Hp & Hc & Hs & Hsb & Hb).
  repeat (split; [assumption|]).
  intros key Hk. apply get_not_own. rewrite Hkeys. intros Hin.
  assert (Hyes : assigned key = true); [|congruence].
  unfold assigned. apply existsb_exists. exists key.
  split; [exact Hin | apply String.eqb_refl].
Qed.

Lemma parsed_options_shape_witness :
  map fst basicRun = OWN_KEYS
  /\ stringOrUndefined (get basicRun PYTHON_MODULE_PATH) = true
  /\ stringOrUndefined (get basicRun CONFIG_PATH) = true
  /\ stringOrUndefined (get basicRun CUSTOM_SCRIPT_PATH) = true
  /\ (exists s, get basicRun SANDBOX_NAME = Str s)
  /\ (exists b, get basicRun USE_ENHANCED_SCRIPT = Bool b)
  /\ (forall key, assigned key = false ->
                  get basicRun key = fromPrototype key).
Proof.
  apply (parsed_options_shape noEnv [js "--basic-script"; js "pkg"]).
  reflexivity.
Defined.

(** On the returned object [constructor] is not [undefined], and
    [defaultSandbox] is. *)
Lemma parsed_options_inherit :
  get basicRun "constructor" = Builtin "constructor"
  /\ get basicRun DEFAULT_SANDBOX = Undefined.
Proof. split; reflexivity. Qed.

(** X17.  No command line and no environment makes [parseArgs] set
    [defaultSandbox], the property that [processScriptContent] reads: the
    sandbox named by [--sandbox] or [PYODIDE_SANDBOX] goes to
    [sandboxName], and the script manager built on the returned object
    replaces the placeholder by [ai_sandbox] whatever was asked for. *)
Theorem cli_sandbox_never_reaches_script env args options content :
  parseArgs env args = Returned options ->
  get options DEFAULT_SANDBOX = Undefined
  /\ processScriptContent (shellOptions options) content
     = processScriptContent noOptions content
  /\ processScriptContent (shellOptions options)
       (placeholder KEY_DEFAULT_SANDBOX)
     = AI_SANDBOX.
Proof.
  intros H. pose proof (parsed_without_default_sandbox _ _ _ H) as Hd.
  assert (E : forall c, processScriptContent (shellOptions options) c
                        = processScriptContent noOptions c).
  { intros c. apply process_depends_on_sandbox.
    cbn [shellOptions defaultSandbox]. now rewrite Hd. }
  split; [exact Hd|]. split; [apply E|]. now rewrite E.
Qed.

Lemma cli_sandbox_never_reaches_script_witness :
  get prodRun DEFAULT_SANDBOX = Undefined
  /\ processScriptContent (shellOptions prodRun)
       (js "sandbox = '${defaultSandbox}'")
     = processScriptContent noOptions (js "sandbox = '${defaultSandbox}'")
  /\ processScriptContent (shellOptions prodRun)
       (placeholder KEY_DEFAULT_SANDBOX)
     = AI_SANDBOX.
Proof.
  apply (cli_sandbox_never_reaches_script noEnv [js "--sandbox"; js "prod"]).
  reflexivity.
Defined.

Lemma classify_help arg more :
  classify arg more = ShowHelp -> arg = js "--help" \/ arg = js "-h".
Proof.
  destruct (Js.eqb arg (js "--help")) eqn:E1; [left; now apply eqb_eq|].
  destruct (Js.eqb arg (js "-h")) eqn:E2; [right; now apply eqb_eq|].
  unfold classify. rewrite E1, E2. cbn [orb].
  repeat match goal with
         | |- context [if ?b then _ else _] => destruct b
         end; discriminate.
Qed.

(** X18.  [parseArgs] ends the program only with code 0 and only when [--help]
    or [-h] is among the arguments. *)
Theorem exit_only_for_help env args code :
  parseArgs env args = Exited code ->
  code = 0 /\ (In (js "--help") args \/ In (js "-h") args).
Proof.
  unfold parseArgs. generalize (defaults env). pattern args.
  apply args_ind. clear args. intros args IH o.
  destruct args as [|arg rest]; cbn [parseLoop]; [discriminate|].
  assert (Hstep : forall o' shorter,
             (List.length shorter < List.length (arg :: rest))%nat ->
             (forall x, In x shorter -> In x (arg :: rest)) ->
             parseLoop o' shorter = Exited code ->
             code = 0 /\ (In (js "--help") (arg :: rest)
                          \/ In (js "-h") (arg :: rest))).
  { intros o' shorter Hlen Hsub Hexit.
    destruct (IH shorter Hlen o' Hexit) as (Hc & [Hin | Hin]).
    - split; [assumption | left; now apply Hsub].
    - split; [assumption | right; now apply Hsub]. }
  destruct (classify arg _) as [key | key v | | ] eqn:Ec.
  - destruct rest as [|value rest']; [discriminate|].
    apply Hstep; [simpl; lia|]. intros x Hx. right. now right.
  - apply Hstep; [simpl; lia|]. intros x Hx. now right.
  - intros [= <-]. split; [reflexivity|].
    destruct (classify_help _ _ Ec) as [-> | ->]; [left | right]; now left.
  - apply Hstep; [simpl; lia|]. intros x Hx. now right.
Qed.

Lemma exit_only_for_help_witness :
  0 = 0 /\ (In (js "--help") [js "--basic-script"; js "--help"]
            \/ In (js "-h") [js "--basic-script"; js "--help"]).
Proof.
  apply (exit_only_for_help noEnv [js "--basic-script"; js "--help"] 0).
  reflexivity.
Defined.

(** The converse fails: [--help] in the place of a value is the value. *)
Lemma help_as_value_is_no_help :
  exists options,
    parseArgs noEnv [js "--sandbox"; js "--help"] = Returned options
    /\ get options SANDBOX_NAME = Str (js "--help").
Proof. eexists. split; reflexivity. Qed.

End CliFacts.

(* ================================================================= *)
(** ** The package, the main script and the configuration folder *)

Module ShellRunFacts.

Import JsObject Python PyodideFs PyodideShell ScriptManager.
Import PathFacts EncodingFacts RuntimeFacts WalkFacts ShellRun Samples.

(** X19.  [loadVirtualShell] loads the directory that the resolver returns, not
    its sibling below [..], under the directory's own name: when nothing
    of the located package [D] fails to be read, names are plain and
    contents are text, the files written are the [.py] files of [D] outside
    hidden entries, below [./<name>], and their number is returned. *)
Theorem located_package_staged fs proc options pyodide moduleDir D :
  locateVirtualShellDirectory fs proc options = Ok moduleDir ->
  resolve fs moduleDir = Some D ->
  properName (Path.basename moduleDir) = true ->
  readable D = true ->
  wellNamed D = true ->
  exists ops,
    stageVirtualShell fs proc options pyodide
    = (pyodide ++ ops, Some (List.length (stagedBelow D)))
    /\ writesOf ops = expectedWrites [Path.basename moduleDir] D.
Proof.
  intros Hloc Hres Hproper Hr Hw. unfold stageVirtualShell. rewrite Hloc.
  cbv zeta. unfold loadPythonModules, locateDirectory.
  rewrite (SelectionFacts.located_exists _ _ _ _ Hloc), Hres.
  set (base := Path.basename moduleDir) in *.
  assert (Eb : orElse (Some base) base = base).
  { unfold orElse. now destruct base. }
  rewrite Eb.
  assert (Hsafe : literalSafe QUOTE (js "./" ++ base) = true).
  { rewrite literalSafe_app, (properName_safe _ Hproper). reflexivity. }
  assert (Hne : js "./" ++ base <> []) by discriminate.
  rewrite create_ok by assumption.
  destruct (walk_spec D (pyodide ++ [Makedirs (js "./" ++ base)])
                      (js "./" ++ base) [base] Hsafe Hne
                      (vdir_root base Hproper) Hr Hw)
    as (ops & E & Hwr & _).
  exists ([Makedirs (js "./" ++ base)] ++ ops).
  rewrite E, <- app_assoc. split; [reflexivity|].
  rewrite writesOf_app. exact Hwr.
Qed.

Lemma located_package_staged_witness :
  exists ops,
    stageVirtualShell nestedHost proc0 (withModulePath "proj-x") []
    = ([] ++ ops,
       Some (List.length (stagedBelow (dir [named "a.py" (file "A")]))))
    /\ writesOf ops
       = expectedWrites [Path.basename (js "proj-x/proj_x")]
                        (dir [named "a.py" (file "A")]).
Proof.
  apply (located_package_staged nestedHost proc0 (withModulePath "proj-x") []
           (js "proj-x/proj_x") (dir [named "a.py" (file "A")]));
    reflexivity.
Defined.

(** *** The main script *)

Lemma run_script_write st target content :
  Utf8.isText content = true ->
  literalSafe QUOTE target = true -> target <> [] ->
  execScriptWrite
    (SCRIPT_HEAD ++ target ++ [QUOTE] ++ SCRIPT_WRITE
     ++ Json.stringify content ++ SCRIPT_TAIL) st
  = Some (st ++ [WriteFile target (Utf8.encode content)]).
Proof.
  intros Ht Hs Hne. unfold execScriptWrite.
  rewrite expect_app. cbn [app].
  rewrite stringLiteral_safe by assumption.
  rewrite expect_app.
  unfold Json.stringify. cbn [app]. rewrite Z.eqb_refl.
  rewrite <- app_assoc. cbn [app].
  rewrite stringLiteral_stringify_body by assumption.
  rewrite <- (app_nil_r SCRIPT_TAIL) at 2. rewrite expect_app.
  unfold writeText, Utf8.pyEncode. rewrite Ht.
  destruct target; [contradiction | reflexivity].
Qed.

Lemma isText_processed options content :
  Utf8.isText content = true ->
  Utf8.isText (orElse (defaultSandbox options) AI_SANDBOX) = true ->
  Utf8.isText (processScriptContent options content) = true.
Proof.
  unfold Utf8.isText. rewrite !forallb_forall, <- !Forall_forall.
  apply SubstitutionFacts.processed_characters.
Qed.

(** X20.  When the script that [getScriptPath] selects is a readable text,
    [loadPythonScript] returns [pyodide_main.py], and all it does to the
    runtime is to write there the UTF-8 bytes of the script with its
    placeholders processed: the JSON literal the text travels in gives it
    back unchanged, carriage returns included.  Read in text mode, the
    file gives the processed script with its line ends translated.  The
    sandbox name put in must be text too. *)
Theorem main_script_staged fs proc options pyodide scriptPath content :
  getScriptPath fs proc (shellOptions options)
    (if truthyValue (get options USE_ENHANCED_SCRIPT)
     then js "enhanced" else js "basic") = Ok scriptPath ->
  resolve fs scriptPath = Some (File (Some content)) ->
  Utf8.isText content = true ->
  Utf8.isText (orElse (defaultSandbox (shellOptions options)) AI_SANDBOX)
  = true ->
  let processed := processScriptContent (shellOptions options) content in
  let written := pyodide ++ [WriteFile DEST_PATH (Utf8.encode processed)] in
  loadPythonScript fs proc options pyodide = (written, Some DEST_PATH)
  /\ readFile written DEST_PATH = Some (Utf8.encode processed)
  /\ readText written DEST_PATH = Some (universalNewlines processed).
Proof.
  intros Hpath Hres Ht Hv processed written.
  pose proof (isText_processed _ _ Ht Hv) as Hp. fold processed in Hp.
  split; [|split].
  - unfold loadPythonScript. cbv zeta.
    rewrite Hpath. unfold readScript. rewrite Hres.
    fold processed.
    now rewrite run_script_write
      by (assumption || reflexivity || discriminate).
  - apply readFile_last.
  - unfold readText, written. rewrite readFile_last.
    now rewrite decode_encode.
Qed.

Lemma main_script_staged_witness :
  let processed := processScriptContent (shellOptions enhancedRun) scriptText in
  let written := [] ++ [WriteFile DEST_PATH (Utf8.encode processed)] in
  loadPythonScript scriptHost proc0 enhancedRun [] = (written, Some DEST_PATH)
  /\ readFile written DEST_PATH = Some (Utf8.encode processed)
  /\ readText written DEST_PATH = Some (universalNewlines processed).
Proof.
  apply (main_script_staged scriptHost proc0 enhancedRun []
           (js "/app/python_scripts/pyodide_enhanced_main.py") scriptText);
    reflexivity.
Defined.

(** The sample script has a line ending in a carriage return and a line
    feed: the bytes of the file keep it, the text read back does not. *)
Lemma main_script_line_ends :
  let processed := processScriptContent (shellOptions enhancedRun) scriptText in
  In CARRIAGE_RETURN processed
  /\ ~ In CARRIAGE_RETURN (universalNewlines processed).
Proof.
  cbv zeta. split.
  - vm_compute. tauto.
  - vm_compute. intros H.
    repeat (destruct H as [H | H]; [discriminate H|]). exact H.
Qed.

(** X21.  A custom script path that exists but cannot be read as a file (a
    directory, say) is still the one selected: [loadPythonScript] raises
    and leaves the runtime as it was, whatever built-in scripts exist. *)
Theorem unreadable_custom_script_not_skipped fs proc options pyodide custom :
  asString (get options CUSTOM_SCRIPT_PATH) = Some custom ->
  existsSync fs custom = true ->
  readScript fs custom = None ->
  loadPythonScript fs proc options pyodide = (pyodide, None).
Proof.
  intros Hc Hex Hread. unfold loadPythonScript, getScriptPath. cbv zeta.
  cbn [shellOptions customScriptPath]. rewrite Hc.
  assert (Hne : custom <> []).
  { intros ->. discriminate Hex. }
  destruct custom as [|c rest]; [contradiction|].
  cbn [truthy orElse andb]. rewrite Hex, Hread. reflexivity.
Qed.

Lemma unreadable_custom_script_not_skipped_witness :
  loadPythonScript scriptHost proc0 customRun [] = ([], None).
Proof.
  apply (unreadable_custom_script_not_skipped scriptHost proc0 customRun []
           (js "/opt/scripts")); reflexivity.
Defined.

(** *** The configuration folder *)

Lemma normalize_nonempty p : Path.normalize p <> [].
Proof.
  unfold Path.normalize. destruct p as [|c p]; [discriminate|].
  destruct (Path.joinWith _ _) as [|x body].
  - destruct (c =? SLASH); [discriminate|].
    destruct (_ =? SLASH); discriminate.
  - destruct (c =? SLASH); [discriminate|].
    destruct (_ =? SLASH); discriminate.
Qed.

Lemma join_nonempty args : Path.join args <> [].
Proof.
  unfold Path.join. destruct (filter _ args); [discriminate|].
  apply normalize_nonempty.
Qed.

Lemma default_config_is_searched proc envConfig :
  In (Path.join [dirname__ proc; js ".."; js "config"])
     (possibleConfigPaths proc envConfig).
Proof.
  unfold possibleConfigPaths. cbn [flat_map].
  apply in_or_app. right. apply in_or_app. left.
  pose proof (join_nonempty [dirname__ proc; js ".."; js "config"]) as Hne.
  destruct (Path.join [dirname__ proc; js ".."; js "config"]);
    [contradiction|]. now left.
Qed.

(** X22.  The folder that [loadConfiguration] loads exists on the host unless
    it has just been created; a folder is created exactly when neither
    [options.configPath] nor any searched location exists.  So the test
    [!fs.existsSync(configFolderPath)] in front of [mkdirSync] never
    fails: the default folder was among the locations searched. *)
Theorem config_folder_exists_or_created fs proc envConfig options :
  let chosen := configFolder fs proc envConfig options in
  let configPath := asString (get options CONFIG_PATH) in
  (snd chosen = false -> existsSync fs (fst chosen) = true)
  /\ (snd chosen = true <->
      truthy configPath && existsSync fs (orElse configPath []) = false
      /\ find (existsSync fs) (possibleConfigPaths proc envConfig) = None).
Proof.
  cbv zeta. unfold configFolder.
  destruct (truthy _ && existsSync fs _) eqn:Ec.
  - cbn [fst snd]. split.
    + intros _. now apply andb_true_iff in Ec as [_ Ec].
    + split; [discriminate | now intros [H _]].
  - destruct (find _ (possibleConfigPaths proc envConfig)) as [found|] eqn:Ef.
    + cbn [fst snd]. split.
      * intros _. now apply find_some in Ef as [_ Ef].
      * split; [discriminate | now intros [_ H]].
    + pose proof (find_none _ _ Ef _ (default_config_is_searched proc envConfig))
        as Hd.
      rewrite Hd. cbn [negb fst snd]. split; [discriminate|].
      split; auto.
Qed.

End ShellRunFacts.
